(** * segVerHandler: manifest reconciliation and versioning engine

    A shallow embedding of the manifest functions (manifest.py), the file
    matcher and reconciliation (commons.py) and the service operations
    (koms_service.py), with the properties of the specification stated and
    proved (or refuted) over it.

    Conventions of the embedding.
    - A Python [str] is a [string]; characters are 8-bit and the embedding
      covers ASCII text: the classes [\d], [isdigit] and [isspace] are the
      ASCII ones.  On other text Python's classes are wider ([\d] and [int]
      accept every Unicode decimal digit, [strip] every Unicode space), so
      the statements that depend on how the digits of a file name are read
      are stated for ASCII names ([Py.isascii]).
    - A Python [dict] keeps insertion order and is iterated in that order:
      the [volumes] mapping is an association list, with the dictionary
      operations below.
    - A Python [set] has no specified iteration order: every function that
      iterates over a set takes the enumeration [set_order] as a parameter,
      and the theorems hold for every enumeration.
    - Exceptions are values of [exn]; a function that can raise returns a
      [result].
    - The clock, the content fingerprints and the file system are
      parameters. *)

From Stdlib Require Import String Ascii List Arith ZArith Bool Lia Permutation Sorted.
From Stdlib Require Import DecimalString DecimalNat.
Import ListNotations.

Open Scope string_scope.
Open Scope list_scope.
Open Scope nat_scope.

Infix "+++" := String.append (right associativity, at level 60).
Infix "==" := String.eqb (at level 70, no associativity).

(* ------------------------------------------------------------------ *)
(** ** Python primitives used by the program *)

Module Py.

Definition is_digit (c : ascii) : bool :=
  let n := nat_of_ascii c in (48 <=? n) && (n <=? 57).

(** ASCII characters for which [str.isspace] holds. *)
Definition is_space (c : ascii) : bool :=
  let n := nat_of_ascii c in
  ((9 <=? n) && (n <=? 13)) || ((28 <=? n) && (n <=? 32)).

Fixpoint all_chars (p : ascii -> bool) (s : string) : bool :=
  match s with
  | EmptyString => true
  | String c s' => p c && all_chars p s'
  end.

(** [str.isdigit()] on ASCII text: non-empty and made of digits. *)
Definition isdigit (s : string) : bool :=
  negb (s == "") && all_chars is_digit s.

(** [str.isascii()]: every character is below U+0080.  The program does
    not call it; the statements use it to name the text on which the
    classes above are Python's own. *)
Definition isascii (s : string) : bool :=
  all_chars (fun c => nat_of_ascii c <? 128) s.

(** [str(n)] and the [{n}] of an f-string, for a non-negative [int]. *)
Definition str_nat (n : nat) : string :=
  NilEmpty.string_of_uint (Nat.to_uint n).

(** [int(s)] on a string of decimal digits; [None] stands for the
    [ValueError] Python raises.  (Python also accepts a sign, surrounding
    white space and single underscores between digits; no version token
    the program builds contains any, and the model rejects them.) *)
Definition int (s : string) : option nat :=
  if isdigit s
  then option_map Nat.of_uint (NilEmpty.uint_of_string s)
  else None.

(** [s.startswith(p)], [s.endswith(p)]. *)
Definition startswith (s p : string) : bool := String.prefix p s.

Definition endswith (s p : string) : bool :=
  let n := String.length s in
  let k := String.length p in
  (k <=? n) && (substring (n - k) k s == p).

(** [s[:-k]]: for [k = 0] the slice [s[:-0]] is [s[:0]], the empty
    string. *)
Definition slice_to_neg (k : nat) (s : string) : string :=
  if k =? 0 then "" else substring 0 (String.length s - k) s.

(** [s[1:]]. *)
Definition slice_from_1 (s : string) : string :=
  match s with
  | EmptyString => ""
  | String _ s' => s'
  end.

Fixpoint lstrip (s : string) : string :=
  match s with
  | EmptyString => ""
  | String c s' => if is_space c then lstrip s' else s
  end.

Definition rev_string (s : string) : string :=
  string_of_list_ascii (List.rev (list_ascii_of_string s)).

Definition rstrip (s : string) : string := rev_string (lstrip (rev_string s)).

Definition strip (s : string) : string := rstrip (lstrip s).

(** [s.split(c)] for a one-character separator: never empty. *)
Fixpoint split_on (sep : ascii) (s : string) : list string :=
  match s with
  | EmptyString => [""]
  | String c s' =>
      if Ascii.eqb c sep then "" :: split_on sep s'
      else match split_on sep s' with
           | [] => [String c ""]
           | w :: ws => String c w :: ws
           end
  end.

Definition lower_char (c : ascii) : ascii :=
  let n := nat_of_ascii c in
  if (65 <=? n) && (n <=? 90) then ascii_of_nat (n + 32) else c.

Fixpoint lower (s : string) : string :=
  match s with
  | EmptyString => ""
  | String c s' => String (lower_char c) (lower s')
  end.

(** [x or y] on an optional string: [None] and [""] are falsy. *)
Definition or_else (x : option string) (y : string) : string :=
  match x with
  | Some s => if s == "" then y else s
  | None => y
  end.

(** Truth value of an optional string. *)
Definition truthy (x : option string) : bool :=
  match x with
  | Some s => negb (s == "")
  | None => false
  end.

(** [os.path.join] on POSIX, two components and then any number. *)
Definition join2 (a b : string) : string :=
  if startswith b "/" then b
  else if (a == "") || endswith a "/" then a +++ b
  else a +++ "/" +++ b.

Definition path_join (a : string) (ps : list string) : string :=
  fold_left join2 ps a.

(** Position after the last ['/'] of [s] ([s.rfind('/') + 1]). *)
Fixpoint after_last_slash (s : string) : nat :=
  match s with
  | EmptyString => 0
  | String c s' =>
      if existsb (Ascii.eqb "/"%char) (list_ascii_of_string s')
      then S (after_last_slash s')
      else if Ascii.eqb c "/"%char then 1 else 0
  end.

(** [os.path.basename] on POSIX. *)
Definition basename (p : string) : string :=
  let i := after_last_slash p in
  substring i (String.length p - i) p.

Fixpoint strip_trailing_slashes (rs : list ascii) : list ascii :=
  match rs with
  | c :: rs' => if Ascii.eqb c "/"%char then strip_trailing_slashes rs' else rs
  | [] => []
  end.

(** [os.path.dirname] on POSIX: the head is everything up to the last
    slash, with its trailing slashes removed unless it is made of
    slashes only. *)
Definition dirname (p : string) : string :=
  let head := substring 0 (after_last_slash p) p in
  if all_chars (Ascii.eqb "/"%char) head then head
  else string_of_list_ascii
         (List.rev (strip_trailing_slashes (List.rev (list_ascii_of_string head)))).

(** Set difference as Python computes it, before any order is chosen:
    the elements of [a] not in [b], without repetition. *)
Definition set_diff (a b : list string) : list string :=
  nodup string_dec (filter (fun x => negb (existsb (String.eqb x) b)) a).

Definition mem (x : string) (l : list string) : bool :=
  existsb (String.eqb x) l.

(** [l[i]] for an [int] index: a negative index counts from the end;
    [None] stands for the [IndexError] of an index out of range. *)
Definition list_index {A : Type} (l : list A) (i : Z) : option A :=
  let n := Z.of_nat (List.length l) in
  if ((0 <=? i) && (i <? n))%Z then nth_error l (Z.to_nat i)
  else if ((- n <=? i) && (i <? 0))%Z then nth_error l (Z.to_nat (i + n))
  else None.

End Py.

(* ------------------------------------------------------------------ *)
(** ** Exceptions and results *)

Inductive exn : Type :=
| ValueError          (* int() of a non-numeric string *)
| RuntimeError        (* dictionary changed size during iteration *)
| TypeError           (* unexpected keyword argument *)
| SegVerException (message : string)
| ImageDataMatchingError.

Inductive result (A : Type) : Type :=
| Ok (a : A)
| Raise (e : exn).
Arguments Ok {A} a.
Arguments Raise {A} e.

Definition bind {A B} (r : result A) (k : A -> result B) : result B :=
  match r with
  | Ok a => k a
  | Raise e => Raise e
  end.

Notation "x <- r ;; k" := (bind r (fun x => k))
  (at level 61, r at next level, right associativity).
Notation "' p <- r ;; k" := (bind r (fun x => let p := x in k))
  (at level 61, p pattern, r at next level, right associativity).

(* ------------------------------------------------------------------ *)
(** ** Data model (spec section 3, manifest.py) *)

(** One element of a volume's ["versions"] list. *)
Record VersionRecord : Type := mkVersion {
  r_id : string;
  r_hash : string;
  r_ts : string;
  r_author : string;
  r_notes : string;
  r_tags : list string;
  r_version : string;
  r_last_updated : string
}.

(** The value stored under a subject key: ["selected-version"] ([None] in
    Python is [None] here) and ["versions"]. *)
Record VolumeEntry : Type := mkEntry {
  selected_version : option string;
  versions : list VersionRecord
}.

(** The ["volumes"] dictionary, in insertion order. *)
Definition volumes : Type := list (string * VolumeEntry).

Record manifest : Type := mkManifest {
  index_name : string;
  volume_path : string;
  volume_extension : string;
  label_path : string;
  label_extension : string;
  vols : volumes
}.

Definition with_vols (m : manifest) (vs : volumes) : manifest :=
  mkManifest (index_name m) (volume_path m) (volume_extension m)
             (label_path m) (label_extension m) vs.

Definition with_versions (e : VolumeEntry) (l : list VersionRecord) : VolumeEntry :=
  mkEntry (selected_version e) l.

Definition with_selected (e : VolumeEntry) (s : option string) : VolumeEntry :=
  mkEntry s (versions e).

(** Dictionary operations on [volumes]. *)
Module Dict.

Definition keys (d : volumes) : list string := map fst d.

(** [d.get(k)] / [d[k]]. *)
Fixpoint lookup (k : string) (d : volumes) : option VolumeEntry :=
  match d with
  | [] => None
  | (k', e) :: d' => if k == k' then Some e else lookup k d'
  end.

(** [k in d]. *)
Definition has (k : string) (d : volumes) : bool :=
  match lookup k d with Some _ => true | None => false end.

(** [d[k] = e]: an existing key keeps its position, a new key goes last. *)
Fixpoint set (k : string) (e : VolumeEntry) (d : volumes) : volumes :=
  match d with
  | [] => [(k, e)]
  | (k', e') :: d' =>
      if k == k' then (k', e) :: d' else (k', e') :: set k e d'
  end.

(** [del d[k]]. *)
Definition del (k : string) (d : volumes) : volumes :=
  filter (fun p => negb (k == fst p)) d.

End Dict.

(** Log, warning and error lines, one constructor per message the program
    formats; the comment gives the Python text. *)
Inductive msg : Type :=
(* verify_volseg_match *)
| VolumesFound (n : nat) (path : string)        (* "{n} volumes found in {path}" *)
| SegmentationsFound (n : nat) (path : string)  (* "{n} segmentations found in {path}" *)
| DirHasNoFile (path ext : string)              (* "\nDirectory {path} does not have any {ext} file!" *)
| DirMissing (path : string)                    (* "\nDirectory {path} does not exist!" *)
| VolumesWithoutSegmentation (names : list string)
| SegmentationsWithoutVolume (names : list string)
(* update_index *)
| AddedVolume (subject : string)                (* "Added new volume entry: {subject}" *)
| AddedVersion (version subject : string)       (* "Added new segmentation {version} to volume {subject}" *)
| RemovedVolume (subject : string)              (* "Removed volume entry: {subject}" *)
| RemovedVersion (seg_id subject : string)      (* "Removed segmentation version {seg_id} from volume {subject}" *)
(* remove_volume_version *)
| SelectionUpdated (subject latest : string)    (* "Updated selected-version for {subject} to latest version {latest}" *)
| SelectionCleared (subject : string)           (* "Removed all versions for {subject}, no selected-version available" *)
(* export_index *)
| Exporting (n : nat) (index : string)
| ExportedTo (path : string)
(* link_segmentation *)
| VolumeExtMismatch (ext fname : string)
| SegExtMismatch (ext fname : string)
| VolumeFileMissing (path : string)
| SegFileMissing (path : string)
| TargetExists (path : string)
| RenameFailed
| EntryAdded
| Attached (volume_path seg_path base : string)
| AlreadyPresent (base : string)                (* "Segmentation file '{base}' already present in index (nothing added)." *)
(* select_segmentation *)
| BadVersionToken (v : string)
| VolumeNotInManifest (base : string)
| VolumeRemoved (base : string)
| VersionNotInManifest (v base : string)
| PleaseSelectFrom (vs : list string)
| NoChanges
| VersionRemoved (v base : string)
| DefaultingTo (v : string)
| AlreadySelected (v base : string)
| SelectionChanged (base v : string)
(* update_segmentation_metadata *)
| OldAuthor (a : string) | NewAuthor (a : string) | AuthorUnchanged (a : string)
| OldNotes (a : string) | NewNotes (a : string) | NotesUnchanged (a : string)
| OldTags (t : list string) | NewTags (t : list string) | TagsUnchanged (t : list string)
| NoMetadataChange (base v : string)
| LastUpdated (ts : string)
| VersionNotFound (v base : string)
| BlankLine
| MetadataUpdated (base v : string).

(* ------------------------------------------------------------------ *)
(** ** manifest.py *)

Module Manifest.
Section WithEnvironment.

(** [_utc_iso()]: the clock reading, to the second. *)
Variable now : string.
(** [_hash_string]: the first eight hex digits of a SHA-256. *)
Variable hash_string : string -> string.

Definition build_empty_manifest
    (index_name volume_path volume_extension label_path label_extension : string)
    : manifest :=
  mkManifest index_name volume_path volume_extension label_path label_extension [].

Definition get_all_versions (m : manifest) (subject_key : string) : list VersionRecord :=
  match Dict.lookup subject_key (vols m) with
  | Some e => versions e
  | None => []
  end.

Definition get_all_version_strings (m : manifest) (subject_key : string) : list string :=
  if Dict.has subject_key (vols m)
  then map r_version (get_all_versions m subject_key)
  else [].

Definition get_selected_version (m : manifest) (subject_key : string) : option string :=
  match Dict.lookup subject_key (vols m) with
  | Some e => selected_version e
  | None => None
  end.

Definition set_selected_version (m : manifest) (subject_key : string)
    (version : option string) : manifest :=
  match Dict.lookup subject_key (vols m) with
  | Some e => with_vols m (Dict.set subject_key (with_selected e version) (vols m))
  | None => m
  end.

(** The loop of [get_latest_version]: [int(v["version"][1:])] for every
    record, keeping the maximum; a token whose tail is not a number
    raises. *)
Fixpoint latest_loop (vs : list VersionRecord) (latest : option nat)
    : result (option nat) :=
  match vs with
  | [] => Ok latest
  | v :: vs' =>
      match Py.int (Py.slice_from_1 (r_version v)) with
      | None => Raise ValueError
      | Some n =>
          latest_loop vs'
            (match latest with
             | None => Some n
             | Some l => if l <? n then Some n else Some l
             end)
      end
  end.

Definition get_latest_version (m : manifest) (subject_key : string)
    : result (option nat) :=
  match Dict.lookup subject_key (vols m) with
  | Some e => latest_loop (versions e) None
  | None => Ok None
  end.

(** The f-string ["v{n}"] for [n] an [int] or [None]. *)
Definition fmt_version (n : option nat) : string :=
  match n with
  | Some k => "v" +++ Py.str_nat k
  | None => "vNone"
  end.

(** [add_volume_version]: returns the flag and the manifest after the
    call. The entry of a new subject is created before the search. *)
Definition add_volume_version (m : manifest) (subject_key version : string)
    (author notes : string) (tags : option (list string))
    (ts last_updated : option string) : bool * manifest :=
  let tags := match tags with Some t => t | None => [] end in
  let m1 :=
    if Dict.has subject_key (vols m) then m
    else with_vols m
           (Dict.set subject_key (mkEntry (Some version) []) (vols m)) in
  let ts_val := Py.or_else ts now in
  let lu_val := Py.or_else last_updated now in
  let version_id := subject_key +++ "-" +++ version in
  let entry :=
    mkVersion version_id (hash_string (version_id +++ ts_val)) ts_val
              author notes tags version lu_val in
  match Dict.lookup subject_key (vols m1) with
  | Some e =>
      if existsb (fun v => r_version v == version) (versions e)
      then (false, m1)
      else (true,
            with_vols m1
              (Dict.set subject_key
                 (with_versions e (versions e ++ [entry])) (vols m1)))
  | None => (false, m1)   (* not reached: the key was just ensured *)
  end.

(** A keyword argument of a call to [add_volume_version]: one of the
    five optional parameters, or a name the function does not declare. *)
Inductive kwarg : Type :=
| KwAuthor (a : string)
| KwNotes (n : string)
| KwTags (t : list string)
| KwTs (t : string)
| KwLastUpdated (t : string)
| KwOther (name value : string).

Definition declared (k : kwarg) : bool :=
  match k with KwOther _ _ => false | _ => true end.

Definition kw_author (ks : list kwarg) : string :=
  fold_left (fun d k => match k with KwAuthor a => a | _ => d end) ks "".
Definition kw_notes (ks : list kwarg) : string :=
  fold_left (fun d k => match k with KwNotes a => a | _ => d end) ks "".
Definition kw_tags (ks : list kwarg) : option (list string) :=
  fold_left (fun d k => match k with KwTags t => Some t | _ => d end) ks None.
Definition kw_ts (ks : list kwarg) : option string :=
  fold_left (fun d k => match k with KwTs t => Some t | _ => d end) ks None.
Definition kw_last_updated (ks : list kwarg) : option string :=
  fold_left (fun d k => match k with KwLastUpdated t => Some t | _ => d end) ks None.

(** The call [add_volume_version(manifest, subject_key, version, **ks)].
    Python binds the arguments before it runs the body: a keyword that is
    not a parameter raises [TypeError] and the body does not run. *)
Definition call_add_volume_version (m : manifest) (subject_key version : string)
    (ks : list kwarg) : result (bool * manifest) :=
  if forallb declared ks
  then Ok (add_volume_version m subject_key version
             (kw_author ks) (kw_notes ks) (kw_tags ks)
             (kw_ts ks) (kw_last_updated ks))
  else Raise TypeError.

Definition remove_volume (m : manifest) (subject_key : string) : manifest :=
  if Dict.has subject_key (vols m)
  then with_vols m (Dict.del subject_key (vols m))
  else m.

(** [remove_volume_version]: the log line ([None] for the empty string)
    and the manifest after the call.  The test [if versions:] reads the
    list as it was before the removal. *)
Definition remove_volume_version (m : manifest) (subject_key version : string)
    : result (option msg * manifest) :=
  match Dict.lookup subject_key (vols m) with
  | None => Ok (None, m)
  | Some e =>
      let old_versions := versions e in
      let kept := filter (fun v => negb (r_version v == version)) old_versions in
      let m1 := with_vols m
                  (Dict.set subject_key (with_versions e kept) (vols m)) in
      '(log, m2) <-
        (if match get_selected_version m1 subject_key with
            | Some s => s == version
            | None => false
            end
         then
           match old_versions with
           | _ :: _ =>
               latest <- get_latest_version m1 subject_key ;;
               let latest_version := fmt_version latest in
               Ok (Some (SelectionUpdated subject_key latest_version),
                   set_selected_version m1 subject_key (Some latest_version))
           | [] =>
               Ok (Some (SelectionCleared subject_key),
                   set_selected_version m1 subject_key None)
           end
         else Ok (None, m1)) ;;
      match get_all_versions m2 subject_key with
      | [] => Ok (log, with_vols m2 (Dict.del subject_key (vols m2)))
      | _ :: _ => Ok (log, m2)
      end
  end.

(** [get_volume_seg_tuples]: one triple per subject whose selection is
    truthy, in dictionary order. *)
Definition get_volume_seg_tuples (m : manifest) (root_dir : string)
    : list (string * string * string) :=
  flat_map
    (fun subject_key =>
       match get_selected_version m subject_key with
       | Some sel =>
           if Py.truthy (Some sel) then
             [(subject_key,
               Py.path_join root_dir
                 [volume_path m; subject_key +++ volume_extension m],
               Py.path_join root_dir
                 [label_path m; subject_key +++ "-" +++ sel +++ label_extension m])]
           else []
       | None => []
       end)
    (Dict.keys (vols m)).

End WithEnvironment.
End Manifest.

(* ------------------------------------------------------------------ *)
(** ** commons.py *)

(** What the program sees of a directory: whether [os.path.isdir] holds and
    the file names [os.walk] yields, in its order. *)
Record directory : Type := mkDir {
  is_dir : bool;
  walk : list string
}.

Module Commons.

Definition newline : string := String (ascii_of_nat 10) "".

(** [extract_version_number]: [re.match] of [^<vol_name>-v(\d+)$] on
    [seg_base], then [int] of the group.  The volume name is escaped, so
    it is matched literally; [\d] is a digit 0 to 9, its meaning on ASCII
    text; [$] matches at the end of the string and also just before a
    line feed that ends it. *)
Definition extract_version_number (seg_base vol_name : string) : option nat :=
  let p := vol_name +++ "-v" in
  if Py.startswith seg_base p then
    let rest :=
      substring (String.length p) (String.length seg_base - String.length p)
                seg_base in
    let digits :=
      if Py.endswith rest newline then Py.slice_to_neg 1 rest else rest in
    if Py.isdigit digits then Py.int digits else None
  else None.

(** [search_files_in]: the names that end with the extension, with the
    extension cut off, and their count (the paths it also returns are not
    read by its callers). *)
Definition search_files_in (d : directory) (extension : string)
    : list string * nat :=
  let names :=
    map (Py.slice_to_neg (String.length extension))
        (filter (fun fname => Py.endswith fname extension) (walk d)) in
  (names, List.length names).

(** Stable insertion sort on a numeric key, the order [list.sort(key=...)]
    produces. *)
Fixpoint insert_by_key (x : nat * VersionRecord) (l : list (nat * VersionRecord))
    : list (nat * VersionRecord) :=
  match l with
  | [] => [x]
  | y :: l' => if fst x <? fst y then x :: l else y :: insert_by_key x l'
  end.

Definition sort_by_key (l : list (nat * VersionRecord)) : list (nat * VersionRecord) :=
  fold_left (fun acc x => insert_by_key x acc) l [].

(** The keys [int(x["version"][1:])] of the sort, computed once per
    element as [list.sort] does. *)
Fixpoint with_keys (l : list VersionRecord) : result (list (nat * VersionRecord)) :=
  match l with
  | [] => Ok []
  | r :: l' =>
      match Py.int (Py.slice_from_1 (r_version r)) with
      | None => Raise ValueError
      | Some n => rest <- with_keys l' ;; Ok ((n, r) :: rest)
      end
  end.

Definition sort_versions (l : list VersionRecord) : result (list VersionRecord) :=
  kl <- with_keys l ;; Ok (map snd (sort_by_key kl)).

Definition all_ids (d : volumes) : list string :=
  flat_map (fun p => map r_id (versions (snd p))) d.

Section WithEnvironment.

Variable now : string.
(** [hash_image]: the content fingerprint of the file at a path. *)
Variable hash_image : string -> string.
(** The order in which a set with the given elements is iterated. *)
Variable set_order : list string -> list string.

(** [find_outliers]. *)
Definition find_outliers (reference_list target_list : list string)
    (volumes_index : volumes) : list string * list string :=
  (set_order (Py.set_diff reference_list (Dict.keys volumes_index)),
   set_order (Py.set_diff target_list (all_ids volumes_index))).

(** The candidate records of one volume, in the order of the
    segmentation names. *)
Definition candidates (segmentations_path sext vol_name : string)
    (tar_fnames : list string) : list VersionRecord :=
  flat_map
    (fun seg_base =>
       if negb (Py.startswith seg_base (vol_name +++ "-v")) then []
       else match extract_version_number seg_base vol_name with
            | None => []
            | Some ver_num =>
                [mkVersion seg_base
                   (hash_image (Py.join2 segmentations_path (seg_base +++ sext)))
                   now "" "" [] ("v" +++ Py.str_nat ver_num) now]
            end)
    tar_fnames.

(** The MATCHES loop over [set(ref_fnames)]. *)
Fixpoint match_loop (segmentations_path sext : string) (tar_fnames : list string)
    (vol_names : list string) (volumes_index : volumes) : result volumes :=
  match vol_names with
  | [] => Ok volumes_index
  | vol_name :: rest =>
      match candidates segmentations_path sext vol_name tar_fnames with
      | [] => match_loop segmentations_path sext tar_fnames rest volumes_index
      | c :: cs =>
          sorted <- sort_versions (c :: cs) ;;
          match_loop segmentations_path sext tar_fnames rest
            (Dict.set vol_name
               (mkEntry (Some (r_version (last sorted c))) sorted)
               volumes_index)
      end
  end.

(** [verify_volseg_match]: log, warnings, errors and the volumes index. *)
Definition verify_volseg_match
    (volumes_path vext segmentations_path sext : string)
    (vol_dir seg_dir : directory)
    : result (list msg * list msg * list msg * volumes) :=
  let '(ref_fnames, ref_count) :=
    if is_dir vol_dir then search_files_in vol_dir vext else ([], 0) in
  let '(log1, err1) :=
    if is_dir vol_dir then
      if ref_count =? 0 then ([], [DirHasNoFile volumes_path vext])
      else ([VolumesFound ref_count volumes_path], [])
    else ([], [DirMissing volumes_path]) in
  let '(tar_fnames, tar_count) :=
    if is_dir seg_dir then search_files_in seg_dir sext else ([], 0) in
  let '(log2, err2) :=
    if is_dir seg_dir then
      if tar_count =? 0 then ([], [DirHasNoFile segmentations_path sext])
      else ([SegmentationsFound tar_count segmentations_path], [])
    else ([], [DirMissing segmentations_path]) in
  volumes_index <-
    match_loop segmentations_path sext tar_fnames (set_order ref_fnames) [] ;;
  let warnings :=
    if (0 <? ref_count) && (0 <? tar_count) then
      let '(only_in_reference, only_in_target) :=
        find_outliers ref_fnames tar_fnames volumes_index in
      (match only_in_reference with
       | [] => []
       | _ :: _ => [VolumesWithoutSegmentation only_in_reference]
       end)
      ++
      (match only_in_target with
       | [] => []
       | _ :: _ => [SegmentationsWithoutVolume only_in_target]
       end)
    else [] in
  Ok (log1 ++ log2, warnings, err1 ++ err2, volumes_index).

(** *** update_index *)

(** The dictionary [{"volumes": matches}] the update command passes as
    [new_manifest]: it has no other key, and [update_index] reads no
    other. *)
Definition only_volumes (matches : volumes) : manifest :=
  mkManifest "" "" "" "" "" matches.

(** The ids held by a manifest, as the two nested loops collect them. *)
Definition seg_ids (m : manifest) : list string :=
  flat_map (fun k => map r_id (Manifest.get_all_versions m k))
           (Dict.keys (vols m)).

(** [manifest["volumes"][subject_key]["versions"].append(version)]. *)
Definition append_version (m : manifest) (subject_key : string)
    (version : VersionRecord) : manifest :=
  match Dict.lookup subject_key (vols m) with
  | Some e =>
      with_vols m
        (Dict.set subject_key (with_versions e (versions e ++ [version])) (vols m))
  | None => m
  end.

(** One iteration of the merge loop, for [(subject_key, new_vol_data)].
    [existing_versions] is read once, before the inner loop.  The entry
    stored for a new subject is the index's own object; [new_manifest] is
    not read again after this loop, so the sharing does not show in the
    result. *)
Definition merge_step (st : manifest * list msg) (item : string * VolumeEntry)
    : manifest * list msg :=
  let '(m, log) := st in
  let '(subject_key, new_vol_data) := item in
  if negb (Dict.has subject_key (vols m)) then
    (with_vols m (Dict.set subject_key new_vol_data (vols m)),
     log ++ [AddedVolume subject_key]
         ++ map (fun v => AddedVersion (r_version v) subject_key)
                (versions new_vol_data))
  else
    let existing_versions := Manifest.get_all_version_strings m subject_key in
    fold_left
      (fun st' version =>
         if negb (Py.mem (r_version version) existing_versions)
         then (append_version (fst st') subject_key version,
               snd st' ++ [AddedVersion (r_version version) subject_key])
         else st')
      (versions new_vol_data) (m, log).

Definition merge_loop (m new_manifest : manifest) (log : list msg)
    : manifest * list msg :=
  fold_left merge_step (vols new_manifest) (m, log).

(** The loop over [removed_volumes]. *)
Definition remove_volumes_loop (removed : list string) (m : manifest) (log : list msg)
    : manifest * list msg :=
  fold_left
    (fun st subject_key =>
       (Manifest.remove_volume (fst st) subject_key,
        snd st ++ [RemovedVolume subject_key]))
    removed (m, log).

(** The inner loop of the removed-segmentations pass, over the items of
    the dictionary as it was when the loop started.  The body runs for
    every subject; when it deletes an entry the dictionary has changed
    size and the iterator raises on its next step. *)
Fixpoint remove_seg_inner (seg_id : string) (subjects : list string)
    (m : manifest) (log : list msg) : result (manifest * list msg) :=
  match subjects with
  | [] => Ok (m, log)
  | subject_key :: rest =>
      let version := extract_version_number seg_id subject_key in
      '(l, m') <- Manifest.remove_volume_version m subject_key
                    (Manifest.fmt_version version) ;;
      let log' :=
        log ++ [RemovedVersion seg_id subject_key]
            ++ match l with Some line => [line] | None => [] end in
      if List.length (vols m') =? List.length (vols m)
      then remove_seg_inner seg_id rest m' log'
      else Raise RuntimeError
  end.

Fixpoint remove_segs_loop (removed : list string) (m : manifest) (log : list msg)
    : result (manifest * list msg) :=
  match removed with
  | [] => Ok (m, log)
  | seg_id :: rest =>
      '(m', log') <- remove_seg_inner seg_id (Dict.keys (vols m)) m log ;;
      remove_segs_loop rest m' log'
  end.

(** [update_index(manifest, new_manifest)]: log, warnings, errors and
    the manifest. *)
Definition update_index (m new_manifest : manifest)
    : result (list msg * list msg * list msg * manifest) :=
  let volume_set := Dict.keys (vols m) in
  let new_volume_set := Dict.keys (vols new_manifest) in
  let seg_set := seg_ids m in
  let new_seg_set := seg_ids new_manifest in
  let '(m1, log1) := merge_loop m new_manifest [] in
  let removed_volumes := set_order (Py.set_diff volume_set new_volume_set) in
  let '(m2, log2) := remove_volumes_loop removed_volumes m1 log1 in
  let removed_segs := set_order (Py.set_diff seg_set new_seg_set) in
  '(m3, log3) <- remove_segs_loop removed_segs m2 log2 ;;
  Ok (log3, [], [], m3).

(** [validate_csv_path].  [full_path] is
    [os.path.abspath(os.path.expanduser(file_path))], which depends on the
    process; [isdir] is the file system's answer. *)
Definition validate_csv_path (isdir : string -> bool) (full_path : string)
    : list string :=
  let directory := Py.dirname full_path in
  let filename := Py.basename full_path in
  (if negb (isdir directory)
   then ["Directory does not exist: " +++ directory] else [])
  ++
  (if negb (Py.endswith (Py.lower filename) ".csv")
   then ["File does not have a .csv extension: " +++ filename] else []).

End WithEnvironment.
End Commons.

(* ------------------------------------------------------------------ *)
(** ** koms_service.py *)

(** A Python value that is a string or a list of strings, for the
    comparisons the program makes between the two. *)
Inductive pyval : Type :=
| PStr (s : string)
| PList (l : list string).

(** Python's [==] on these values: values of different types are unequal. *)
Definition py_eq (a b : pyval) : bool :=
  match a, b with
  | PStr x, PStr y => x == y
  | PList x, PList y => if list_eq_dec string_dec x y then true else false
  | _, _ => false
  end.

Module KomsService.
Section WithEnvironment.

Variable now : string.
Variable hash_string : string -> string.
Variable hash_image : string -> string.
Variable set_order : list string -> list string.
(** [self._segver_directory] and [self._active_index]. *)
Variable segver_directory : string.
Variable active_index : string.

(** The methods below take [self._manifest] and return it as they leave
    it; [save_manifest] writes that same value to the index file. *)

Definition get_paths_and_exts (m : manifest) : string * string * string * string :=
  (Py.join2 segver_directory (volume_path m), volume_extension m,
   Py.join2 segver_directory (label_path m), label_extension m).

Definition update_index (m new_manifest : manifest)
    : result (list msg * list msg * list msg * manifest) :=
  Commons.update_index set_order m new_manifest.

(** [export_index].  [isdir] and [writable] are the file system's
    answers, [full_path] the absolute form of [output_csv_path].  The
    result is the log and the lines written to the file. *)
Definition export_index (isdir : string -> bool) (writable : bool)
    (output_csv_path full_path : string) (m : manifest)
    : result (list msg * list string) :=
  match Commons.validate_csv_path isdir full_path with
  | e :: _ => Raise (SegVerException e)
  | [] =>
      let volume_seg_tuples := Manifest.get_volume_seg_tuples m segver_directory in
      match volume_seg_tuples with
      | [] => Raise (SegVerException "No volumes found in the current index.")
      | _ :: _ =>
          if writable then
            Ok ([Exporting (List.length volume_seg_tuples) active_index;
                 ExportedTo output_csv_path],
                ("VOLUME FILE,SEGMENTATION FILE" +++ Commons.newline)
                :: map (fun t : string * string * string =>
                          let '(_, vfname, sfname) := t in
                          Py.rstrip vfname +++ "," +++ Py.rstrip sfname
                            +++ Commons.newline)
                       volume_seg_tuples)
          else Raise (SegVerException ("Could not write to " +++ output_csv_path))
      end
  end.

(** The version number [link_segmentation] assigns: the one in the
    segmentation's name when it matches the volume, else one more than
    the latest in the manifest, else 1. *)
Definition derive_version (m : manifest) (seg_base vol_base : string) : result nat :=
  match Commons.extract_version_number seg_base vol_base with
  | Some version => Ok version
  | None =>
      latest <- Manifest.get_latest_version m vol_base ;;
      Ok (match latest with None => 1 | Some l => l + 1 end)
  end.

(** [os.rename(src, dst)] on the set of existing files. *)
Definition rename (files : list string) (src dst : string) : list string :=
  dst :: filter (fun f => negb (f == src)) files.

(** [link_segmentation].  [files] are the regular files that exist,
    [geometry_ok] the outcome of [check_geometry], [rename_ok] whether
    [os.rename] succeeds.  The result carries the files as the call
    leaves them. *)
Definition link_segmentation (files : list string)
    (geometry_ok : string -> string -> bool) (rename_ok : bool)
    (m : manifest) (volume_fname seg_fname : string)
    : result (list msg * list msg * list msg * manifest * list string) :=
  let '(volumes_path, vext, segmentations_path, sext) := get_paths_and_exts m in
  let errors1 :=
    (if negb (Py.endswith volume_fname vext)
     then [VolumeExtMismatch vext volume_fname] else [])
    ++ (if negb (Py.endswith seg_fname sext)
        then [SegExtMismatch sext seg_fname] else []) in
  match errors1 with
  | _ :: _ => Ok ([], [], errors1, m, files)
  | [] =>
  let volume_path := Py.join2 volumes_path volume_fname in
  let seg_path := Py.join2 segmentations_path seg_fname in
  let errors2 :=
    (if negb (Py.mem volume_path files) then [VolumeFileMissing volume_path] else [])
    ++ (if negb (Py.mem seg_path files) then [SegFileMissing seg_path] else []) in
  match errors2 with
  | _ :: _ => Ok ([], [], errors2, m, files)
  | [] =>
  let vol_base := Py.slice_to_neg (String.length vext) volume_fname in
  let seg_base := Py.slice_to_neg (String.length sext) seg_fname in
  if negb (geometry_ok volume_path seg_path) then Raise ImageDataMatchingError
  else
  version <- derive_version m seg_base vol_base ;;
  let target_seg_path :=
    Py.join2 segmentations_path (vol_base +++ "-v" +++ Py.str_nat version +++ sext) in
  let '(errors3, seg_path', files') :=
    if negb (target_seg_path == seg_path) then
      if Py.mem target_seg_path files
      then ([TargetExists target_seg_path], seg_path, files)
      else if rename_ok
           then ([], target_seg_path, rename files seg_path target_seg_path)
           else ([RenameFailed], seg_path, files)
    else ([], seg_path, files) in
  match errors3 with
  | _ :: _ => Ok ([], [], errors3, m, files')
  | [] =>
  '(added, m') <-
    Manifest.call_add_volume_version now hash_string m vol_base
      ("v" +++ Py.str_nat version) [Manifest.KwOther "hash" (hash_image seg_path')] ;;
  if added : bool
  then Ok ([EntryAdded; Attached volume_path seg_path' vol_base], [], [], m', files')
  else Ok ([], [AlreadyPresent vol_base], [], m', files')
  end end end.

(** [select_segmentation]; [isfile] is the file system's answer. *)
Definition select_segmentation (isfile : string -> bool) (m : manifest)
    (volume_fname seg_version : string)
    : result (list msg * list msg * list msg * manifest) :=
  let seg_version := Py.strip seg_version in
  if negb (Py.startswith seg_version "v")
     || negb (Py.isdigit (Py.slice_from_1 seg_version))
  then Ok ([], [], [BadVersionToken seg_version], m)
  else
  let '(volumes_path, vext, segmentations_path, sext) := get_paths_and_exts m in
  if negb (Py.endswith volume_fname vext)
  then Ok ([], [], [VolumeExtMismatch vext volume_fname], m)
  else
  let vol_base := Py.slice_to_neg (String.length vext) volume_fname in
  let expected_seg_fname := vol_base +++ "-" +++ seg_version +++ sext in
  if negb (Dict.has vol_base (vols m))
  then Ok ([], [], [VolumeNotInManifest vol_base], m)
  else
  let volume_path := Py.join2 volumes_path volume_fname in
  if negb (isfile volume_path)
  then Ok ([], [], [VolumeFileMissing volume_path; VolumeRemoved vol_base],
           Manifest.remove_volume m vol_base)
  else
  let seg_path := Py.join2 segmentations_path expected_seg_fname in
  let old_selected := Manifest.get_selected_version m vol_base in
  let manifest_versions := Manifest.get_all_version_strings m vol_base in
  if negb (Py.mem seg_version manifest_versions)
  then Ok ([], [NoChanges],
           [VersionNotInManifest seg_version vol_base;
            PleaseSelectFrom manifest_versions], m)
  else
  if negb (isfile seg_path) then
    '(_, m') <- Manifest.remove_volume_version m vol_base seg_version ;;
    let manifest_versions := Manifest.get_all_version_strings m' vol_base in
    if match old_selected with Some s => s == seg_version | None => false end
    then
      latest <- Manifest.get_latest_version m' vol_base ;;
      Ok ([], [PleaseSelectFrom manifest_versions;
               DefaultingTo (Manifest.fmt_version latest)],
          [SegFileMissing expected_seg_fname; VersionRemoved seg_version vol_base],
          m')
    else
      Ok ([], [PleaseSelectFrom manifest_versions; NoChanges],
          [SegFileMissing expected_seg_fname; VersionRemoved seg_version vol_base],
          m')
  else
  let m' := Manifest.set_selected_version m vol_base (Some seg_version) in
  if match old_selected with Some s => s == seg_version | None => false end
  then Ok ([], [AlreadySelected seg_version vol_base], [], m')
  else Ok ([SelectionChanged vol_base seg_version], [], [], m').

(** The body of the loop of [update_segmentation_metadata] at the record
    whose version matches: the log lines and the record as it is left.
    [seg_tags] is the string the caller passes; the stored tags are a
    list. *)
Definition update_record (vol_base seg_version seg_author seg_notes seg_tags : string)
    (v : VersionRecord) : list msg * VersionRecord :=
  let '(log1, author', changed1) :=
    if negb (seg_author == "") && negb (seg_author == r_author v)
    then ([OldAuthor (r_author v); NewAuthor seg_author], seg_author, true)
    else ([AuthorUnchanged (r_author v)], r_author v, false) in
  let '(log2, notes', changed2) :=
    if negb (seg_notes == "") && negb (seg_notes == r_notes v)
    then ([OldNotes (r_notes v); NewNotes seg_notes], seg_notes, true)
    else ([NotesUnchanged (r_notes v)], r_notes v, changed1) in
  let '(log3, tags', changed3) :=
    if negb (py_eq (PStr seg_tags) (PStr ""))
       && negb (py_eq (PStr seg_tags) (PList (r_tags v)))
    then
      let new_tags := map Py.strip (Py.split_on ","%char seg_tags) in
      ([OldTags (r_tags v); NewTags new_tags], new_tags, true)
    else ([TagsUnchanged (r_tags v)], r_tags v, changed2) in
  if negb changed3
  then (log1 ++ log2 ++ log3 ++ [NoMetadataChange vol_base seg_version],
        mkVersion (r_id v) (r_hash v) (r_ts v) author' notes' tags'
                  (r_version v) (r_last_updated v))
  else (log1 ++ log2 ++ log3 ++ [LastUpdated now],
        mkVersion (r_id v) (r_hash v) (r_ts v) author' notes' tags'
                  (r_version v) now).

(** The loop over the versions: the first record with the version is
    updated in place and the loop stops. *)
Fixpoint update_first (vol_base seg_version seg_author seg_notes seg_tags : string)
    (vs : list VersionRecord) : option (list msg * list VersionRecord) :=
  match vs with
  | [] => None
  | v :: vs' =>
      if r_version v == seg_version then
        let '(log, v') :=
          update_record vol_base seg_version seg_author seg_notes seg_tags v in
        Some (log, v' :: vs')
      else
        match update_first vol_base seg_version seg_author seg_notes seg_tags vs' with
        | Some (log, vs'') => Some (log, v :: vs'')
        | None => None
        end
  end.

(** [update_segmentation_metadata]: log, warnings, errors, manifest. *)
Definition update_segmentation_metadata (m : manifest)
    (volume_fname seg_version seg_author seg_notes seg_tags : string)
    : list msg * list msg * list msg * manifest :=
  let vol_base :=
    Py.slice_to_neg (String.length (volume_extension m)) volume_fname in
  match Dict.lookup vol_base (vols m) with
  | None => ([], [], [VolumeNotInManifest vol_base], m)
  | Some e =>
      match update_first vol_base seg_version seg_author seg_notes seg_tags
              (versions e) with
      | None => ([], [], [VersionNotFound seg_version vol_base], m)
      | Some (log, versions') =>
          (log ++ [BlankLine; MetadataUpdated vol_base seg_version], [], [],
           with_vols m (Dict.set vol_base (with_versions e versions') (vols m)))
      end
  end.

(** [get_volseg_matches]; [vol_dir] and [seg_dir] are what the file
    system shows at the two paths of the manifest. *)
Definition get_volseg_matches (vol_dir seg_dir : directory) (m : manifest)
    : result (list msg * list msg * list msg * volumes) :=
  let '(volumes_path, vext, segmentations_path, sext) := get_paths_and_exts m in
  Commons.verify_volseg_match now hash_image set_order
    volumes_path vext segmentations_path sext vol_dir seg_dir.

(** The matcher's run in [initialize_instance] and [create_index], on the
    two directories joined to the instance directory. *)
Definition match_new_index (vol_dir seg_dir : directory)
    (volumes vext segmentations sext : string)
    : result (list msg * list msg * list msg * list (string * VolumeEntry)) :=
  let volumes_path := Py.join2 segver_directory volumes in
  let segmentations_path := Py.join2 segver_directory segmentations in
  Commons.verify_volseg_match now hash_image set_order
    volumes_path vext segmentations_path sext vol_dir seg_dir.

(** The manifest [initialize_instance] saves and [create_index] stores
    in [self._manifest]: the empty manifest with ["volumes"] set to the
    matcher's index. *)
Definition new_index_manifest (index_name volumes vext segmentations sext : string)
    (matches : list (string * VolumeEntry)) : manifest :=
  with_vols
    (Manifest.build_empty_manifest index_name volumes vext segmentations sext)
    matches.

End WithEnvironment.
End KomsService.

(* ------------------------------------------------------------------ *)
(** ** kernel.py *)

Module Kernel.

(** [SegVerTuple]; [index] is a Python [int], -1 by default. *)
Record SegVerTuple : Type := mkTuple {
  index : Z;
  name : string;
  abs_vol_fpath : string;
  abs_seg_fpath : string
}.

Definition default_tuple : SegVerTuple := mkTuple (-1) "None" "None" "None".

(** [SegVerTListManager]: the items and the running index. *)
Record SegVerTListManager : Type := mkManager {
  item : list SegVerTuple;
  cidx : Z
}.

Definition new_manager : SegVerTListManager := mkManager [] 0%Z.

Definition add (mgr : SegVerTListManager) (it : SegVerTuple) : SegVerTListManager :=
  mkManager (item mgr ++ [it]) (cidx mgr).

Definition add_with (mgr : SegVerTListManager)
    (a_name a_vol_file_path a_seg_file_path : string) : SegVerTListManager :=
  mkManager
    (item mgr ++ [mkTuple (cidx mgr) a_name a_vol_file_path a_seg_file_path])
    (cidx mgr + 1)%Z.

Definition get_vol_name_list (mgr : SegVerTListManager) : list string :=
  map name (item mgr).

(** [get_tuple]: [self.__item[index]]. *)
Definition get_tuple (mgr : SegVerTListManager) (i : Z) : option SegVerTuple :=
  Py.list_index (item mgr) i.

(** What [SegVerParser] reads of the configuration: the three options it
    looks up, [None] where the look-up raises. *)
Record config : Type := mkConfig {
  index_active : option string;
  summary_name : option string;
  summary_description : option string
}.

(** The fields of a [SegVerParser] that [__load] fills. *)
Record SegVerParser : Type := mkParser {
  p_name : string;
  p_description : string;
  p_volumes : list string;
  p_segmentations : list string;
  p_manager : SegVerTListManager
}.

Section WithEnvironment.

(** [os.path.exists]. *)
Variable path_exists : string -> bool.
(** [load_config], [None] when it raises. *)
Variable load_config : string -> option config.
(** [load_manifest(config_directory, index_name)]. *)
Variable load_manifest : string -> string -> result manifest.

(** One iteration of the loop of [__load]. *)
Definition load_step (p : SegVerParser) (vol_seg : string * string * string)
    : SegVerParser :=
  let '(subject_key, vol_file, seg_file) := vol_seg in
  mkParser (p_name p) (p_description p)
    (p_volumes p ++ [vol_file]) (p_segmentations p ++ [seg_file])
    (add_with (p_manager p) (Py.rstrip subject_key) vol_file seg_file).

(** [__load]: whatever raises inside the [try] is printed, and the parser
    stays as the statements before it left it. *)
Definition load (working_directory config_directory config_file : string)
    (p : SegVerParser) : SegVerParser :=
  match load_config config_file with
  | None => p
  | Some cfg =>
  match index_active cfg with
  | None => p
  | Some active_index =>
  match load_manifest config_directory active_index with
  | Raise _ => p
  | Ok m =>
  match summary_name cfg with
  | None => p
  | Some nm =>
  let p1 := mkParser nm (p_description p) (p_volumes p) (p_segmentations p)
                     (p_manager p) in
  match summary_description cfg with
  | None => p1
  | Some d =>
  let p2 := mkParser nm d (p_volumes p) (p_segmentations p) (p_manager p) in
  fold_left load_step (Manifest.get_volume_seg_tuples m working_directory) p2
  end end end end end.

(** The constructor of [SegVerParser]. *)
Definition new_parser (inputDirectoryPath : string) : result SegVerParser :=
  let working_directory := inputDirectoryPath in
  let config_directory := Py.join2 working_directory ".segverhandler" in
  let config_file := Py.join2 config_directory "config" in
  if negb (path_exists working_directory) then
    Raise (SegVerException
             "[SegVerParser] No segVerHandler instance found in this directory.")
  else if negb (path_exists config_file) then
    Raise (SegVerException
             "[SegVerParser] No segVerHandler configuration found in this directory.")
  else
    Ok (load working_directory config_directory config_file
             (mkParser "None" "None" [] [] new_manager)).

End WithEnvironment.

Definition get_volumes (p : SegVerParser) : list string := p_volumes p.
Definition get_segmentations (p : SegVerParser) : list string := p_segmentations p.
Definition get_SegVerTListManager (p : SegVerParser) : SegVerTListManager :=
  p_manager p.
Definition get_name_list (p : SegVerParser) : list string :=
  get_vol_name_list (p_manager p).

End Kernel.

(* ------------------------------------------------------------------ *)
(** ** quickviewer.py: the notification centre *)

Module NotificationCentre.
Section WithObservers.

(** Observers and callbacks are Python objects; the two functions are
    their [==]. *)
Variables observer callback : Type.
Variable observer_eqb : observer -> observer -> bool.
Variable callback_eqb : callback -> callback -> bool.

(** The [_observers] dictionary, in insertion order: for every
    notification name the list of [(observer, callback)] pairs. *)
Definition observers : Type := list (string * list (observer * callback)).

Fixpoint get (aName : string) (d : observers) : option (list (observer * callback)) :=
  match d with
  | [] => None
  | (k, l) :: d' => if aName == k then Some l else get aName d'
  end.

Fixpoint set (aName : string) (l : list (observer * callback)) (d : observers)
    : observers :=
  match d with
  | [] => [(aName, l)]
  | (k, l') :: d' =>
      if aName == k then (k, l) :: d' else (k, l') :: set aName l d'
  end.

(** [==] on the pairs. *)
Definition pair_eqb (p q : observer * callback) : bool :=
  observer_eqb (fst p) (fst q) && callback_eqb (snd p) (snd q).

Definition addObserver (d : observers) (obs : observer) (cb : callback)
    (aName : string) : observers :=
  let d1 := match get aName d with
            | Some _ => d
            | None => set aName [] d
            end in
  match get aName d1 with
  | Some l =>
      if existsb (pair_eqb (obs, cb)) l then d1
      else set aName (l ++ [(obs, cb)]) d1
  | None => d1   (* not reached: the name was just ensured *)
  end.

(** The pairs of a list that are not of the observer. *)
Definition without (obs : observer) (l : list (observer * callback))
    : list (observer * callback) :=
  filter (fun p => negb (observer_eqb (fst p) obs)) l.

(** [removeObserver]: a name that is [None] or empty is falsy, and the
    observer is then removed from every notification. *)
Definition removeObserver (d : observers) (obs : observer) (aName : option string)
    : observers :=
  match aName with
  | Some n =>
      if Py.truthy aName
      then set n (without obs (match get n d with Some l => l | None => [] end)) d
      else map (fun p => (fst p, without obs (snd p))) d
  | None => map (fun p => (fst p, without obs (snd p))) d
  end.

(** [postNotification]: the pairs whose callback is called, in the order
    of the calls.  A callback that raises is reported and the loop goes
    on; the callbacks are taken not to register or remove observers. *)
Definition postNotification (d : observers) (aName : string)
    : list (observer * callback) :=
  match get aName d with
  | Some l => l
  | None => []
  end.

(** The calls that change the registrations, and the registrations after
    a sequence of them on a new centre. *)
Inductive call : Type :=
| AddObserver (obs : observer) (cb : callback) (aName : string)
| RemoveObserver (obs : observer) (aName : option string).

Definition apply_call (d : observers) (c : call) : observers :=
  match c with
  | AddObserver obs cb aName => addObserver d obs cb aName
  | RemoveObserver obs aName => removeObserver d obs aName
  end.

Definition after (calls : list call) : observers :=
  fold_left apply_call calls [].

End WithObservers.
End NotificationCentre.

(* ------------------------------------------------------------------ *)
(** ** Vocabulary of the properties, and the states they are evaluated on *)

(** A version token as the program writes it: the f-string ["v{N}"] of a
    non-negative integer (invariant I1, syntax). *)
Definition canonical (token : string) : Prop :=
  exists n, token = "v" +++ Py.str_nat n.

(** The number the program reads back from a record's token. *)
Definition version_number (r : VersionRecord) : option nat :=
  Py.int (Py.slice_from_1 (r_version r)).

(** The version tokens of an entry, in the order of its records. *)
Definition tokens (e : VolumeEntry) : list string := map r_version (versions e).

(** Invariant I2 on one entry. *)
Definition I2 (e : VolumeEntry) : Prop :=
  match selected_version e with
  | None => True
  | Some s => In s (tokens e)
  end.

(** Every token of the entry is of the form vN. *)
Definition canonical_entry (e : VolumeEntry) : Prop :=
  Forall (fun r => canonical (r_version r)) (versions e).

(** A record as the file matcher or the add path would write it, with the
    fields that play no role here left empty. *)
Definition plain_record (subject_key version : string) : VersionRecord :=
  mkVersion (subject_key +++ "-" +++ version) "" "" "" "" [] version "".

Definition three_versions : manifest :=
  mkManifest "index" "volumes" ".nii" "labels" ".nii"
    [("A", mkEntry (Some "v3")
             [plain_record "A" "v1"; plain_record "A" "v2"; plain_record "A" "v3"])].

Definition one_version : manifest :=
  mkManifest "index" "volumes" ".nii" "labels" ".nii"
    [("A", mkEntry (Some "v2") [plain_record "A" "v2"])].

(** What the additions keep of the entry of [subject_key]: it stays, with
    the same selection and its records as a prefix. *)
Definition kept_by_additions (subject_key : string) (e : VolumeEntry) (m : manifest)
    : Prop :=
  exists e',
    Dict.lookup subject_key (vols m) = Some e' /\
    selected_version e' = selected_version e /\
    exists added, versions e' = versions e ++ added.

Definition selected_v1 : manifest :=
  mkManifest "index" "volumes" ".nii" "labels" ".nii"
    [("A", mkEntry (Some "v1") [plain_record "A" "v1"])].

Definition found_v1_v2 : manifest :=
  Commons.only_volumes
    [("A", mkEntry (Some "v2") [plain_record "A" "v1"; plain_record "A" "v2"])].

(** An entry of the data model: I2 and tokens of the form vN. *)
Definition entry_ok (e : VolumeEntry) : Prop := I2 e /\ canonical_entry e.

(** Every entry of the dictionary, that is every value under a key,
    satisfies I2 and holds tokens of the form vN. *)
Definition manifest_ok (m : manifest) : Prop :=
  forall k e, Dict.lookup k (vols m) = Some e -> entry_ok e.

(** The operations on a manifest, with their arguments: the add path,
    reconciliation against a new index, the two removals, and the selection
    of a version (with the file system's answers at that moment). *)
Inductive operation : Type :=
| Add (subject_key version author notes : string) (tags : option (list string))
      (ts last_updated : option string)
| Reconcile (new_manifest : manifest)
| RemoveVolume (subject_key : string)
| RemoveVersion (subject_key version : string)
| Select (isfile : string -> bool) (volume_fname seg_version : string).

(** What is given to an operation is of the data model: an added token is
    of the form vN, and the entries of a new index satisfy I2 with such
    tokens (the file matcher's do, see [verify_volseg_match_index_ok]). *)
Definition well_formed (o : operation) : Prop :=
  match o with
  | Add _ version _ _ _ _ _ => canonical version
  | Reconcile new_manifest => Forall (fun p => entry_ok (snd p)) (vols new_manifest)
  | _ => True
  end.

Definition apply_operation (now : string) (hash_string : string -> string)
    (set_order : list string -> list string) (segver_directory : string)
    (o : operation) (m : manifest) : result manifest :=
  match o with
  | Add subject_key version author notes tags ts last_updated =>
      Ok (snd (Manifest.add_volume_version now hash_string m subject_key version
                 author notes tags ts last_updated))
  | Reconcile new_manifest =>
      '(_, _, _, m') <- Commons.update_index set_order m new_manifest ;; Ok m'
  | RemoveVolume subject_key => Ok (Manifest.remove_volume m subject_key)
  | RemoveVersion subject_key version =>
      '(_, m') <- Manifest.remove_volume_version m subject_key version ;; Ok m'
  | Select isfile volume_fname seg_version =>
      '(_, _, _, m') <-
        KomsService.select_segmentation segver_directory isfile m
          volume_fname seg_version ;;
      Ok m'
  end.

Fixpoint run (now : string) (hash_string : string -> string)
    (set_order : list string -> list string) (segver_directory : string)
    (ops : list operation) (m : manifest) : result manifest :=
  match ops with
  | [] => Ok m
  | o :: ops' =>
      m' <- apply_operation now hash_string set_order segver_directory o m ;;
      run now hash_string set_order segver_directory ops' m'
  end.

Definition empty_index : manifest :=
  Manifest.build_empty_manifest "index" "volumes" ".nii" "labels" ".nii".

(** A session: two versions are added, the second is selected, then its
    file is found missing at the next selection, and an update finds v1 and
    v3 on disk. *)
Definition session : list operation :=
  [Add "A" "v1" "" "" None None None;
   Add "A" "v2" "" "" None None None;
   Select (fun _ => true) "A.nii" "v2";
   Select (fun p => negb (p == "/data/labels/A-v2.nii")) "A.nii" " v2 ";
   Reconcile
     (Commons.only_volumes
        [("A", mkEntry (Some "v3") [plain_record "A" "v1"; plain_record "A" "v3"])])].

Definition after_session : manifest :=
  mkManifest "index" "volumes" ".nii" "labels" ".nii"
    [("A", mkEntry (Some "v1")
             [mkVersion "A-v1" "A-v1now" "now" "" "" [] "v1" "now";
              plain_record "A" "v3"])].

Definition two_versions : manifest :=
  mkManifest "index" "volumes" ".nii" "labels" ".nii"
    [("A", mkEntry (Some "v2") [plain_record "A" "v1"; plain_record "A" "v2"])].

(** The versions v01 and v2 of volume A, v2 selected: the token v01 is not
    one the program formats, but [add_volume_version] stores it and
    [int] reads it as 1. *)
Definition leading_zero_versions : manifest :=
  mkManifest "index" "volumes" ".nii" "labels" ".nii"
    [("A", mkEntry (Some "v2") [plain_record "A" "v01"; plain_record "A" "v2"])].

(** A session that reaches such a manifest from the empty one and then
    removes the selected version. *)
Definition leading_zero_session : list operation :=
  [Add "A" "v01" "" "" None None None;
   Add "A" "v2" "" "" None None None;
   Select (fun _ => true) "A.nii" "v2";
   RemoveVersion "A" "v2"].

(** The volume A and the segmentations A-v01 and A-v2: [A-v1] has been
    renamed with a leading zero (or replaced by such a file). *)
Definition disk_volumes : directory := mkDir true ["A.nii"].
Definition disk_labels : directory := mkDir true ["A-v01.nii"; "A-v2.nii"].

Definition match_disk : result (list msg * list msg * list msg * volumes) :=
  Commons.verify_volseg_match "2025-06-01T00:00:00Z" (fun path => path)
    (nodup string_dec) "/data/volumes" ".nii" "/data/labels" ".nii"
    disk_volumes disk_labels.

Definition after_first_update : manifest :=
  mkManifest "index" "volumes" ".nii" "labels" ".nii"
    [("A", mkEntry (Some "v2") [plain_record "A" "v2"])].

Definition after_second_update : manifest :=
  mkManifest "index" "volumes" ".nii" "labels" ".nii"
    [("A", mkEntry (Some "v2")
             [plain_record "A" "v2";
              mkVersion "A-v01" "/data/labels/A-v01.nii" "2025-06-01T00:00:00Z"
                        "" "" [] "v1" "2025-06-01T00:00:00Z"])].

Definition two_subjects : manifest :=
  mkManifest "index" "volumes" ".nii" "labels" ".nii"
    [("A", mkEntry (Some "v2") [plain_record "A" "v1"; plain_record "A" "v2"]);
     ("B", mkEntry (Some "v1") [plain_record "B" "v1"])].

Definition found_without_A_v2 : manifest :=
  Commons.only_volumes
    [("A", mkEntry (Some "v1") [plain_record "A" "v1"]);
     ("B", mkEntry (Some "v1") [plain_record "B" "v1"])].

Definition found_without_B : manifest :=
  Commons.only_volumes
    [("A", mkEntry (Some "v2") [plain_record "A" "v1"; plain_record "A" "v2"])].

Definition tagged : manifest :=
  mkManifest "index" "volumes" ".nii" "labels" ".nii"
    [("A", mkEntry (Some "v1")
             [mkVersion "A-v1" "h" "2025-01-01T00:00:00Z" "ann" "first pass"
                        ["a"; "b"] "v1" "2025-01-01T00:00:00Z"])].

Definition linkable_files : list string :=
  ["/data/volumes/A.nii"; "/data/labels/scan.nii"].

(** A name is free of line feeds. *)
Definition no_line_feed (s : string) : bool :=
  Py.all_chars (fun c => negb (Ascii.eqb c (ascii_of_nat 10))) s.

(** A segmentation name is the volume name followed by [-v] and digits. *)
Definition names_version (seg_base vol_name : string) : Prop :=
  exists digits,
    Py.isdigit digits = true /\ seg_base = vol_name +++ "-v" +++ digits.

(** The order of the matcher's sort, on records paired with their key. *)
Definition key_le (a b : nat * VersionRecord) : Prop := fst a <= fst b.

(** The entry the matcher writes for a volume: its candidates, sorted by
    number, the last one selected. *)
Definition matched_entry (now : string) (hash_image : string -> string)
    (segmentations_path sext : string) (tar_fnames : list string)
    (vol_name : string) (e : VolumeEntry) : Prop :=
  versions e <> [] /\
  Permutation (versions e)
    (Commons.candidates now hash_image segmentations_path sext vol_name tar_fnames) /\
  (exists nums,
     map version_number (versions e) = map Some nums /\ Sorted le nums /\
     exists r, In r (versions e) /\
               selected_version e = Some (r_version r) /\
               version_number r = Some (last nums 0)).

(** The base names the matcher works on: those found in a directory, none
    when the path is not a directory. *)
Definition names_found (d : directory) (ext : string) : list string :=
  if is_dir d then fst (Commons.search_files_in d ext) else [].

(** The warnings built from the two lists of [find_outliers]. *)
Definition outlier_warnings (outliers : list string * list string) : list msg :=
  (match fst outliers with
   | [] => []
   | _ :: _ => [VolumesWithoutSegmentation (fst outliers)]
   end)
  ++
  (match snd outliers with
   | [] => []
   | _ :: _ => [SegmentationsWithoutVolume (snd outliers)]
   end).

Definition volumes_A_B : directory := mkDir true ["A.nii"; "B.nii"].
Definition labels_A_A_C : directory :=
  mkDir true ["A-v1.nii"; "A-v2.nii"; "C-v1.nii"].

Definition matched_record (now seg_base version : string) : VersionRecord :=
  mkVersion seg_base ("/data/labels/" +++ seg_base +++ ".nii") now "" "" []
            version now.

(** A segmentation file whose base name is A-v1 followed by a line feed. *)
Definition labels_line_feed : directory :=
  mkDir true ["A-v1" +++ Commons.newline +++ ".nii"].

Definition csv_header : string := "VOLUME FILE,SEGMENTATION FILE" +++ Commons.newline.

(** The rows as the specification words them: for every subject with a
    selection, the volume's file name and the selected segmentation's file
    name, bare. *)
Definition bare_filename_rows (m : manifest) : list string :=
  flat_map
    (fun p : string * VolumeEntry =>
       match selected_version (snd p) with
       | Some sel =>
           [fst p +++ volume_extension m +++ "," +++
            fst p +++ "-" +++ sel +++ label_extension m +++ Commons.newline]
       | None => []
       end)
    (vols m).

(** The rows the export writes: for every entry whose selection is present
    and not empty, the two paths below the instance directory. *)
Definition path_rows (segver_directory : string) (m : manifest) : list string :=
  flat_map
    (fun p : string * VolumeEntry =>
       match selected_version (snd p) with
       | Some sel =>
           if sel == "" then []
           else
             [Py.rstrip (Py.path_join segver_directory
                           [volume_path m; fst p +++ volume_extension m])
              +++ "," +++
              Py.rstrip (Py.path_join segver_directory
                           [label_path m;
                            fst p +++ "-" +++ sel +++ label_extension m])
              +++ Commons.newline]
       | None => []
       end)
    (vols m).

(** A record of subject [k] is named canonically: its token is of the form
    vN and its id is the subject, a dash and the token. *)
Definition record_named (k : string) (r : VersionRecord) : Prop :=
  canonical (r_version r) /\ r_id r = k +++ "-" +++ r_version r.

Definition named_entry (k : string) (e : VolumeEntry) : Prop :=
  Forall (record_named k) (versions e).

(** A manifest of the data model with canonical names: every entry
    satisfies I2 and holds canonically named records. *)
Definition manifest_named (m : manifest) : Prop :=
  forall k e, Dict.lookup k (vols m) = Some e -> entry_ok e /\ named_entry k e.

(** An index of the data model: distinct keys, and entries that are not
    empty (I3), satisfy I2 and hold canonically named records. *)
Definition index_named (new_manifest : manifest) : Prop :=
  NoDup (Dict.keys (vols new_manifest)) /\
  forall k e, In (k, e) (vols new_manifest) ->
    versions e <> [] /\ entry_ok e /\ named_entry k e.

(** The manifest agrees with an index: same subjects, every token of the
    index present for its subject, every id of the manifest in the index. *)
Definition agrees (m new_manifest : manifest) : Prop :=
  (forall k, In k (Dict.keys (vols new_manifest)) <-> In k (Dict.keys (vols m))) /\
  (forall k nd r,
     In (k, nd) (vols new_manifest) -> In r (versions nd) ->
     In (r_version r) (Manifest.get_all_version_strings m k)) /\
  (forall seg_id, In seg_id (Commons.seg_ids m) ->
                  In seg_id (Commons.seg_ids new_manifest)).

(** The entry of a subject after the merge loop, from its entry in the
    manifest and its entry in the index. *)
Definition merged_entry (old new : option VolumeEntry) : option VolumeEntry :=
  match old, new with
  | Some e, Some nd =>
      Some (with_versions e
              (versions e ++
               filter (fun v => negb (Py.mem (r_version v) (tokens e))) (versions nd)))
  | Some e, None => Some e
  | None, _ => new
  end.

(** The last character of a string, if any. *)
Fixpoint last_char (s : string) : option ascii :=
  match s with
  | EmptyString => None
  | String c EmptyString => Some c
  | String _ s' => last_char s'
  end.

(** The records of a subject after the merge, and after the whole
    reconciliation: of the merged records, those whose id is in the
    index. *)
Definition merged_versions (m new_manifest : manifest) (k : string)
    : list VersionRecord :=
  match merged_entry (Dict.lookup k (vols m)) (Dict.lookup k (vols new_manifest)) with
  | Some e => versions e
  | None => []
  end.

Definition reconciled_versions (m new_manifest : manifest) (k : string)
    : list VersionRecord :=
  filter (fun r => Py.mem (r_id r) (Commons.seg_ids new_manifest))
         (merged_versions m new_manifest k).

(** The segmentation names number their versions as the program prints
    numbers: a name that is a volume name, [-v] and digits has digits
    without leading zero. *)
Definition canonically_numbered (tar_fnames : list string) : Prop :=
  forall seg X digits,
    In seg tar_fnames -> seg = X +++ "-v" +++ digits ->
    Py.isdigit digits = true -> exists n, digits = Py.str_nat n.

(** What [lstrip] does on the characters of a string: the leading white
    space is dropped. *)
Fixpoint drop_spaces (l : list ascii) : list ascii :=
  match l with
  | [] => []
  | c :: l' => if Py.is_space c then drop_spaces l' else l
  end.

(* ================================================================== *)
(** * Properties *)

(** ** Dictionary lemmas *)

Lemma lookup_set_same k e d : Dict.lookup k (Dict.set k e d) = Some e.
Proof.
  induction d as [|[k' e'] d IH]; simpl.
  - now rewrite String.eqb_refl.
  - destruct (k == k') eqn:E; simpl; rewrite E; auto.
Qed.

Lemma lookup_set_other k k' e d :
  k' <> k -> Dict.lookup k' (Dict.set k e d) = Dict.lookup k' d.
Proof.
  intros Hne. induction d as [|[k0 e0] d IH]; simpl.
  - apply String.eqb_neq in Hne. now rewrite Hne.
  - destruct (k == k0) eqn:E; simpl.
    + apply String.eqb_eq in E; subst k0.
      apply String.eqb_neq in Hne. now rewrite Hne.
    + now rewrite IH.
Qed.

Lemma lookup_del_same k d : Dict.lookup k (Dict.del k d) = None.
Proof.
  unfold Dict.del. induction d as [|[k' e'] d IH]; simpl; auto.
  destruct (k == k') eqn:E; simpl; auto. now rewrite E.
Qed.

Lemma lookup_del_other k k' d :
  k' <> k -> Dict.lookup k' (Dict.del k d) = Dict.lookup k' d.
Proof.
  intros Hne. unfold Dict.del.
  induction d as [|[k0 e0] d IH]; simpl; auto.
  destruct (k == k0) eqn:E; simpl.
  - apply String.eqb_eq in E; subst k0.
    apply String.eqb_neq in Hne. now rewrite Hne.
  - now rewrite IH.
Qed.

Lemma has_true_iff k d : Dict.has k d = true <-> exists e, Dict.lookup k d = Some e.
Proof.
  unfold Dict.has. destruct (Dict.lookup k d); split; intros H; eauto;
    try discriminate. destruct H as [? H]; discriminate.
Qed.

Lemma has_false_iff k d : Dict.has k d = false <-> Dict.lookup k d = None.
Proof.
  unfold Dict.has. destruct (Dict.lookup k d); split; intros H; auto; discriminate.
Qed.

Lemma lookup_In k e d : Dict.lookup k d = Some e -> In (k, e) d.
Proof.
  induction d as [|[k' e'] d IH]; simpl; [discriminate|].
  destruct (k == k') eqn:E.
  - apply String.eqb_eq in E. intros [= ->]. subst. now left.
  - intros H. right. auto.
Qed.

Lemma In_set_inv p k e d : In p (Dict.set k e d) -> p = (k, e) \/ In p d.
Proof.
  induction d as [|[k' e'] d IH]; simpl.
  - intros [H|[]]; auto.
  - destruct (k == k') eqn:E; simpl.
    + apply String.eqb_eq in E; subst k'. intros [H|H]; auto.
    + intros [H|H]; auto. destruct (IH H); auto.
Qed.

(** ** Numbers and tokens *)

Lemma all_digits_string_of_uint u :
  Py.all_chars Py.is_digit (NilEmpty.string_of_uint u) = true.
Proof. induction u; simpl; auto. Qed.

Lemma to_uint_not_nil n : Nat.to_uint n <> Decimal.Nil.
Proof.
  intros H. pose proof (Unsigned.of_to n) as Hn. rewrite H in Hn.
  simpl in Hn. subst n. discriminate.
Qed.

Lemma isdigit_str_nat n : Py.isdigit (Py.str_nat n) = true.
Proof.
  unfold Py.isdigit, Py.str_nat.
  rewrite all_digits_string_of_uint, andb_true_r.
  destruct (Nat.to_uint n) eqn:E; try reflexivity.
  now apply to_uint_not_nil in E.
Qed.

Lemma int_str_nat n : Py.int (Py.str_nat n) = Some n.
Proof.
  unfold Py.int. rewrite isdigit_str_nat.
  unfold Py.str_nat. rewrite NilEmpty.usu. simpl.
  now rewrite Unsigned.of_to.
Qed.

Lemma str_nat_inj a b : Py.str_nat a = Py.str_nat b -> a = b.
Proof.
  intros H. apply (f_equal Py.int) in H. rewrite !int_str_nat in H. congruence.
Qed.

Lemma version_number_canonical r n :
  r_version r = "v" +++ Py.str_nat n -> version_number r = Some n.
Proof. intros H. unfold version_number. rewrite H. simpl. apply int_str_nat. Qed.

Lemma canonical_number r :
  canonical (r_version r) ->
  exists n, version_number r = Some n /\ r_version r = Manifest.fmt_version (Some n).
Proof.
  intros [n Hn]. exists n. split; [now apply version_number_canonical|exact Hn].
Qed.

(** The loop of [get_latest_version] on canonical tokens: it returns, and
    the result is the maximum of the start value and the numbers read. *)
Lemma latest_loop_canonical vs :
  Forall (fun r => canonical (r_version r)) vs ->
  forall acc, exists res,
    Manifest.latest_loop vs acc = Ok res /\
    (vs = [] -> res = acc) /\
    (res = None -> vs = [] /\ acc = None) /\
    (forall n, res = Some n ->
       (acc = Some n \/ exists r, In r vs /\ version_number r = Some n) /\
       (forall a, acc = Some a -> a <= n) /\
       (forall r k, In r vs -> version_number r = Some k -> k <= n)).
Proof.
  induction 1 as [|r vs Hr Hvs IH]; intros acc.
  - exists acc. simpl. repeat split; auto; try congruence.
    + intros a Ha. assert (a = n) by congruence. lia.
    + intros r k [].
  - destruct (canonical_number r Hr) as [k [Hk _]].
    simpl. unfold version_number in Hk. rewrite Hk.
    set (acc' := match acc with
                 | None => Some k
                 | Some l => if l <? k then Some k else Some l
                 end).
    destruct (IH acc') as [res [Hres [Hnil [Hnone Hsome]]]].
    exists res. split; [exact Hres|]. split; [discriminate|].
    split.
    + intros Hn. destruct (Hnone Hn) as [_ Hacc']. subst acc'.
      destruct acc as [l|]; [destruct (l <? k)|]; discriminate.
    + intros n Hn. destruct (Hsome n Hn) as [Hfrom [Hge Hall]].
      assert (Hk' : version_number r = Some k) by exact Hk.
      assert (Hacc : (acc' = Some k /\ (forall a, acc = Some a -> a <= k))
                     \/ (acc' = acc /\ exists l, acc = Some l /\ k <= l)).
      { subst acc'. destruct acc as [l|].
        - destruct (l <? k) eqn:E.
          + left. split; auto. intros a [= <-]. apply Nat.ltb_lt in E. lia.
          + right. split; auto. exists l. split; auto.
            apply Nat.ltb_ge in E. lia.
        - left. split; auto. discriminate. }
      repeat split.
      * destruct Hfrom as [Hfrom|[r' [Hin Hr']]].
        -- destruct Hacc as [[Ha _]|[Ha _]].
           ++ right. exists r. split; [now left|]. congruence.
           ++ left. congruence.
        -- right. exists r'. split; [now right|exact Hr'].
      * intros a Ha. destruct Hacc as [[Ha' Hle]|[Ha' [l [Hl Hle]]]].
        -- specialize (Hge k Ha'). specialize (Hle a Ha). lia.
        -- apply Hge. congruence.
      * intros r' k' [<-|Hin] Hk''.
        -- assert (k' = k) by congruence. subst k'.
           destruct Hacc as [[Ha' _]|[Ha' [l [Hl Hle]]]].
           ++ apply Hge. exact Ha'.
           ++ assert (l <= n) by (apply Hge; congruence). lia.
        -- eapply Hall; eauto.
Qed.

Lemma filter_canonical version vs :
  Forall (fun r => canonical (r_version r)) vs ->
  Forall (fun r => canonical (r_version r))
         (filter (fun v => negb (r_version v == version)) vs).
Proof.
  intros H. apply Forall_forall. intros r Hr. apply filter_In in Hr.
  rewrite Forall_forall in H. apply H. tauto.
Qed.

(** [remove_volume_version] on an entry with canonical tokens: the outcome
    in full. *)
Lemma remove_volume_version_entry m subject_key e version :
  Dict.lookup subject_key (vols m) = Some e ->
  canonical_entry e ->
  let kept := filter (fun v => negb (r_version v == version)) (versions e) in
  exists log m',
    Manifest.remove_volume_version m subject_key version = Ok (log, m') /\
    (forall k, k <> subject_key ->
       Dict.lookup k (vols m') = Dict.lookup k (vols m)) /\
    (kept = [] -> Dict.lookup subject_key (vols m') = None) /\
    (kept <> [] ->
       exists e',
         Dict.lookup subject_key (vols m') = Some e' /\
         versions e' = kept /\
         (selected_version e <> Some version ->
            selected_version e' = selected_version e /\ log = None) /\
         (selected_version e = Some version -> versions e <> [] ->
            exists r n,
              In r kept /\ selected_version e' = Some (r_version r) /\
              version_number r = Some n /\
              (forall r' n', In r' kept -> version_number r' = Some n' -> n' <= n) /\
              log = Some (SelectionUpdated subject_key (r_version r)))).
Proof.
  intros Hlook Hcan kept.
  unfold Manifest.remove_volume_version. rewrite Hlook. fold kept.
  set (m1 := with_vols m (Dict.set subject_key (with_versions e kept) (vols m))).
  assert (Hsel1 : Manifest.get_selected_version m1 subject_key = selected_version e).
  { unfold Manifest.get_selected_version, m1. simpl. now rewrite lookup_set_same. }
  assert (Hkeptcan : Forall (fun r => canonical (r_version r)) kept)
    by (apply filter_canonical; exact Hcan).
  rewrite Hsel1.
  destruct (match selected_version e with
            | Some s => s == version
            | None => false
            end) eqn:Hsel.
  - (* the removed token is the selected one *)
    destruct (selected_version e) as [s|] eqn:Hs; [|discriminate].
    apply String.eqb_eq in Hsel. subst s.
    destruct (versions e) as [|v0 vs0] eqn:Hvs.
    + (* no version at all: the selection is cleared, the entry deleted *)
      simpl. unfold Manifest.get_all_versions, Manifest.set_selected_version.
      unfold m1. simpl. rewrite lookup_set_same. simpl. rewrite lookup_set_same.
      simpl. subst kept. simpl.
      eexists _, _. split; [reflexivity|]. simpl.
      split; [|split].
      * intros k Hk. rewrite lookup_del_other by auto.
        now rewrite !lookup_set_other by auto.
      * intros _. apply lookup_del_same.
      * intros Hne. now destruct Hne.
    + unfold Manifest.get_latest_version.
      replace (Dict.lookup subject_key (vols m1)) with (Some (with_versions e kept))
        by (unfold m1; simpl; now rewrite lookup_set_same).
      simpl versions.
      destruct (latest_loop_canonical kept Hkeptcan None)
        as [res [Hres [Hnil [Hnone Hsome]]]].
      rewrite Hres. simpl bind.
      unfold Manifest.set_selected_version, Manifest.get_all_versions.
      replace (Dict.lookup subject_key (vols m1)) with (Some (with_versions e kept))
        by (unfold m1; simpl; now rewrite lookup_set_same).
      simpl. rewrite lookup_set_same. simpl.
      destruct kept as [|k0 ks] eqn:Hkept.
      * eexists _, _. split; [reflexivity|]. simpl. split; [|split].
        -- intros k Hk. rewrite lookup_del_other by auto.
           unfold m1. simpl. now rewrite !lookup_set_other by auto.
        -- intros _. apply lookup_del_same.
        -- intros Hne. now destruct Hne.
      * eexists _, _. split; [reflexivity|]. simpl. split; [|split].
        -- intros k Hk. unfold m1. simpl. now rewrite !lookup_set_other by auto.
        -- discriminate.
        -- intros _. rewrite lookup_set_same. eexists. split; [reflexivity|].
           simpl. split; [reflexivity|]. split.
           ++ intros Hne. now destruct Hne.
           ++ intros _ _.
              destruct res as [n|].
              ** destruct (Hsome n eq_refl) as [[Habs|[r [Hin Hr]]] [_ Hmax]];
                   [discriminate|].
                 exists r, n. split; [exact Hin|].
                 rewrite Forall_forall in Hkeptcan.
                 destruct (canonical_number r (Hkeptcan r Hin)) as [n' [Hn' Hfmt]].
                 assert (n' = n) by congruence. subst n'.
                 rewrite Hfmt. repeat split; auto.
              ** destruct (Hnone eq_refl) as [Habs _]. discriminate.
  - (* another token, or no selection *)
    simpl bind. unfold Manifest.get_all_versions.
    replace (Dict.lookup subject_key (vols m1)) with (Some (with_versions e kept))
      by (unfold m1; simpl; now rewrite lookup_set_same).
    simpl.
    assert (Hne : selected_version e <> Some version).
    { intros Heq. rewrite Heq in Hsel. now rewrite String.eqb_refl in Hsel. }
    destruct kept as [|k0 ks] eqn:Hkept.
    + eexists _, _. split; [reflexivity|]. simpl. split; [|split].
      * intros k Hk. rewrite lookup_del_other by auto.
        now rewrite lookup_set_other by auto.
      * intros _. apply lookup_del_same.
      * intros H. now destruct H.
    + eexists _, _. split; [reflexivity|]. split; [|split].
      * intros k Hk. unfold m1. simpl. now rewrite lookup_set_other by auto.
      * discriminate.
      * intros _. unfold m1. simpl. rewrite lookup_set_same.
        eexists. split; [reflexivity|]. simpl. split; [reflexivity|]. split.
        -- intros _. split; reflexivity.
        -- intros Heq. now destruct Hne.
Qed.

(** ** Version Selector: removal (spec 4.3, property "latest-selection on
    removal") *)

(** C3, as amended. [remove_volume_version] on a subject of the manifest and
    a token it holds, the tokens of the subject being of the form vN as the
    program formats them: it returns; the records with
    the token are removed and the others kept in order; when records
    remain, a selection other than the removed token is unchanged and a
    selection equal to it becomes the token of a remaining record whose
    number is the highest; when none remains the subject has no entry any
    more.  On versions v1, v2, v3 with v3 selected, removing v3 selects v2,
    and removing v2 and then v1 as well leaves no entry for the subject. *)
Theorem remove_volume_version_reselects_latest :
  (forall m subject_key e version,
     Dict.lookup subject_key (vols m) = Some e ->
     canonical_entry e ->
     In version (tokens e) ->
     let kept := filter (fun v => negb (r_version v == version)) (versions e) in
     exists log m',
       Manifest.remove_volume_version m subject_key version = Ok (log, m') /\
       ~ In version (map r_version kept) /\
       (kept = [] -> Dict.lookup subject_key (vols m') = None) /\
       (kept <> [] ->
          exists e',
            Dict.lookup subject_key (vols m') = Some e' /\
            versions e' = kept /\
            (selected_version e <> Some version ->
               selected_version e' = selected_version e) /\
            (selected_version e = Some version ->
               exists r n,
                 In r kept /\ selected_version e' = Some (r_version r) /\
                 version_number r = Some n /\
                 (forall r' n',
                    In r' kept -> version_number r' = Some n' -> n' <= n))))
  /\
  (exists l1 m1 l2 m2 l3 m3,
     Manifest.remove_volume_version three_versions "A" "v3" = Ok (l1, m1) /\
     Manifest.get_selected_version m1 "A" = Some "v2" /\
     Manifest.get_all_version_strings m1 "A" = ["v1"; "v2"] /\
     Manifest.remove_volume_version m1 "A" "v2" = Ok (l2, m2) /\
     Manifest.remove_volume_version m2 "A" "v1" = Ok (l3, m3) /\
     Dict.lookup "A" (vols m3) = None).
Proof.
  split.
  - intros m subject_key e version Hlook Hcan Hin kept.
    destruct (remove_volume_version_entry m subject_key e version Hlook Hcan)
      as [log [m' [Hrun [_ [Hnil Hsome]]]]].
    exists log, m'. split; [exact Hrun|]. split.
    + intros H. apply in_map_iff in H. destruct H as [r [Hr Hinr]].
      apply filter_In in Hinr. destruct Hinr as [_ Hneq].
      rewrite <- Hr, String.eqb_refl in Hneq. discriminate.
    + split; [exact Hnil|]. intros Hne.
      destruct (Hsome Hne) as [e' [He' [Hv [Hother Hsame]]]].
      exists e'. repeat split; auto.
      * intros H. now apply Hother.
      * intros Hsel.
        assert (Hnonempty : versions e <> []).
        { unfold tokens in Hin. destruct (versions e); [destruct Hin|discriminate]. }
        destruct (Hsame Hsel Hnonempty) as [r [n [H1 [H2 [H3 [H4 _]]]]]].
        exists r, n. auto.
  - do 6 eexists. repeat split; vm_compute; reflexivity.
Qed.

Lemma remove_volume_version_reselects_latest_witness :
  exists log m',
    Manifest.remove_volume_version three_versions "A" "v3" = Ok (log, m') /\
    exists e', Dict.lookup "A" (vols m') = Some e' /\
               selected_version e' <> None.
Proof.
  assert (Hlook : Dict.lookup "A" (vols three_versions)
                  = Some (mkEntry (Some "v3")
                            [plain_record "A" "v1"; plain_record "A" "v2";
                             plain_record "A" "v3"])) by reflexivity.
  assert (Hcan : canonical_entry
                   (mkEntry (Some "v3")
                      [plain_record "A" "v1"; plain_record "A" "v2";
                       plain_record "A" "v3"])).
  { repeat constructor; [exists 1|exists 2|exists 3]; reflexivity. }
  destruct (proj1 remove_volume_version_reselects_latest
              three_versions "A" _ "v3" Hlook Hcan)
    as [log [m' [Hrun [_ [_ Hsome]]]]].
  { simpl. auto. }
  exists log, m'. split; [exact Hrun|].
  destruct Hsome as [e' [He' [_ [_ Hsel]]]]; [discriminate|].
  exists e'. split; [exact He'|].
  destruct (Hsel eq_refl) as [r [n [_ [Hr _]]]]. rewrite Hr. discriminate.
Defined.

(** Without that form the selection is not re-set to a remaining version:
    on the versions v01 and v2 with v2 selected, removing v2 leaves the
    record of v01 and selects v1, the number of v01 printed again, which is
    the token of no record that remains. *)
Lemma remove_volume_version_selects_unheld_token :
  Manifest.remove_volume_version leading_zero_versions "A" "v2"
  = Ok (Some (SelectionUpdated "A" "v1"),
        with_vols leading_zero_versions
          [("A", mkEntry (Some "v1") [plain_record "A" "v01"])])
  /\ tokens (mkEntry (Some "v1") [plain_record "A" "v01"]) = ["v01"]
  /\ ~ (exists r,
          In r (versions (mkEntry (Some "v1") [plain_record "A" "v01"])) /\
          selected_version (mkEntry (Some "v1") [plain_record "A" "v01"])
          = Some (r_version r)).
Proof.
  split; [vm_compute; reflexivity|]. split; [reflexivity|].
  intros [r [[<-|[]] H]]. discriminate H.
Qed.

(** ** The add path (manifest.py, [add_volume_version]) *)

Section AddPath.
Variables (now : string) (hash_string : string -> string).

Let add := Manifest.add_volume_version now hash_string.

Lemma add_on_existing m subject_key version author notes tags ts last_updated e :
  Dict.lookup subject_key (vols m) = Some e ->
  add m subject_key version author notes tags ts last_updated
  = if existsb (fun v => r_version v == version) (versions e)
    then (false, m)
    else (true,
          with_vols m
            (Dict.set subject_key
               (with_versions e
                  (versions e ++
                   [mkVersion (subject_key +++ "-" +++ version)
                      (hash_string
                         ((subject_key +++ "-" +++ version) +++ Py.or_else ts now))
                      (Py.or_else ts now) author notes
                      (match tags with Some t => t | None => [] end)
                      version (Py.or_else last_updated now)]))
               (vols m))).
Proof.
  intros Hlook. unfold add, Manifest.add_volume_version, Dict.has.
  rewrite Hlook. rewrite Hlook. reflexivity.
Qed.

Lemma add_on_new m subject_key version author notes tags ts last_updated :
  Dict.lookup subject_key (vols m) = None ->
  add m subject_key version author notes tags ts last_updated
  = (true,
     with_vols m
       (Dict.set subject_key
          (mkEntry (Some version)
             [mkVersion (subject_key +++ "-" +++ version)
                (hash_string
                   ((subject_key +++ "-" +++ version) +++ Py.or_else ts now))
                (Py.or_else ts now) author notes
                (match tags with Some t => t | None => [] end)
                version (Py.or_else last_updated now)])
          (Dict.set subject_key (mkEntry (Some version) []) (vols m)))).
Proof.
  intros Hlook. unfold add, Manifest.add_volume_version, Dict.has.
  rewrite Hlook. simpl. rewrite lookup_set_same. reflexivity.
Qed.

Lemma existsb_token version vs :
  existsb (fun v => r_version v == version) vs = true
  <-> In version (map r_version vs).
Proof.
  rewrite existsb_exists, in_map_iff. split.
  - intros [v [Hin Heq]]. apply String.eqb_eq in Heq. eauto.
  - intros [v [Heq Hin]]. exists v. split; auto. now apply String.eqb_eq.
Qed.

(** After a call the subject has an entry and the entry holds the
    version. *)
Lemma add_result_holds_version m subject_key version author notes tags ts last_updated :
  exists e',
    Dict.lookup subject_key
      (vols (snd (add m subject_key version author notes tags ts last_updated)))
    = Some e'
    /\ In version (tokens e').
Proof.
  destruct (Dict.lookup subject_key (vols m)) as [e|] eqn:Hlook.
  - rewrite (add_on_existing _ _ _ _ _ _ _ _ e Hlook).
    destruct (existsb _ (versions e)) eqn:Hex; simpl.
    + exists e. split; auto. now apply existsb_token.
    + rewrite lookup_set_same. eexists. split; [reflexivity|].
      unfold tokens. simpl. rewrite map_app. apply in_or_app. right. now left.
  - rewrite add_on_new by exact Hlook. simpl. rewrite lookup_set_same.
    eexists. split; [reflexivity|]. now left.
Qed.

End AddPath.

(** C9. Duplicate-add guard: when the subject is in the manifest and
    already carries the version token, [add_volume_version] returns False
    and the manifest it leaves is the one it received, whatever the other
    arguments; and whatever the manifest, a second call with the same
    subject and token returns False and changes nothing, so adding a pair
    twice leaves the manifest that adding it once leaves. *)
Theorem add_volume_version_duplicate_is_noop :
  (forall now hash_string m subject_key version author notes tags ts last_updated e,
     Dict.lookup subject_key (vols m) = Some e ->
     In version (tokens e) ->
     Manifest.add_volume_version now hash_string m subject_key version
       author notes tags ts last_updated
     = (false, m))
  /\
  (forall now hash_string m subject_key version
          author notes tags ts last_updated
          author' notes' tags' ts' last_updated' now',
     let once :=
       snd (Manifest.add_volume_version now hash_string m subject_key version
              author notes tags ts last_updated) in
     Manifest.add_volume_version now' hash_string once subject_key version
       author' notes' tags' ts' last_updated'
     = (false, once)).
Proof.
  assert (Hfirst :
    forall now hash_string m subject_key version author notes tags ts last_updated e,
      Dict.lookup subject_key (vols m) = Some e ->
      In version (tokens e) ->
      Manifest.add_volume_version now hash_string m subject_key version
        author notes tags ts last_updated
      = (false, m)).
  { intros now hs m k v a n t ts lu e Hlook Hin.
    rewrite (add_on_existing now hs m k v a n t ts lu e Hlook).
    apply existsb_token in Hin. now rewrite Hin. }
  split; [exact Hfirst|].
  intros now hs m k v a n t ts lu a' n' t' ts' lu' now' once.
  destruct (add_result_holds_version now hs m k v a n t ts lu) as [e' [He' Hin]].
  fold once in He'. eapply Hfirst; eauto.
Qed.

Lemma add_volume_version_duplicate_is_noop_witness :
  Manifest.add_volume_version "2025-01-01T00:00:00Z" (fun s => s)
    one_version "A" "v2" "someone" "a note" (Some ["t"]) None None
  = (false, one_version).
Proof.
  apply (proj1 add_volume_version_duplicate_is_noop) with
    (e := mkEntry (Some "v2") [plain_record "A" "v2"]).
  - reflexivity.
  - simpl. auto.
Defined.

(** ** Frame of the additions on the selection *)

Section MergeFrame.
Variable subject_key : string.

Lemma kept_by_additions_refl e m :
  Dict.lookup subject_key (vols m) = Some e -> kept_by_additions subject_key e m.
Proof.
  intros H. exists e. repeat split; auto. exists []. now rewrite app_nil_r.
Qed.

Lemma append_version_kept e m k v :
  kept_by_additions subject_key e m -> kept_by_additions subject_key e (Commons.append_version m k v).
Proof.
  intros [e' [Hlook [Hsel [added Hvs]]]].
  unfold Commons.append_version.
  destruct (Dict.lookup k (vols m)) as [ek|] eqn:Hk.
  - destruct (String.eqb_spec subject_key k) as [<-|Hne].
    + rewrite Hlook in Hk. injection Hk as <-.
      eexists. simpl. rewrite lookup_set_same. split; [reflexivity|].
      simpl. split; [exact Hsel|]. exists (added ++ [v]).
      now rewrite Hvs, app_assoc.
    + exists e'. simpl. rewrite lookup_set_other by auto.
      repeat split; auto. now exists added.
  - exists e'. repeat split; auto. now exists added.
Qed.

Lemma merge_step_kept e st item :
  kept_by_additions subject_key e (fst st) ->
  kept_by_additions subject_key e (fst (Commons.merge_step st item)).
Proof.
  destruct st as [m log]. destruct item as [k nd]. simpl.
  intros Hk. destruct (Dict.has k (vols m)) eqn:Hhas; simpl.
  - set (ex := Manifest.get_all_version_strings m k). clearbody ex.
    change m with (fst (m, log)) in Hk. revert Hk. generalize (m, log).
    induction (versions nd) as [|v vs IH]; intros st0 H0; simpl; auto.
    apply IH. destruct (negb (Py.mem (r_version v) ex)); simpl; auto.
    now apply append_version_kept.
  - destruct Hk as [e' [Hlook [Hsel Hvs]]].
    assert (Hne : subject_key <> k).
    { intros ->. apply has_false_iff in Hhas. congruence. }
    exists e'. simpl. rewrite lookup_set_other by auto. auto.
Qed.

Lemma merge_loop_kept e m new_manifest log :
  kept_by_additions subject_key e m ->
  kept_by_additions subject_key e (fst (Commons.merge_loop m new_manifest log)).
Proof.
  unfold Commons.merge_loop.
  assert (Hgen : forall items st,
             kept_by_additions subject_key e (fst st) ->
             kept_by_additions subject_key e (fst (fold_left Commons.merge_step items st))).
  { induction items as [|it items IH]; intros st H; simpl; auto.
    apply IH. now apply merge_step_kept. }
  intros H. now apply Hgen.
Qed.

End MergeFrame.

(** C10. Adding never disturbs an existing selection.  For a subject that
    has an entry, [add_volume_version] leaves the entry's selection as it
    was (and its records as a prefix of the new list), whatever the token
    added; for a subject without entry it creates one whose selection is
    the added token.  The merge loop of [update_index] likewise leaves the
    selection of every subject that was in the manifest.  With v1 selected,
    adding v5 directly, or finding v2 on disk at the next update, leaves
    v1 selected. *)
Theorem additions_keep_selection :
  (forall now hash_string m subject_key version author notes tags ts last_updated e,
     Dict.lookup subject_key (vols m) = Some e ->
     exists e',
       Dict.lookup subject_key
         (vols (snd (Manifest.add_volume_version now hash_string m subject_key
                       version author notes tags ts last_updated)))
       = Some e' /\
       selected_version e' = selected_version e /\
       exists added, versions e' = versions e ++ added)
  /\
  (forall now hash_string m subject_key version author notes tags ts last_updated,
     Dict.lookup subject_key (vols m) = None ->
     exists e',
       Dict.lookup subject_key
         (vols (snd (Manifest.add_volume_version now hash_string m subject_key
                       version author notes tags ts last_updated)))
       = Some e' /\
       selected_version e' = Some version)
  /\
  (forall m new_manifest log subject_key e,
     Dict.lookup subject_key (vols m) = Some e ->
     exists e',
       Dict.lookup subject_key
         (vols (fst (Commons.merge_loop m new_manifest log))) = Some e' /\
       selected_version e' = selected_version e /\
       exists added, versions e' = versions e ++ added)
  /\
  (Manifest.get_selected_version
     (snd (Manifest.add_volume_version "now" (fun s => s) selected_v1 "A" "v5"
             "" "" None None None)) "A" = Some "v1"
   /\
   exists log m',
     Commons.update_index (nodup string_dec) selected_v1 found_v1_v2
     = Ok (log, [], [], m') /\
     Manifest.get_all_version_strings m' "A" = ["v1"; "v2"] /\
     Manifest.get_selected_version m' "A" = Some "v1").
Proof.
  split; [|split; [|split]].
  - intros now hs m k v a n t ts lu e Hlook.
    rewrite (add_on_existing now hs m k v a n t ts lu e Hlook).
    destruct (existsb _ (versions e)); simpl.
    + exists e. repeat split; auto. exists []. now rewrite app_nil_r.
    + rewrite lookup_set_same. eexists. split; [reflexivity|]. simpl.
      split; [reflexivity|]. eexists. reflexivity.
  - intros now hs m k v a n t ts lu Hlook.
    rewrite add_on_new by exact Hlook. simpl. rewrite lookup_set_same.
    eexists. split; reflexivity.
  - intros m new_manifest log k e Hlook.
    apply merge_loop_kept. now apply kept_by_additions_refl.
  - split; [vm_compute; reflexivity|].
    do 2 eexists. repeat split; vm_compute; reflexivity.
Qed.

Lemma additions_keep_selection_witness :
  (exists e',
     Dict.lookup "A"
       (vols (snd (Manifest.add_volume_version "now" (fun s => s) selected_v1
                     "A" "v5" "" "" None None None))) = Some e' /\
     selected_version e' = Some "v1")
  /\
  (exists e',
     Dict.lookup "B"
       (vols (snd (Manifest.add_volume_version "now" (fun s => s) selected_v1
                     "B" "v5" "" "" None None None))) = Some e' /\
     selected_version e' = Some "v5")
  /\
  (exists e',
     Dict.lookup "A"
       (vols (fst (Commons.merge_loop selected_v1 found_v1_v2 []))) = Some e' /\
     selected_version e' = Some "v1").
Proof.
  split; [|split].
  - destruct (proj1 additions_keep_selection
                "now" (fun s => s) selected_v1 "A" "v5" "" "" None None None
                (mkEntry (Some "v1") [plain_record "A" "v1"]) eq_refl)
      as [e' [Hlook [Hsel _]]].
    exists e'. split; [exact Hlook|exact Hsel].
  - destruct (proj1 (proj2 additions_keep_selection)
                "now" (fun s => s) selected_v1 "B" "v5" "" "" None None None
                eq_refl)
      as [e' [Hlook Hsel]].
    exists e'. split; [exact Hlook|exact Hsel].
  - destruct (proj1 (proj2 (proj2 additions_keep_selection))
                selected_v1 found_v1_v2 [] "A"
                (mkEntry (Some "v1") [plain_record "A" "v1"]) eq_refl)
      as [e' [Hlook [Hsel _]]].
    exists e'. split; [exact Hlook|exact Hsel].
Defined.

(** ** Invariant I2 under the operations *)

Lemma mem_true_iff x l : Py.mem x l = true <-> In x l.
Proof.
  unfold Py.mem. rewrite existsb_exists. split.
  - intros [y [Hin Heq]]. apply String.eqb_eq in Heq. now subst.
  - intros H. exists x. split; auto. apply String.eqb_refl.
Qed.

Lemma mem_false_iff x l : Py.mem x l = false <-> ~ In x l.
Proof.
  rewrite <- mem_true_iff. destruct (Py.mem x l); split; intros H;
    try congruence; try discriminate.
Qed.

Lemma option_eq_dec_string (a b : option string) : {a = b} + {a <> b}.
Proof. decide equality. apply string_dec. Qed.

Lemma set_set k e1 e2 d : Dict.set k e2 (Dict.set k e1 d) = Dict.set k e2 d.
Proof.
  induction d as [|[k' e'] d IH]; simpl.
  - now rewrite String.eqb_refl.
  - destruct (k == k') eqn:E; simpl; rewrite E; [reflexivity|now rewrite IH].
Qed.

Lemma manifest_ok_set m k e :
  manifest_ok m -> entry_ok e -> manifest_ok (with_vols m (Dict.set k e (vols m))).
Proof.
  intros Hm He k' e'. simpl. destruct (String.eqb_spec k' k) as [->|Hne].
  - rewrite lookup_set_same. now intros [= <-].
  - rewrite lookup_set_other by auto. apply Hm.
Qed.

Lemma manifest_ok_del m k :
  manifest_ok m -> manifest_ok (with_vols m (Dict.del k (vols m))).
Proof.
  intros Hm k' e'. simpl. destruct (String.eqb_spec k' k) as [->|Hne].
  - now rewrite lookup_del_same.
  - rewrite lookup_del_other by auto. apply Hm.
Qed.

Lemma entry_ok_append e added :
  entry_ok e ->
  Forall (fun r => canonical (r_version r)) added ->
  entry_ok (with_versions e (versions e ++ added)).
Proof.
  intros [HI2 Hcan] Hadded. split.
  - unfold I2 in *. simpl. destruct (selected_version e); auto.
    unfold tokens in *. simpl. rewrite map_app. apply in_or_app. now left.
  - unfold canonical_entry. simpl. apply Forall_app. now split.
Qed.

Lemma manifest_ok_remove_volume m k :
  manifest_ok m -> manifest_ok (Manifest.remove_volume m k).
Proof.
  intros Hm. unfold Manifest.remove_volume.
  destruct (Dict.has k (vols m)); auto. now apply manifest_ok_del.
Qed.

Lemma manifest_ok_add now hash_string m k version author notes tags ts last_updated :
  manifest_ok m -> canonical version ->
  manifest_ok (snd (Manifest.add_volume_version now hash_string m k version
                      author notes tags ts last_updated)).
Proof.
  intros Hm Hc. destruct (Dict.lookup k (vols m)) as [e|] eqn:Hlook.
  - rewrite (add_on_existing now hash_string m k version author notes tags ts
               last_updated e Hlook).
    destruct (existsb _ (versions e)); simpl; auto.
    apply manifest_ok_set; auto.
    apply entry_ok_append; [now apply (Hm k)|]. now repeat constructor.
  - rewrite add_on_new by exact Hlook. simpl. rewrite set_set.
    apply manifest_ok_set; auto. split.
    + simpl. now left.
    + now repeat constructor.
Qed.

(** [remove_volume_version] keeps the invariant, for any token, and does
    not raise. *)
Lemma manifest_ok_remove_version m k version :
  manifest_ok m ->
  exists log m',
    Manifest.remove_volume_version m k version = Ok (log, m') /\ manifest_ok m'.
Proof.
  intros Hm. destruct (Dict.lookup k (vols m)) as [e|] eqn:Hlook.
  - destruct (Hm k e Hlook) as [HI2 Hcan].
    destruct (remove_volume_version_entry m k e version Hlook Hcan)
      as [log [m' [Hrun [Hother [Hnil Hsome]]]]].
    exists log, m'. split; [exact Hrun|].
    intros k' e' Hk'. destruct (String.eqb_spec k' k) as [->|Hne].
    + set (kept := filter (fun v => negb (r_version v == version)) (versions e)) in *.
      destruct kept as [|k0 ks] eqn:Hkept.
      * rewrite Hnil in Hk' by reflexivity. discriminate.
      * destruct Hsome as [e'' [He'' [Hvs [Hkeep Hnew]]]]; [discriminate|].
        rewrite He'' in Hk'. injection Hk' as <-.
        split.
        -- unfold I2, tokens. rewrite Hvs.
           destruct (option_eq_dec_string (selected_version e) (Some version))
             as [Heq|Hneq].
           ++ assert (Hne : versions e <> []).
              { unfold I2 in HI2. rewrite Heq in HI2. unfold tokens in HI2.
                destruct (versions e); [destruct HI2|discriminate]. }
              destruct (Hnew Heq Hne) as [r [n [Hin [Hsel _]]]].
              rewrite Hsel. now apply in_map.
           ++ destruct (Hkeep Hneq) as [Hsel _]. rewrite Hsel.
              unfold I2 in HI2. destruct (selected_version e) as [s|]; auto.
              unfold tokens in HI2. apply in_map_iff in HI2.
              destruct HI2 as [r [Hr Hin]]. apply in_map_iff. exists r.
              split; auto. rewrite <- Hkept. apply filter_In. split; auto.
              apply negb_true_iff. apply String.eqb_neq. congruence.
        -- unfold canonical_entry. rewrite Hvs, <- Hkept.
           now apply filter_canonical.
    + rewrite Hother in Hk' by auto. eapply Hm; eauto.
  - unfold Manifest.remove_volume_version. rewrite Hlook. eauto.
Qed.

Lemma manifest_ok_append_version m k v :
  manifest_ok m -> canonical (r_version v) ->
  manifest_ok (Commons.append_version m k v).
Proof.
  intros Hm Hv. unfold Commons.append_version.
  destruct (Dict.lookup k (vols m)) as [e|] eqn:Hlook; auto.
  apply manifest_ok_set; auto. apply entry_ok_append; [now apply (Hm k)|].
  now repeat constructor.
Qed.

Lemma manifest_ok_merge_step st item :
  manifest_ok (fst st) -> entry_ok (snd item) ->
  manifest_ok (fst (Commons.merge_step st item)).
Proof.
  destruct st as [m log]. destruct item as [k nd]. simpl. intros Hm Hnd.
  destruct (Dict.has k (vols m)); simpl.
  - destruct Hnd as [_ Hcan]. unfold canonical_entry in Hcan.
    set (ex := Manifest.get_all_version_strings m k). clearbody ex.
    revert Hm. generalize log. generalize m.
    induction Hcan as [|v vs Hv Hvs IH]; intros m0 log0 Hm0; simpl; auto.
    destruct (negb (Py.mem (r_version v) ex)); simpl.
    + apply IH. now apply manifest_ok_append_version.
    + now apply IH.
  - now apply manifest_ok_set.
Qed.

Lemma manifest_ok_merge_loop m new_manifest log :
  manifest_ok m ->
  Forall (fun p => entry_ok (snd p)) (vols new_manifest) ->
  manifest_ok (fst (Commons.merge_loop m new_manifest log)).
Proof.
  unfold Commons.merge_loop. intros Hm Hnew.
  change m with (fst (m, log)) in Hm. revert Hm. generalize (m, log).
  induction Hnew as [|it items Hit Hitems IH]; intros st Hst; simpl; auto.
  apply IH. now apply manifest_ok_merge_step.
Qed.

Lemma manifest_ok_remove_volumes_loop removed m log :
  manifest_ok m ->
  manifest_ok (fst (Commons.remove_volumes_loop removed m log)).
Proof.
  unfold Commons.remove_volumes_loop. intros Hm.
  change m with (fst (m, log)) in Hm. revert Hm. generalize (m, log).
  induction removed as [|k ks IH]; intros st Hst; simpl; auto.
  apply IH. simpl. now apply manifest_ok_remove_volume.
Qed.

Lemma manifest_ok_remove_seg_inner seg_id subjects :
  forall m log m' log',
    manifest_ok m ->
    Commons.remove_seg_inner seg_id subjects m log = Ok (m', log') ->
    manifest_ok m'.
Proof.
  induction subjects as [|k ks IH]; intros m log m' log' Hm Hrun; simpl in Hrun.
  - now injection Hrun as <- _.
  - destruct (manifest_ok_remove_version m k
                (Manifest.fmt_version (Commons.extract_version_number seg_id k)) Hm)
      as [l [m1 [Hrm Hm1]]].
    rewrite Hrm in Hrun. simpl in Hrun.
    destruct (List.length (vols m1) =? List.length (vols m)); [|discriminate].
    eapply IH; eauto.
Qed.

Lemma manifest_ok_remove_segs_loop removed :
  forall m log m' log',
    manifest_ok m ->
    Commons.remove_segs_loop removed m log = Ok (m', log') ->
    manifest_ok m'.
Proof.
  induction removed as [|seg_id rest IH]; intros m log m' log' Hm Hrun;
    simpl in Hrun.
  - now injection Hrun as <- _.
  - destruct (Commons.remove_seg_inner seg_id (Dict.keys (vols m)) m log)
      as [[m1 log1]|] eqn:Hinner; [|discriminate].
    simpl in Hrun. eapply IH; [|exact Hrun].
    eapply manifest_ok_remove_seg_inner; eauto.
Qed.

Lemma manifest_ok_update_index set_order m new_manifest log warnings errors m' :
  manifest_ok m ->
  Forall (fun p => entry_ok (snd p)) (vols new_manifest) ->
  Commons.update_index set_order m new_manifest = Ok (log, warnings, errors, m') ->
  manifest_ok m'.
Proof.
  intros Hm Hnew. unfold Commons.update_index.
  pose proof (manifest_ok_merge_loop m new_manifest [] Hm Hnew) as H1.
  destruct (Commons.merge_loop m new_manifest []) as [m1 log1]. simpl in H1.
  pose proof (manifest_ok_remove_volumes_loop
                (set_order (Py.set_diff (Dict.keys (vols m))
                                        (Dict.keys (vols new_manifest))))
                m1 log1 H1) as H2.
  destruct (Commons.remove_volumes_loop _ m1 log1) as [m2 log2]. simpl in H2.
  destruct (Commons.remove_segs_loop _ m2 log2) as [[m3 log3]|] eqn:H3;
    [|discriminate].
  simpl. intros [= _ _ _ <-]. eapply manifest_ok_remove_segs_loop; eauto.
Qed.

Lemma manifest_ok_set_selected m k version e :
  manifest_ok m ->
  Dict.lookup k (vols m) = Some e -> In version (tokens e) ->
  manifest_ok (Manifest.set_selected_version m k (Some version)).
Proof.
  intros Hm Hlook Hin. unfold Manifest.set_selected_version. rewrite Hlook.
  apply manifest_ok_set; auto. destruct (Hm k e Hlook) as [_ Hcan].
  split; [exact Hin|exact Hcan].
Qed.

Lemma manifest_ok_select segver_directory isfile m volume_fname seg_version
      log warnings errors m' :
  manifest_ok m ->
  KomsService.select_segmentation segver_directory isfile m volume_fname seg_version
  = Ok (log, warnings, errors, m') ->
  manifest_ok m'.
Proof.
  intros Hm. unfold KomsService.select_segmentation.
  set (v := Py.strip seg_version).
  destruct (negb (Py.startswith v "v") || negb (Py.isdigit (Py.slice_from_1 v)));
    [now intros [= _ _ _ <-]|].
  unfold KomsService.get_paths_and_exts.
  destruct (negb (Py.endswith volume_fname (volume_extension m)));
    [now intros [= _ _ _ <-]|].
  set (vol_base := Py.slice_to_neg (String.length (volume_extension m)) volume_fname).
  destruct (Dict.has vol_base (vols m)) eqn:Hhas; simpl negb; cbv iota;
    [|now intros [= _ _ _ <-]].
  destruct (negb (isfile _)).
  { intros [= _ _ _ <-]. now apply manifest_ok_remove_volume. }
  destruct (Py.mem v (Manifest.get_all_version_strings m vol_base)) eqn:Hmem;
    simpl negb; cbv iota; [|now intros [= _ _ _ <-]].
  destruct (negb (isfile _)).
  - destruct (manifest_ok_remove_version m vol_base v Hm) as [l [m1 [Hrm Hm1]]].
    rewrite Hrm. simpl.
    destruct (match Manifest.get_selected_version m vol_base with
              | Some s => s == v
              | None => false
              end).
    + destruct (Manifest.get_latest_version m1 vol_base); simpl;
        [|discriminate]. now intros [= _ _ _ <-].
    + now intros [= _ _ _ <-].
  - apply has_true_iff in Hhas. destruct Hhas as [e He].
    assert (Hin : In v (tokens e)).
    { apply mem_true_iff in Hmem.
      unfold Manifest.get_all_version_strings, Manifest.get_all_versions, Dict.has
        in Hmem. now rewrite He in Hmem. }
    destruct (match Manifest.get_selected_version m vol_base with
              | Some s => s == v
              | None => false
              end);
      intros [= _ _ _ <-]; eapply manifest_ok_set_selected; eauto.
Qed.

Section Operations.
Variables (now : string) (hash_string : string -> string).
Variable set_order : list string -> list string.
Variable segver_directory : string.

Lemma apply_operation_ok o m m' :
  manifest_ok m -> well_formed o ->
  apply_operation now hash_string set_order segver_directory o m = Ok m' ->
  manifest_ok m'.
Proof.
  intros Hm Hwf. destruct o; simpl in *.
  - intros [= <-]. now apply manifest_ok_add.
  - destruct (Commons.update_index set_order m new_manifest)
      as [[[[log w] e] m1]|] eqn:Hrun; [|discriminate].
    simpl. intros [= <-]. eapply manifest_ok_update_index; eauto.
  - intros [= <-]. now apply manifest_ok_remove_volume.
  - destruct (manifest_ok_remove_version m subject_key version Hm)
      as [l [m1 [Hrm Hm1]]].
    rewrite Hrm. simpl. now intros [= <-].
  - destruct (KomsService.select_segmentation _ _ _ _ _)
      as [[[[log w] e] m1]|] eqn:Hrun; [|discriminate].
    simpl. intros [= <-]. eapply manifest_ok_select; eauto.
Qed.

End Operations.

(** C4, as amended. Invariant I2 under sequences of operations that keep to
    tokens of the form vN.  From a manifest whose entries satisfy I2 with
    such tokens (the empty manifest is one), after any sequence of
    [add_volume_version], [update_index], [remove_volume],
    [remove_volume_version] and [select_segmentation] calls that all
    complete, where every added token is of that form and every new index
    satisfies I2 with such tokens, every entry of the manifest has a
    selection that is absent or is the token of one of its records.  As
    every prefix of a sequence is a sequence, this holds after each
    operation. *)
Theorem I2_preserved_by_operations :
  forall now hash_string set_order segver_directory ops m m',
    manifest_ok m ->
    Forall well_formed ops ->
    run now hash_string set_order segver_directory ops m = Ok m' ->
    forall k e, Dict.lookup k (vols m') = Some e -> I2 e.
Proof.
  intros now hs so dir ops.
  assert (Hgen : forall m m',
             manifest_ok m -> Forall well_formed ops ->
             run now hs so dir ops m = Ok m' -> manifest_ok m').
  { induction ops as [|o ops IH]; intros m m' Hm Hwf Hrun; simpl in Hrun.
    - now injection Hrun as <-.
    - inversion Hwf as [|? ? Ho Hops]; subst.
      destruct (apply_operation now hs so dir o m) as [m1|] eqn:Hstep;
        [|discriminate].
      simpl in Hrun. apply (IH m1 m'); auto.
      eapply apply_operation_ok; eauto. }
  intros m m' Hm Hwf Hrun k e Hlook.
  exact (proj1 (Hgen m m' Hm Hwf Hrun k e Hlook)).
Qed.

Lemma I2_preserved_by_operations_witness :
  run "now" (fun s => s) (nodup string_dec) "/data" session empty_index
  = Ok after_session
  /\ I2 (mkEntry (Some "v1")
           [mkVersion "A-v1" "A-v1now" "now" "" "" [] "v1" "now";
            plain_record "A" "v3"]).
Proof.
  assert (Hrun : run "now" (fun s => s) (nodup string_dec) "/data" session empty_index
                 = Ok after_session) by (vm_compute; reflexivity).
  split; [exact Hrun|].
  apply (I2_preserved_by_operations "now" (fun s => s) (nodup string_dec) "/data"
           session empty_index after_session) with (k := "A").
  - intros k e H. discriminate.
  - unfold session.
    constructor; [exists 1; reflexivity|].
    constructor; [exists 2; reflexivity|].
    constructor; [exact I|]. constructor; [exact I|].
    constructor; [|constructor].
    simpl. constructor; [|constructor]. split.
    + simpl. right. now left.
    + constructor; [exists 1; reflexivity|].
      constructor; [exists 3; reflexivity|constructor].
  - exact Hrun.
  - reflexivity.
Defined.

(** A token with a leading zero breaks I2: from the empty manifest, adding
    v01 and v2, selecting v2 and removing v2 all complete, and leave volume
    A with the selection v1 over the single version v01. *)
Lemma I2_broken_by_leading_zero_token :
  exists m' e,
    run "now" (fun s => s) (nodup string_dec) "/data" leading_zero_session
      empty_index
    = Ok m' /\
    Dict.lookup "A" (vols m') = Some e /\
    selected_version e = Some "v1" /\ tokens e = ["v01"] /\
    ~ I2 e.
Proof.
  do 2 eexists. split; [vm_compute; reflexivity|].
  split; [reflexivity|]. split; [reflexivity|]. split; [reflexivity|].
  unfold I2. simpl. intros [H|[]]. discriminate H.
Qed.

(** ** Reconciliation on concrete states *)

(** C1. Reconciliation is not idempotent on this state: with A-v01 and
    A-v2 on disk and a manifest that holds A-v1 and A-v2, the first
    [update_index] removes version v1 (the id A-v1 is gone), and the second
    one, against the index matched from the same files, adds v1 again (the
    file A-v01 is read as v1): its log is not empty and the manifest it
    returns differs from the one it received. *)
Theorem update_index_twice_with_leading_zero :
  exists log warnings errors index,
    match_disk = Ok (log, warnings, errors, index) /\
    errors = [] /\
    Commons.update_index (nodup string_dec) two_versions (Commons.only_volumes index)
    = Ok ([RemovedVersion "A-v1" "A"], [], [], after_first_update) /\
    Commons.update_index (nodup string_dec) after_first_update
      (Commons.only_volumes index)
    = Ok ([AddedVersion "v1" "A"], [], [], after_second_update) /\
    after_second_update <> after_first_update.
Proof.
  do 4 eexists. split; [vm_compute; reflexivity|].
  split; [reflexivity|]. split; [vm_compute; reflexivity|].
  split; [vm_compute; reflexivity|]. discriminate.
Qed.

(** C2. The removal pass logs a removed id once per subject of the
    manifest, not once per id.  With subjects A and B and the single id
    A-v2 gone from disk, [update_index] removes v2 from A, repairs A's
    selection, leaves B as it was, and logs "Removed segmentation version
    A-v2" twice: from volume A and from volume B.  With the volume B gone,
    it logs the removal of B-v1 from volume A. *)
Theorem update_index_logs_removed_id_per_subject :
  Commons.update_index (nodup string_dec) two_subjects found_without_A_v2
  = Ok ([RemovedVersion "A-v2" "A"; SelectionUpdated "A" "v1";
         RemovedVersion "A-v2" "B"],
        [], [],
        mkManifest "index" "volumes" ".nii" "labels" ".nii"
          [("A", mkEntry (Some "v1") [plain_record "A" "v1"]);
           ("B", mkEntry (Some "v1") [plain_record "B" "v1"])])
  /\
  Commons.update_index (nodup string_dec) two_subjects found_without_B
  = Ok ([RemovedVolume "B"; RemovedVersion "B-v1" "A"], [], [], two_versions).
Proof. split; vm_compute; reflexivity. Qed.

(** ** Metadata update *)

(** X25. A non-empty tags argument always counts as a change: the string
    is compared with the stored list before it is split, so the record
    gets the split tags and the time of the call as last-updated. *)
Lemma update_record_tags_always_change now vol_base seg_version seg_author seg_notes
      seg_tags v :
  seg_tags <> "" ->
  r_last_updated
    (snd (KomsService.update_record now vol_base seg_version seg_author seg_notes
            seg_tags v)) = now
  /\ r_tags
       (snd (KomsService.update_record now vol_base seg_version seg_author seg_notes
               seg_tags v))
     = map Py.strip (Py.split_on ","%char seg_tags).
Proof.
  intros Hne. unfold KomsService.update_record.
  assert (H : negb (py_eq (PStr seg_tags) (PStr ""))
              && negb (py_eq (PStr seg_tags) (PList (r_tags v))) = true).
  { simpl. apply String.eqb_neq in Hne. now rewrite Hne. }
  rewrite H.
  destruct (negb (seg_author == "") && negb (seg_author == r_author v));
    destruct (negb (seg_notes == "") && negb (seg_notes == r_notes v));
    simpl; auto.
Qed.

(** X26. Author and notes behave as the contract says: with no tags
    supplied, the record changes exactly where a supplied value is
    non-empty and differs, and the time stamp moves only then; id, hash,
    creation time and token never change. *)
Lemma update_record_without_tags now vol_base seg_version seg_author seg_notes v :
  let v' := snd (KomsService.update_record now vol_base seg_version seg_author
                   seg_notes "" v) in
  let author_changes := negb (seg_author == "") && negb (seg_author == r_author v) in
  let notes_changes := negb (seg_notes == "") && negb (seg_notes == r_notes v) in
  r_author v' = (if author_changes then seg_author else r_author v) /\
  r_notes v' = (if notes_changes then seg_notes else r_notes v) /\
  r_tags v' = r_tags v /\
  r_last_updated v'
  = (if author_changes || notes_changes then now else r_last_updated v) /\
  r_id v' = r_id v /\ r_hash v' = r_hash v /\ r_ts v' = r_ts v /\
  r_version v' = r_version v.
Proof.
  unfold KomsService.update_record. simpl.
  destruct (negb (seg_author == "") && negb (seg_author == r_author v));
    destruct (negb (seg_notes == "") && negb (seg_notes == r_notes v));
    simpl; repeat split; reflexivity.
Qed.

(** C5. Supplying again the tags a version already has is treated as a
    change: for stored tags a, b and the argument "a,b" (author and notes
    not supplied), [update_segmentation_metadata] logs old and new tags,
    writes the tags and moves last-updated to the current time. *)
Theorem update_metadata_same_tags_moves_last_updated :
  KomsService.update_segmentation_metadata "2025-06-01T00:00:00Z" tagged
    "A.nii" "v1" "" "" "a,b"
  = ([AuthorUnchanged "ann"; NotesUnchanged "first pass";
      OldTags ["a"; "b"]; NewTags ["a"; "b"];
      LastUpdated "2025-06-01T00:00:00Z"; BlankLine; MetadataUpdated "A" "v1"],
     [], [],
     mkManifest "index" "volumes" ".nii" "labels" ".nii"
       [("A", mkEntry (Some "v1")
                [mkVersion "A-v1" "h" "2025-01-01T00:00:00Z" "ann" "first pass"
                           ["a"; "b"] "v1" "2025-06-01T00:00:00Z"])]).
Proof. vm_compute. reflexivity. Qed.

(** ** Linking *)

(** The numbers [link_segmentation] derives. *)
Lemma derive_version_cases m seg_base vol_base :
  (forall n, Commons.extract_version_number seg_base vol_base = Some n ->
             KomsService.derive_version m seg_base vol_base = Ok n)
  /\
  (Commons.extract_version_number seg_base vol_base = None ->
   forall latest, Manifest.get_latest_version m vol_base = Ok latest ->
     KomsService.derive_version m seg_base vol_base
     = Ok (match latest with None => 1 | Some l => l + 1 end)).
Proof.
  unfold KomsService.derive_version. split.
  - intros n ->. reflexivity.
  - intros -> latest ->. reflexivity.
Qed.

Lemma derive_version_examples :
  KomsService.derive_version two_versions "scan" "A" = Ok 3 /\
  KomsService.derive_version two_versions "scan" "B" = Ok 1 /\
  KomsService.derive_version two_versions "A-v7" "A" = Ok 7.
Proof. repeat split; vm_compute; reflexivity. Qed.

(** X17. [link_segmentation] never returns an updated manifest: when it
    returns at all it reports errors and no log line, and the manifest is
    the one it received. *)
Lemma link_segmentation_adds_nothing now hash_string hash_image segver_directory
      files geometry_ok rename_ok m volume_fname seg_fname
      log warnings errors m' files' :
  KomsService.link_segmentation now hash_string hash_image segver_directory
    files geometry_ok rename_ok m volume_fname seg_fname
  = Ok (log, warnings, errors, m', files') ->
  m' = m /\ errors <> [] /\ log = [].
Proof.
  unfold KomsService.link_segmentation, KomsService.get_paths_and_exts.
  match goal with
  | |- context [match ?l ++ ?r with [] => _ | _ :: _ => _ end] =>
      destruct (l ++ r) eqn:E1
  end; [|intros [= <- <- <- <- <-]; repeat split; discriminate].
  match goal with
  | |- context [match ?l ++ ?r with [] => _ | _ :: _ => _ end] =>
      destruct (l ++ r) eqn:E2
  end; [|intros [= <- <- <- <- <-]; repeat split; discriminate].
  destruct (negb (geometry_ok _ _)); [discriminate|].
  destruct (KomsService.derive_version m _ _) as [version|]; [|discriminate].
  simpl bind.
  match goal with
  | |- context [if negb (?a == ?b) then _ else _] => destruct (negb (a == b))
  end.
  - match goal with
    | |- context [if Py.mem ?a ?b then _ else _] => destruct (Py.mem a b)
    end.
    + intros [= <- <- <- <- <-]. repeat split; discriminate.
    + destruct rename_ok.
      * simpl. discriminate.
      * intros [= <- <- <- <- <-]. repeat split; discriminate.
  - simpl. discriminate.
Qed.

(** C8. Linking an unversioned segmentation to a volume that has v1 and v2
    does not append v3: every check passes, the number 3 is derived, and
    the call of [add_volume_version] passes the keyword [hash], which the
    function does not declare, so the call raises [TypeError] before the
    add path runs. *)
Theorem link_segmentation_raises_on_add :
  KomsService.derive_version two_versions "scan" "A" = Ok 3 /\
  KomsService.link_segmentation "2025-06-01T00:00:00Z" (fun s => s) (fun s => s)
    "/data" linkable_files (fun _ _ => true) true two_versions "A.nii" "scan.nii"
  = Raise TypeError.
Proof. split; vm_compute; reflexivity. Qed.

(** ** Strings *)

Lemma append_assoc (a b c : string) : (a +++ b) +++ c = a +++ b +++ c.
Proof. induction a as [|x a IH]; simpl; [reflexivity|now rewrite IH]. Qed.

Lemma length_append (a b : string) :
  String.length (a +++ b) = String.length a + String.length b.
Proof. induction a as [|x a IH]; simpl; [reflexivity|now rewrite IH]. Qed.

Lemma substring_0_length (s : string) : substring 0 (String.length s) s = s.
Proof. induction s as [|x s IH]; simpl; [reflexivity|now rewrite IH]. Qed.

Lemma substring_skip (p r : string) (n : nat) :
  substring (String.length p) n (p +++ r) = substring 0 n r.
Proof. induction p as [|x p IH]; simpl; [reflexivity|exact IH]. Qed.

Lemma substring_after_prefix (p r : string) :
  substring (String.length p) (String.length (p +++ r) - String.length p) (p +++ r)
  = r.
Proof.
  rewrite substring_skip, length_append.
  replace (String.length p + String.length r - String.length p)
    with (String.length r) by lia.
  apply substring_0_length.
Qed.

Lemma prefix_append (p r : string) : String.prefix p (p +++ r) = true.
Proof.
  induction p as [|x p IH]; simpl.
  - now destruct r.
  - destruct (ascii_dec x x) as [_|H]; [exact IH|now destruct H].
Qed.

Lemma prefix_split (p s : string) :
  String.prefix p s = true ->
  s = p +++ substring (String.length p) (String.length s - String.length p) s.
Proof.
  revert s. induction p as [|x p IH]; intros s H; simpl.
  - rewrite Nat.sub_0_r. now rewrite substring_0_length.
  - destruct s as [|y s]; simpl in H; [discriminate|].
    destruct (ascii_dec x y) as [->|_]; [|discriminate].
    simpl. f_equal. now apply IH.
Qed.

Lemma startswith_iff (s p : string) :
  Py.startswith s p = true <-> exists r, s = p +++ r.
Proof.
  unfold Py.startswith. split.
  - intros H. eexists. now apply prefix_split.
  - intros [r ->]. apply prefix_append.
Qed.

Lemma append_inv_head (p a b : string) : p +++ a = p +++ b -> a = b.
Proof. induction p as [|x p IH]; simpl; [auto|]. intros [= H]. auto. Qed.

Lemma all_chars_append f (a b : string) :
  Py.all_chars f (a +++ b) = Py.all_chars f a && Py.all_chars f b.
Proof.
  induction a as [|x a IH]; simpl; [reflexivity|].
  now rewrite IH, andb_assoc.
Qed.

Lemma all_chars_get f (s : string) :
  Py.all_chars f s = true -> forall i c, get i s = Some c -> f c = true.
Proof.
  induction s as [|x s IH]; simpl; intros H i c Hget; [discriminate|].
  apply andb_true_iff in H. destruct H as [Hx Hs].
  destruct i as [|i]; [now injection Hget as <-|eauto].
Qed.

Lemma no_line_feed_endswith (s : string) :
  no_line_feed s = true -> Py.endswith s Commons.newline = false.
Proof.
  intros H. unfold Py.endswith, Commons.newline. simpl String.length.
  destruct (1 <=? String.length s) eqn:Hlen; [|reflexivity]. simpl.
  apply String.eqb_neq. intros Heq.
  pose proof (substring_correct1 s (String.length s - 1) 1 0 (Nat.lt_0_1)) as Hget.
  rewrite Heq in Hget. simpl in Hget. symmetry in Hget.
  apply (all_chars_get _ _ H) in Hget. now rewrite Ascii.eqb_refl in Hget.
Qed.

Lemma int_of_digits digits :
  Py.isdigit digits = true -> exists n, Py.int digits = Some n.
Proof.
  intros H. unfold Py.int. rewrite H.
  destruct (NilEmpty.uint_of_string digits) as [u|] eqn:E; simpl; eauto.
  exfalso. unfold Py.isdigit in H. apply andb_true_iff in H. destruct H as [_ H].
  clear -H E. revert E. induction digits as [|c s IH]; simpl; [discriminate|].
  simpl in H. apply andb_true_iff in H. destruct H as [Hc Hs].
  destruct (NilEmpty.uint_of_string s) as [u|]; [|now apply IH].
  unfold Py.is_digit in Hc.
  destruct c as [[] [] [] [] [] [] [] []]; simpl in *; try discriminate.
Qed.

(** [extract_version_number] on a name without line feed: it finds a number
    exactly when the name is the volume name, [-v] and digits, and the
    number is the value of the digits. *)
Lemma extract_version_number_spec seg_base vol_name n :
  no_line_feed seg_base = true ->
  (Commons.extract_version_number seg_base vol_name = Some n
   <-> exists digits,
         Py.isdigit digits = true /\
         seg_base = vol_name +++ "-v" +++ digits /\
         Py.int digits = Some n).
Proof.
  intros Hnl. unfold Commons.extract_version_number.
  destruct (Py.startswith seg_base (vol_name +++ "-v")) eqn:Hpre.
  - apply startswith_iff in Hpre. destruct Hpre as [r Hr]. subst seg_base.
    rewrite substring_after_prefix.
    assert (Hrnl : no_line_feed r = true).
    { unfold no_line_feed in *. rewrite all_chars_append in Hnl.
      apply andb_true_iff in Hnl. tauto. }
    rewrite (no_line_feed_endswith r Hrnl).
    destruct (Py.isdigit r) eqn:Hd.
    + split.
      * intros Hint. exists r. rewrite append_assoc. auto.
      * intros [digits [_ [Heq Hint]]]. rewrite append_assoc in Heq.
        apply append_inv_head in Heq. apply (append_inv_head "-v") in Heq.
        now subst.
    + split; [discriminate|].
      intros [digits [Hdig [Heq _]]]. rewrite append_assoc in Heq.
      apply append_inv_head in Heq. apply (append_inv_head "-v") in Heq.
      subst. congruence.
  - split; [discriminate|].
    intros [digits [_ [Heq _]]].
    assert (Py.startswith seg_base (vol_name +++ "-v") = true).
    { apply startswith_iff. exists digits. now rewrite append_assoc. }
    congruence.
Qed.

Lemma extract_version_number_matches seg_base vol_name :
  no_line_feed seg_base = true ->
  (Commons.extract_version_number seg_base vol_name <> None
   <-> names_version seg_base vol_name).
Proof.
  intros Hnl. split.
  - destruct (Commons.extract_version_number seg_base vol_name) as [n|] eqn:E;
      [|now intros H]. intros _.
    apply (extract_version_number_spec _ _ _ Hnl) in E.
    destruct E as [digits [Hd [Heq _]]]. now exists digits.
  - intros [digits [Hd Heq]]. destruct (int_of_digits digits Hd) as [n Hn].
    assert (Commons.extract_version_number seg_base vol_name = Some n).
    { apply (extract_version_number_spec _ _ _ Hnl). now exists digits. }
    congruence.
Qed.

(** ** The sort of the file matcher *)

Lemma insert_by_key_perm x l : Permutation (Commons.insert_by_key x l) (x :: l).
Proof.
  induction l as [|y l IH]; simpl; [reflexivity|].
  destruct (fst x <? fst y); [reflexivity|].
  rewrite IH. apply perm_swap.
Qed.

Lemma insert_by_key_sorted x l :
  Sorted key_le l -> Sorted key_le (Commons.insert_by_key x l).
Proof.
  induction l as [|y l IH]; intros Hs; simpl.
  - repeat constructor.
  - destruct (fst x <? fst y) eqn:E.
    + constructor; [exact Hs|]. constructor. unfold key_le.
      apply Nat.ltb_lt in E. lia.
    + apply Nat.ltb_ge in E. inversion Hs as [|? ? Hl Hhd]; subst.
      constructor; [now apply IH|].
      destruct l as [|z l]; simpl.
      * constructor. exact E.
      * destruct (fst x <? fst z); constructor; [exact E|].
        now inversion Hhd.
Qed.

Lemma sort_by_key_spec l :
  Sorted key_le (Commons.sort_by_key l) /\ Permutation (Commons.sort_by_key l) l.
Proof.
  unfold Commons.sort_by_key.
  assert (Hgen : forall acc,
             Sorted key_le acc ->
             Sorted key_le (fold_left (fun acc x => Commons.insert_by_key x acc) l acc)
             /\ Permutation
                  (fold_left (fun acc x => Commons.insert_by_key x acc) l acc)
                  (acc ++ l)).
  { induction l as [|x l IH]; intros acc Hacc; simpl.
    - split; [exact Hacc|]. now rewrite app_nil_r.
    - destruct (IH (Commons.insert_by_key x acc) (insert_by_key_sorted x acc Hacc))
        as [Hs Hp].
      split; [exact Hs|]. rewrite Hp. rewrite insert_by_key_perm.
      apply Permutation_middle. }
  destruct (Hgen [] (Sorted_nil _)) as [Hs Hp]. split; [exact Hs|exact Hp].
Qed.

Lemma with_keys_canonical l :
  Forall (fun r => canonical (r_version r)) l ->
  exists kl,
    Commons.with_keys l = Ok kl /\ map snd kl = l /\
    Forall (fun p => version_number (snd p) = Some (fst p)) kl.
Proof.
  induction 1 as [|r l Hr Hl IH]; simpl.
  - exists []. repeat split. constructor.
  - destruct (canonical_number r Hr) as [n [Hn _]].
    unfold version_number in Hn. rewrite Hn.
    destruct IH as [kl [Hkl [Hmap Hall]]]. rewrite Hkl. simpl.
    exists ((n, r) :: kl). simpl. rewrite Hmap. repeat split.
    constructor; auto.
Qed.

Lemma sorted_last_is_max (nums : list nat) d :
  Sorted le nums -> forall n, In n nums -> n <= last nums d.
Proof.
  intros Hs. apply Sorted_StronglySorted in Hs; [|intros a b c; apply Nat.le_trans].
  induction Hs as [|a l Hl IH Hall]; intros n Hin; [destruct Hin|].
  destruct l as [|b l]; simpl in *.
  - destruct Hin as [<-|[]]. lia.
  - destruct Hin as [<-|Hin].
    + rewrite Forall_forall in Hall.
      assert (a <= b) by (apply Hall; now left).
      assert (b <= last (b :: l) d) by (apply IH; now left).
      simpl in *. lia.
    + now apply IH.
Qed.

(** [sort_versions] on records with canonical tokens: it returns a
    permutation whose numbers ascend. *)
Lemma sort_versions_spec l :
  Forall (fun r => canonical (r_version r)) l ->
  exists sorted nums,
    Commons.sort_versions l = Ok sorted /\
    Permutation sorted l /\
    map version_number sorted = map Some nums /\
    Sorted le nums.
Proof.
  intros Hcan. destruct (with_keys_canonical l Hcan) as [kl [Hkl [Hmap Hall]]].
  unfold Commons.sort_versions. rewrite Hkl. simpl.
  destruct (sort_by_key_spec kl) as [Hs Hp].
  exists (map snd (Commons.sort_by_key kl)), (map fst (Commons.sort_by_key kl)).
  split; [reflexivity|]. split; [|split].
  - rewrite <- Hmap. now apply Permutation_map.
  - assert (Hall' : Forall (fun p => version_number (snd p) = Some (fst p))
                           (Commons.sort_by_key kl)).
    { rewrite Forall_forall in *. intros p Hin. apply Hall.
      eapply Permutation_in; eauto. }
    clear -Hall'. induction Hall' as [|p ps Hp Hps IH]; simpl; [reflexivity|].
    now rewrite Hp, IH.
  - clear -Hs. induction Hs as [|p ps Hps IH Hhd]; simpl; constructor; auto.
    destruct Hhd; simpl; constructor; auto.
Qed.

(** ** The candidates of a volume *)

Section Candidates.
Variables (now : string) (hash_image : string -> string).
Variables (segmentations_path sext : string).

Lemma extract_implies_startswith seg_base vol_name n :
  Commons.extract_version_number seg_base vol_name = Some n ->
  Py.startswith seg_base (vol_name +++ "-v") = true.
Proof.
  unfold Commons.extract_version_number.
  destruct (Py.startswith seg_base (vol_name +++ "-v")); [auto|discriminate].
Qed.

Lemma in_candidates vol_name tar_fnames r :
  In r (Commons.candidates now hash_image segmentations_path sext vol_name tar_fnames)
  <-> exists seg_base n,
        In seg_base tar_fnames /\
        Commons.extract_version_number seg_base vol_name = Some n /\
        r = mkVersion seg_base
              (hash_image (Py.join2 segmentations_path (seg_base +++ sext)))
              now "" "" [] ("v" +++ Py.str_nat n) now.
Proof.
  unfold Commons.candidates. rewrite in_flat_map. split.
  - intros [seg [Hin Hr]].
    destruct (negb (Py.startswith seg (vol_name +++ "-v"))); [destruct Hr|].
    destruct (Commons.extract_version_number seg vol_name) as [n|] eqn:E;
      [|destruct Hr].
    destruct Hr as [<-|[]]. exists seg, n. auto.
  - intros [seg [n [Hin [He ->]]]]. exists seg. split; [exact Hin|].
    rewrite (extract_implies_startswith _ _ _ He). simpl. rewrite He. now left.
Qed.

Lemma candidates_canonical vol_name tar_fnames :
  Forall (fun r => canonical (r_version r))
    (Commons.candidates now hash_image segmentations_path sext vol_name tar_fnames).
Proof.
  apply Forall_forall. intros r Hr. apply in_candidates in Hr.
  destruct Hr as [seg [n [_ [_ ->]]]]. now exists n.
Qed.

End Candidates.

(** ** The file matcher *)

Section FileMatcher.
Variables (now : string) (hash_image : string -> string).
Variable set_order : list string -> list string.
Hypothesis set_order_enumerates :
  forall l, Permutation (set_order l) (nodup string_dec l).
Variables (segmentations_path sext : string).
Variable tar_fnames : list string.

Let cands (vol_name : string) : list VersionRecord :=
  Commons.candidates now hash_image segmentations_path sext vol_name tar_fnames.

Let matched_entry :=
  matched_entry now hash_image segmentations_path sext tar_fnames.

Lemma in_set_order x l : In x (set_order l) <-> In x l.
Proof.
  rewrite <- (nodup_In string_dec l x). split; intros H.
  - eapply Permutation_in; [apply set_order_enumerates|exact H].
  - eapply Permutation_in; [symmetry; apply set_order_enumerates|exact H].
Qed.

Lemma NoDup_set_order l : NoDup (set_order l).
Proof.
  eapply Permutation_NoDup; [symmetry; apply set_order_enumerates|].
  apply NoDup_nodup.
Qed.

Lemma last_map_version_number (sorted : list VersionRecord) nums c :
  map version_number sorted = map Some nums -> sorted <> [] ->
  version_number (last sorted c) = Some (last nums 0).
Proof.
  revert nums. induction sorted as [|r rs IH]; intros nums Hmap Hne;
    [now destruct Hne|].
  destruct nums as [|n ns]; [discriminate|]. simpl in Hmap.
  injection Hmap as Hr Hrs.
  destruct rs as [|r' rs].
  - destruct ns; [exact Hr|discriminate].
  - destruct ns as [|n' ns]; [discriminate|].
    change (last (r :: r' :: rs) c) with (last (r' :: rs) c).
    change (last (n :: n' :: ns) 0) with (last (n' :: ns) 0).
    apply IH; [exact Hrs|discriminate].
Qed.

Lemma last_In {A} (l : list A) d : l <> [] -> In (last l d) l.
Proof.
  induction l as [|x l IH]; intros Hne; [now destruct Hne|].
  destruct l as [|y l]; [now left|]. right. apply IH. discriminate.
Qed.

Lemma match_loop_spec vol_names :
  NoDup vol_names ->
  forall index,
    (forall X, In X vol_names -> Dict.lookup X index = None) ->
    exists index',
      Commons.match_loop now hash_image segmentations_path sext tar_fnames
        vol_names index = Ok index' /\
      (forall X, ~ In X vol_names -> Dict.lookup X index' = Dict.lookup X index) /\
      (forall X, In X vol_names -> cands X = [] -> Dict.lookup X index' = None) /\
      (forall X, In X vol_names -> cands X <> [] ->
         exists e, Dict.lookup X index' = Some e /\ matched_entry X e) /\
      (forall p, In p index' ->
         In p index \/ (In (fst p) vol_names /\ matched_entry (fst p) (snd p))).
Proof.
  induction 1 as [|X rest Hnotin Hnodup IH]; intros index Hfresh.
  - exists index. simpl. repeat split; auto; intros X [].
  - simpl. fold (cands X). destruct (cands X) as [|c cs] eqn:Hc.
    + destruct (IH index) as [index' [Hrun [Hout [Hnone [Hsome Hin]]]]].
      { intros Y HY. apply Hfresh. now right. }
      exists index'. split; [exact Hrun|]. repeat split.
      * intros Y HY. apply Hout. intros H. apply HY. now right.
      * intros Y [<-|HY] HcY.
        -- rewrite Hout by exact Hnotin. apply Hfresh. now left.
        -- now apply Hnone.
      * intros Y [<-|HY] HcY; [congruence|now apply Hsome].
      * intros p Hp. destruct (Hin p Hp) as [H|[H1 H2]]; [now left|].
        right. split; [now right|exact H2].
    + assert (Hcan : Forall (fun r => canonical (r_version r)) (c :: cs)).
      { rewrite <- Hc. apply candidates_canonical. }
      destruct (sort_versions_spec (c :: cs) Hcan)
        as [sorted [nums [Hsort [Hperm [Hnums Hsorted]]]]].
      rewrite Hsort. simpl bind.
      set (entry := mkEntry (Some (r_version (last sorted c))) sorted).
      assert (Hne : sorted <> []).
      { intros ->. apply Permutation_nil in Hperm. discriminate. }
      assert (Hentry : matched_entry X entry).
      { split; [exact Hne|]. split; [fold (cands X); now rewrite Hc|].
        exists nums. split; [exact Hnums|]. split; [exact Hsorted|].
        exists (last sorted c). split; [now apply last_In|].
        split; [reflexivity|]. now apply last_map_version_number. }
      destruct (IH (Dict.set X entry index)) as [index' [Hrun [Hout [Hnone [Hsome Hin]]]]].
      { intros Y HY. rewrite lookup_set_other.
        - apply Hfresh. now right.
        - intros ->. contradiction. }
      exists index'. split; [exact Hrun|]. repeat split.
      * intros Y HY. rewrite Hout by (intros H; apply HY; now right).
        apply lookup_set_other. intros ->. apply HY. now left.
      * intros Y [<-|HY] HcY; [congruence|now apply Hnone].
      * intros Y [<-|HY] HcY; [|now apply Hsome].
        exists entry. split; [|exact Hentry].
        rewrite Hout by exact Hnotin. apply lookup_set_same.
      * intros p Hp. destruct (Hin p Hp) as [H|[H1 H2]].
        -- apply In_set_inv in H. destruct H as [->|H]; [|now left].
           right. split; [now left|exact Hentry].
        -- right. split; [now right|exact H2].
Qed.

End FileMatcher.

Ltac errors_iff :=
  simpl; split;
  [ intros E; first [discriminate E | split; discriminate]
  | intros [H1 H2];
    first [reflexivity | exfalso; first [now apply H1 | now apply H2]] ].

Ltac shape_rhs :=
  unfold outlier_warnings, Commons.find_outliers; simpl fst; simpl snd; reflexivity.

Lemma verify_volseg_match_shape now hash_image set_order
      volumes_path vext segmentations_path sext vol_dir seg_dir :
  let ref_fnames := names_found vol_dir vext in
  let tar_fnames := names_found seg_dir sext in
  exists log errors,
    (errors = [] <-> ref_fnames <> [] /\ tar_fnames <> []) /\
    Commons.verify_volseg_match now hash_image set_order
      volumes_path vext segmentations_path sext vol_dir seg_dir
    = (volumes_index <-
         Commons.match_loop now hash_image segmentations_path sext tar_fnames
           (set_order ref_fnames) [] ;;
       Ok (log,
           if (0 <? List.length ref_fnames) && (0 <? List.length tar_fnames)
           then outlier_warnings
                  (Commons.find_outliers set_order ref_fnames tar_fnames volumes_index)
           else [],
           errors, volumes_index)).
Proof.
  unfold Commons.verify_volseg_match, names_found, Commons.search_files_in.
  destruct (is_dir vol_dir), (is_dir seg_dir); simpl fst.
  - set (ref := map _ (filter _ (walk vol_dir))).
    set (tar := map _ (filter _ (walk seg_dir))).
    destruct ref as [|r ref'], tar as [|t tar']; simpl List.length; simpl Nat.eqb;
      cbv iota; eexists _, _; (split; [|shape_rhs]); errors_iff.
  - set (ref := map _ (filter _ (walk vol_dir))).
    destruct ref as [|r ref']; simpl List.length; simpl Nat.eqb; cbv iota;
      eexists _, _; (split; [|rewrite ?andb_false_r; shape_rhs]); errors_iff.
  - set (tar := map _ (filter _ (walk seg_dir))).
    destruct tar as [|t tar']; simpl List.length; simpl Nat.eqb; cbv iota;
      eexists _, _; (split; [|shape_rhs]); errors_iff.
  - eexists _, _. (split; [|shape_rhs]). errors_iff.
Qed.

Lemma in_keys_iff k d : In k (Dict.keys d) <-> exists e, Dict.lookup k d = Some e.
Proof.
  unfold Dict.keys. induction d as [|[k' e'] d IH]; simpl.
  - split; [intros []|intros [e H]; discriminate].
  - destruct (String.eqb_spec k k') as [->|Hne].
    + split; eauto.
    + rewrite IH. split.
      * intros [H|H]; [congruence|exact H].
      * intros H. now right.
Qed.

Lemma in_all_ids seg_id d :
  In seg_id (Commons.all_ids d)
  <-> exists p, In p d /\ In seg_id (map r_id (versions (snd p))).
Proof. unfold Commons.all_ids. apply in_flat_map. Qed.

Lemma in_set_diff x a b : In x (Py.set_diff a b) <-> In x a /\ ~ In x b.
Proof.
  unfold Py.set_diff. rewrite nodup_In, filter_In.
  fold (Py.mem x b). rewrite negb_true_iff, mem_false_iff. tauto.
Qed.

Section FileMatcherCorrect.
Variables (now : string) (hash_image : string -> string).
Variable set_order : list string -> list string.
Hypothesis set_order_enumerates :
  forall l, Permutation (set_order l) (nodup string_dec l).
Variables (volumes_path vext segmentations_path sext : string).
Variables (vol_dir seg_dir : directory).

Let ref_fnames := names_found vol_dir vext.
Let tar_fnames := names_found seg_dir sext.

Hypothesis tar_without_line_feed :
  Forall (fun s => no_line_feed s = true) tar_fnames.

Let cands (vol_name : string) : list VersionRecord :=
  Commons.candidates now hash_image segmentations_path sext vol_name tar_fnames.

Lemma cands_nonempty_iff X :
  cands X <> [] <-> exists seg, In seg tar_fnames /\ names_version seg X.
Proof.
  rewrite Forall_forall in tar_without_line_feed. split.
  - intros Hne. destruct (cands X) as [|r rs] eqn:Hc; [now destruct Hne|].
    assert (Hin : In r (cands X)) by (rewrite Hc; now left).
    apply in_candidates in Hin. destruct Hin as [seg [n [Hseg [He _]]]].
    exists seg. split; [exact Hseg|].
    apply extract_version_number_matches; [now apply tar_without_line_feed|].
    congruence.
  - intros [seg [Hseg Hnv]].
    apply extract_version_number_matches in Hnv;
      [|now apply tar_without_line_feed].
    destruct (Commons.extract_version_number seg X) as [n|] eqn:He;
      [|now destruct Hnv].
    intros Hc.
    assert (Hin : In (mkVersion seg
                        (hash_image (Py.join2 segmentations_path (seg +++ sext)))
                        now "" "" [] ("v" +++ Py.str_nat n) now) (cands X)).
    { apply in_candidates. exists seg, n. auto. }
    rewrite Hc in Hin. destruct Hin.
Qed.

Lemma matched_entry_records X e :
  matched_entry now hash_image segmentations_path sext tar_fnames X e ->
  (forall seg, In seg (map r_id (versions e))
               <-> In seg tar_fnames /\ names_version seg X)
  /\
  (forall r, In r (versions e) ->
     exists digits n,
       r_id r = X +++ "-v" +++ digits /\ Py.isdigit digits = true /\
       Py.int digits = Some n /\ r_version r = "v" +++ Py.str_nat n /\
       r_author r = "" /\ r_notes r = "" /\ r_tags r = []).
Proof.
  rewrite Forall_forall in tar_without_line_feed.
  intros [_ [Hperm _]]. split.
  - intros seg. rewrite in_map_iff. split.
    + intros [r [Hid Hr]]. apply (Permutation_in _ Hperm) in Hr.
      apply in_candidates in Hr. destruct Hr as [s [n [Hs [He ->]]]].
      simpl in Hid. subst s. split; [exact Hs|].
      apply extract_version_number_matches; [now apply tar_without_line_feed|].
      congruence.
    + intros [Hseg Hnv].
      apply extract_version_number_matches in Hnv;
        [|now apply tar_without_line_feed].
      destruct (Commons.extract_version_number seg X) as [n|] eqn:He;
        [|now destruct Hnv].
      eexists. split; [|apply (Permutation_in _ (Permutation_sym Hperm));
                         apply in_candidates; exists seg, n; eauto].
      reflexivity.
  - intros r Hr. apply (Permutation_in _ Hperm) in Hr.
    apply in_candidates in Hr. destruct Hr as [s [n [Hs [He ->]]]].
    apply extract_version_number_spec in He; [|now apply tar_without_line_feed].
    destruct He as [digits [Hd [Heq Hint]]].
    exists digits, n. simpl. repeat split; auto.
Qed.

Lemma matched_entry_order X e :
  matched_entry now hash_image segmentations_path sext tar_fnames X e ->
  (exists nums, map version_number (versions e) = map Some nums /\ Sorted le nums)
  /\
  (exists r n,
     In r (versions e) /\ selected_version e = Some (r_version r) /\
     version_number r = Some n /\
     forall r' n', In r' (versions e) -> version_number r' = Some n' -> n' <= n).
Proof.
  intros [_ [_ [nums [Hnums [Hsorted [r [Hr [Hsel Hlast]]]]]]]]. split.
  - now exists nums.
  - exists r, (last nums 0). repeat split; auto.
    intros r' n' Hr' Hn'. apply sorted_last_is_max; [exact Hsorted|].
    assert (Hin : In (Some n') (map Some nums)).
    { rewrite <- Hnums, <- Hn'. now apply in_map. }
    apply in_map_iff in Hin. destruct Hin as [k [[= ->] Hk]]. exact Hk.
Qed.

(** The matcher on names without line feed: it returns, the index holds
    exactly the volumes that have a matching segmentation, each with the
    entry described above, and when both sides are non-empty the warnings
    list exactly the volumes without match and the segmentations without
    volume. *)
Lemma verify_volseg_match_result :
  exists log warnings errors index,
    Commons.verify_volseg_match now hash_image set_order
      volumes_path vext segmentations_path sext vol_dir seg_dir
    = Ok (log, warnings, errors, index) /\
    NoDup (Dict.keys index) /\
    (forall X, In X (Dict.keys index)
               <-> In X ref_fnames
                   /\ exists seg, In seg tar_fnames /\ names_version seg X) /\
    (forall X e, Dict.lookup X index = Some e ->
       matched_entry now hash_image segmentations_path sext tar_fnames X e) /\
    (ref_fnames <> [] -> tar_fnames <> [] ->
       errors = [] /\
       (forall X,
          (exists names, In (VolumesWithoutSegmentation names) warnings /\ In X names)
          <-> In X ref_fnames
              /\ ~ exists seg, In seg tar_fnames /\ names_version seg X) /\
       (forall seg,
          (exists names, In (SegmentationsWithoutVolume names) warnings /\ In seg names)
          <-> In seg tar_fnames
              /\ ~ exists X, In X ref_fnames /\ names_version seg X)) /\
    (ref_fnames = [] \/ tar_fnames = [] -> warnings = [] /\ errors <> []).
Proof.
  destruct (verify_volseg_match_shape now hash_image set_order
              volumes_path vext segmentations_path sext vol_dir seg_dir)
    as [log [errors [Herr Hshape]]].
  fold ref_fnames tar_fnames in Herr, Hshape.
  destruct (match_loop_spec now hash_image segmentations_path sext tar_fnames
              (set_order ref_fnames) (NoDup_set_order set_order set_order_enumerates _)
              [] (fun _ _ => eq_refl))
    as [index [Hrun [Hout [Hnone [Hsome Hin]]]]].
  fold cands in Hnone, Hsome.
  rewrite Hrun in Hshape. simpl bind in Hshape.
  assert (Hkeys : forall X, In X (Dict.keys index)
                            <-> In X ref_fnames
                                /\ exists seg, In seg tar_fnames /\ names_version seg X).
  { intros X. rewrite in_keys_iff, <- cands_nonempty_iff.
    rewrite <- (in_set_order set_order set_order_enumerates X ref_fnames).
    split.
    - intros [e He].
      destruct (in_dec string_dec X (set_order ref_fnames)) as [HX|HX].
      + split; [exact HX|]. intros Hc. rewrite (Hnone X HX Hc) in He. discriminate.
      + rewrite (Hout X HX) in He. discriminate.
    - intros [HX Hc]. destruct (Hsome X HX Hc) as [e [He _]]. eauto. }
  assert (Hentries : forall X e, Dict.lookup X index = Some e ->
            matched_entry now hash_image segmentations_path sext tar_fnames X e).
  { intros X e He. apply lookup_In in He. destruct (Hin _ He) as [[]|[_ H]].
    exact H. }
  assert (Hids : forall seg, In seg (Commons.all_ids index)
                             <-> In seg tar_fnames
                                 /\ exists X, In X ref_fnames /\ names_version seg X).
  { intros seg. rewrite in_all_ids. split.
    - intros [[X e] [Hp Hseg]]. simpl in Hseg.
      destruct (Hin _ Hp) as [[]|[HX Hme]]. simpl in HX, Hme.
      apply (matched_entry_records X e Hme) in Hseg. destruct Hseg as [Hs Hnv].
      split; [exact Hs|]. exists X. split; [|exact Hnv].
      now apply (in_set_order set_order set_order_enumerates).
    - intros [Hs [X [HX Hnv]]].
      assert (Hk : In X (Dict.keys index)) by (apply Hkeys; eauto).
      apply in_keys_iff in Hk. destruct Hk as [e He].
      exists (X, e). split; [now apply lookup_In|]. simpl.
      apply (matched_entry_records X e (Hentries X e He)). auto. }
  assert (Hnodup : NoDup (Dict.keys index)).
  { clear -Hin set_order_enumerates Hrun.
    pose proof (NoDup_set_order set_order set_order_enumerates ref_fnames) as Hnd.
    revert Hrun Hnd. generalize (set_order ref_fnames).
    assert (Hgen : forall names idx idx',
               NoDup names -> NoDup (Dict.keys idx) ->
               (forall X, In X names -> ~ In X (Dict.keys idx)) ->
               Commons.match_loop now hash_image segmentations_path sext tar_fnames
                 names idx = Ok idx' ->
               NoDup (Dict.keys idx')).
    { induction names as [|X rest IH]; intros idx idx' Hnd Hidx Hfresh Hrun;
        simpl in Hrun.
      - now injection Hrun as <-.
      - inversion Hnd as [|? ? Hnotin Hrest]; subst.
        destruct (Commons.candidates _ _ _ _ X tar_fnames) as [|c cs].
        + apply (IH idx idx'); auto. intros Y HY. apply Hfresh. now right.
        + destruct (Commons.sort_versions (c :: cs)) as [sorted|]; [|discriminate].
          simpl in Hrun. apply (IH _ idx' Hrest) in Hrun; auto.
          * assert (Hset : forall e d, ~ In X (Dict.keys d) ->
                              Dict.set X e d = d ++ [(X, e)]).
            { intros e d. induction d as [|[k' e'] d IHd]; simpl; intros Hd; auto.
              destruct (String.eqb_spec X k') as [->|Hne]; [tauto|].
              rewrite IHd; tauto. }
            rewrite Hset by (apply Hfresh; now left).
            unfold Dict.keys. rewrite map_app. simpl.
            apply NoDup_app; [exact Hidx|repeat constructor; intros []|].
            intros k Hk [Heq|[]]. subst k. apply (Hfresh X); [now left|exact Hk].
          * intros Y HY HYk. apply in_keys_iff in HYk. destruct HYk as [e He].
            destruct (String.eqb_spec Y X) as [->|Hne]; [contradiction|].
            rewrite lookup_set_other in He by auto.
            apply (Hfresh Y); [now right|]. apply in_keys_iff. eauto. }
    intros names Hrun Hnd. eapply Hgen; eauto; [constructor|]. intros X _ []. }
  eexists log, _, errors, index. split; [exact Hshape|].
  split; [exact Hnodup|]. split; [exact Hkeys|]. split; [exact Hentries|]. split.
  - intros Href Htar.
    assert (Hboth : (0 <? List.length ref_fnames) && (0 <? List.length tar_fnames)
                    = true).
    { destruct ref_fnames; [now destruct Href|].
      destruct tar_fnames; [now destruct Htar|]. reflexivity. }
    rewrite Hboth. split; [now apply Herr|].
    unfold outlier_warnings, Commons.find_outliers. simpl fst. simpl snd.
    set (only_ref := set_order (Py.set_diff ref_fnames (Dict.keys index))).
    set (only_tar := set_order (Py.set_diff tar_fnames (Commons.all_ids index))).
    assert (Href_in : forall X, In X only_ref
                         <-> In X ref_fnames
                             /\ ~ exists seg, In seg tar_fnames /\ names_version seg X).
    { intros X. unfold only_ref.
      rewrite (in_set_order set_order set_order_enumerates), in_set_diff, Hkeys.
      tauto. }
    assert (Htar_in : forall seg, In seg only_tar
                         <-> In seg tar_fnames
                             /\ ~ exists X, In X ref_fnames /\ names_version seg X).
    { intros seg. unfold only_tar.
      rewrite (in_set_order set_order set_order_enumerates), in_set_diff, Hids.
      tauto. }
    split.
    + intros X. rewrite <- Href_in. split.
      * intros [names [Hw HX]]. apply in_app_or in Hw. destruct Hw as [Hw|Hw].
        -- destruct only_ref; [destruct Hw|].
           destruct Hw as [[= <-]|[]]. exact HX.
        -- destruct only_tar; [destruct Hw|]. destruct Hw as [Hw|[]]. discriminate.
      * intros HX. exists only_ref. split; [|exact HX].
        apply in_or_app. left. destruct only_ref; [destruct HX|now left].
    + intros seg. rewrite <- Htar_in. split.
      * intros [names [Hw HX]]. apply in_app_or in Hw. destruct Hw as [Hw|Hw].
        -- destruct only_ref; [destruct Hw|]. destruct Hw as [Hw|[]]. discriminate.
        -- destruct only_tar; [destruct Hw|].
           destruct Hw as [[= <-]|[]]. exact HX.
      * intros HX. exists only_tar. split; [|exact HX].
        apply in_or_app. right. destruct only_tar; [destruct HX|now left].
  - intros Hempty.
    assert (Hboth : (0 <? List.length ref_fnames) && (0 <? List.length tar_fnames)
                    = false).
    { destruct Hempty as [-> | ->]; simpl; [reflexivity|apply andb_false_r]. }
    rewrite Hboth. split; [reflexivity|].
    intros He. apply Herr in He. destruct He as [H1 H2].
    destruct Hempty; contradiction.
Qed.

End FileMatcherCorrect.

(** The matching by name, on ASCII segmentation names without line feed
    and for any iteration order of the sets: [verify_volseg_match] returns;
    a volume X
    is in the index exactly when some segmentation name is X, [-v] and one
    or more digits with nothing after; its entry holds exactly the
    segmentations of that form, each with the token v and the value of its
    digits, sorted by ascending number, and its selection is a token of
    highest number.  When both sides have at least one name, the volumes
    without such a segmentation are exactly those listed in the
    without-segmentation warning, the segmentations of that form for no
    volume exactly those listed in the without-volume warning, and neither
    is in the index; when a side is empty there is an error and no
    warning.  For volumes A, B and segmentations A-v1, A-v2, C-v1 the index
    holds A alone, with v1, v2 and v2 selected, B is warned without
    segmentation and C-v1 without volume. *)
Theorem verify_volseg_match_matches_by_name :
  (forall now hash_image set_order volumes_path vext segmentations_path sext
          vol_dir seg_dir,
     (forall l, Permutation (set_order l) (nodup string_dec l)) ->
     Forall (fun s => Py.isascii s = true) (walk seg_dir) ->
     let ref_fnames := names_found vol_dir vext in
     let tar_fnames := names_found seg_dir sext in
     Forall (fun s => no_line_feed s = true) tar_fnames ->
     exists log warnings errors index,
       Commons.verify_volseg_match now hash_image set_order
         volumes_path vext segmentations_path sext vol_dir seg_dir
       = Ok (log, warnings, errors, index) /\
       NoDup (Dict.keys index) /\
       (forall X, In X (Dict.keys index)
                  <-> In X ref_fnames
                      /\ exists seg, In seg tar_fnames /\ names_version seg X) /\
       (forall X e, Dict.lookup X index = Some e ->
          (forall seg, In seg (map r_id (versions e))
                       <-> In seg tar_fnames /\ names_version seg X) /\
          (forall r, In r (versions e) ->
             exists digits n,
               r_id r = X +++ "-v" +++ digits /\ Py.isdigit digits = true /\
               Py.int digits = Some n /\ r_version r = "v" +++ Py.str_nat n /\
               r_author r = "" /\ r_notes r = "" /\ r_tags r = []) /\
          (exists nums,
             map version_number (versions e) = map Some nums /\ Sorted le nums) /\
          (exists r n,
             In r (versions e) /\ selected_version e = Some (r_version r) /\
             version_number r = Some n /\
             forall r' n', In r' (versions e) -> version_number r' = Some n' ->
                           n' <= n)) /\
       (ref_fnames <> [] -> tar_fnames <> [] ->
          errors = [] /\
          (forall X,
             (exists names,
                In (VolumesWithoutSegmentation names) warnings /\ In X names)
             <-> In X ref_fnames
                 /\ ~ exists seg, In seg tar_fnames /\ names_version seg X) /\
          (forall seg,
             (exists names,
                In (SegmentationsWithoutVolume names) warnings /\ In seg names)
             <-> In seg tar_fnames
                 /\ ~ exists X, In X ref_fnames /\ names_version seg X)) /\
       (ref_fnames = [] \/ tar_fnames = [] -> warnings = [] /\ errors <> []))
  /\
  (forall now,
     Commons.verify_volseg_match now (fun path => path) (nodup string_dec)
       "/data/volumes" ".nii" "/data/labels" ".nii" volumes_A_B labels_A_A_C
     = Ok ([VolumesFound 2 "/data/volumes"; SegmentationsFound 3 "/data/labels"],
           [VolumesWithoutSegmentation ["B"]; SegmentationsWithoutVolume ["C-v1"]],
           [],
           [("A", mkEntry (Some "v2")
                    [matched_record now "A-v1" "v1"; matched_record now "A-v2" "v2"])])).
Proof.
  split.
  - intros now hash_image set_order volumes_path vext segmentations_path sext
           vol_dir seg_dir Hso _ ref_fnames tar_fnames Hnl.
    destruct (verify_volseg_match_result now hash_image set_order Hso
                volumes_path vext segmentations_path sext vol_dir seg_dir Hnl)
      as [log [warnings [errors [index [Hrun [Hnd [Hkeys [Hent [Hwarn Herr]]]]]]]]].
    exists log, warnings, errors, index.
    split; [exact Hrun|]. split; [exact Hnd|]. split; [exact Hkeys|].
    split; [|split; [exact Hwarn|exact Herr]].
    intros X e He. specialize (Hent X e He).
    destruct (matched_entry_records now hash_image segmentations_path sext seg_dir
                Hnl X e Hent) as [Hids Hrecs].
    destruct (matched_entry_order now hash_image segmentations_path sext seg_dir
                X e Hent) as [Hsorted Hsel].
    split; [exact Hids|]. split; [exact Hrecs|]. split; [exact Hsorted|exact Hsel].
  - intros now. vm_compute. reflexivity.
Qed.

Lemma verify_volseg_match_matches_by_name_witness :
  exists log warnings errors index,
    Commons.verify_volseg_match "2025-06-01T00:00:00Z" (fun path => path)
      (nodup string_dec) "/data/volumes" ".nii" "/data/labels" ".nii"
      volumes_A_B labels_A_A_C
    = Ok (log, warnings, errors, index)
    /\ (In "A" (Dict.keys index) /\ ~ In "B" (Dict.keys index)).
Proof.
  assert (Hso : forall l, Permutation (nodup string_dec l) (nodup string_dec l))
    by reflexivity.
  assert (Hnl : Forall (fun s => no_line_feed s = true)
                       (names_found labels_A_A_C ".nii"))
    by (repeat constructor).
  assert (Hascii : Forall (fun s => Py.isascii s = true) (walk labels_A_A_C))
    by (repeat constructor).
  destruct (proj1 verify_volseg_match_matches_by_name
              "2025-06-01T00:00:00Z" (fun path => path) (nodup string_dec)
              "/data/volumes" ".nii" "/data/labels" ".nii"
              volumes_A_B labels_A_A_C Hso Hascii Hnl)
    as [log [warnings [errors [index [Hrun [_ [Hkeys _]]]]]]].
  exists log, warnings, errors, index. split; [exact Hrun|]. split.
  - apply Hkeys. split; [simpl; auto|].
    exists "A-v1". split; [simpl; auto|]. exists "1". split; reflexivity.
  - intros HB. apply Hkeys in HB. destruct HB as [_ [seg [Hseg [digits [_ Heq]]]]].
    simpl in Hseg. destruct Hseg as [<-|[<-|[<-|[]]]]; discriminate.
Defined.

(** C7. The matcher accepts a name with a character after the digits: the
    anchor [$] of its pattern also matches just before a line feed that
    ends the string.  With the volume A and a segmentation file whose base
    name is A-v1 followed by a line feed, which is not A-v<digits>, the
    index holds A with that file as version v1, selected, and there is no
    warning: neither A as without segmentation nor the file as without
    volume. *)
Theorem verify_volseg_match_accepts_final_line_feed :
  Commons.verify_volseg_match "2025-06-01T00:00:00Z" (fun path => path)
    (nodup string_dec) "/data/volumes" ".nii" "/data/labels" ".nii"
    (mkDir true ["A.nii"]) labels_line_feed
  = Ok ([VolumesFound 1 "/data/volumes"; SegmentationsFound 1 "/data/labels"],
        [], [],
        [("A", mkEntry (Some "v1")
                 [matched_record "2025-06-01T00:00:00Z"
                    ("A-v1" +++ Commons.newline) "v1"])])
  /\ names_found labels_line_feed ".nii" = ["A-v1" +++ Commons.newline]
  /\ ~ names_version ("A-v1" +++ Commons.newline) "A".
Proof.
  split; [vm_compute; reflexivity|]. split; [reflexivity|].
  intros [digits [Hd Heq]]. injection Heq as <-. discriminate Hd.
Qed.

(** The index of the matcher is of the data model: I2 holds and the tokens
    are of the form vN. *)
Lemma verify_volseg_match_index_ok now hash_image set_order
      volumes_path vext segmentations_path sext vol_dir seg_dir
      log warnings errors index :
  (forall l, Permutation (set_order l) (nodup string_dec l)) ->
  Forall (fun s => no_line_feed s = true) (names_found seg_dir sext) ->
  Commons.verify_volseg_match now hash_image set_order
    volumes_path vext segmentations_path sext vol_dir seg_dir
  = Ok (log, warnings, errors, index) ->
  forall X e, Dict.lookup X index = Some e -> entry_ok e.
Proof.
  intros Hso Hnl Hrun X e He.
  destruct (verify_volseg_match_result now hash_image set_order Hso
              volumes_path vext segmentations_path sext vol_dir seg_dir Hnl)
    as [log' [warnings' [errors' [index' [Hrun' [_ [_ [Hent _]]]]]]]].
  rewrite Hrun in Hrun'. injection Hrun' as _ _ _ <-.
  specialize (Hent X e He).
  destruct (matched_entry_records now hash_image segmentations_path sext seg_dir
              Hnl X e Hent) as [_ Hrecs].
  destruct (matched_entry_order now hash_image segmentations_path sext seg_dir
              X e Hent) as [_ [r [n [Hr [Hsel _]]]]].
  split.
  - unfold I2. rewrite Hsel. unfold tokens. now apply in_map.
  - apply Forall_forall. intros r' Hr'.
    destruct (Hrecs r' Hr') as [digits [k [_ [_ [_ [Hv _]]]]]]. now exists k.
Qed.

(** ** Export *)

Lemma lookup_of_In d k e :
  NoDup (Dict.keys d) -> In (k, e) d -> Dict.lookup k d = Some e.
Proof.
  induction d as [|[k' e'] d IH]; simpl; intros Hnd Hin; [destruct Hin|].
  inversion Hnd as [|? ? Hnotin Hnd']; subst.
  destruct Hin as [[= -> ->]|Hin].
  - now rewrite String.eqb_refl.
  - destruct (String.eqb_spec k k') as [->|Hne]; [|auto].
    exfalso. apply Hnotin. unfold Dict.keys. apply in_map_iff.
    exists (k', e). auto.
Qed.

Lemma map_flat_map_keys {T U : Type} (g : T -> U) (f : string -> list T)
      (h : string * VolumeEntry -> list U) (d : volumes) :
  (forall p, In p d -> map g (f (fst p)) = h p) ->
  map g (flat_map f (Dict.keys d)) = flat_map h d.
Proof.
  induction d as [|p d IH]; intros H; simpl; [reflexivity|].
  rewrite map_app, IH by (intros q Hq; apply H; now right).
  now rewrite H by now left.
Qed.

Lemma export_rows_of_tuples segver_directory m :
  NoDup (Dict.keys (vols m)) ->
  map (fun t : string * string * string =>
         let '(_, vfname, sfname) := t in
         Py.rstrip vfname +++ "," +++ Py.rstrip sfname +++ Commons.newline)
      (Manifest.get_volume_seg_tuples m segver_directory)
  = path_rows segver_directory m.
Proof.
  intros Hnd. unfold Manifest.get_volume_seg_tuples, path_rows.
  apply map_flat_map_keys. intros [k e] Hp.
  unfold Manifest.get_selected_version. cbn [fst snd].
  rewrite (lookup_of_In _ _ _ Hnd Hp).
  destruct (selected_version e) as [sel|]; [|reflexivity].
  unfold Py.truthy. destruct (sel == ""); reflexivity.
Qed.

Lemma length_flat_map_filter {T U : Type} (f : T -> list U) (c : T -> bool)
      (d : list T) :
  (forall p, List.length (f p) = if c p then 1 else 0) ->
  List.length (flat_map f d) = List.length (filter c d).
Proof.
  intros H. induction d as [|p d IH]; simpl; [reflexivity|].
  rewrite length_app, IH, H. now destruct (c p).
Qed.

Lemma path_rows_count segver_directory m :
  List.length (path_rows segver_directory m)
  = List.length (filter (fun p => Py.truthy (selected_version (snd p))) (vols m)).
Proof.
  unfold path_rows. apply length_flat_map_filter. intros [k e]. cbn [fst snd].
  destruct (selected_version e) as [sel|]; [|reflexivity].
  unfold Py.truthy. destruct (sel == ""); reflexivity.
Qed.

(** C6, as amended.  [export_index] fails, and writes nothing, when the
    directory of the target does not exist, when the target's name does not
    end in .csv (in any letter case), or when no subject has a selection
    that is present and not empty; otherwise it writes the header row
    [VOLUME FILE,SEGMENTATION FILE] and one row per such subject, in the
    order of the manifest, whose fields are the PATHS of the volume file
    and of the selected segmentation's file - the instance directory joined
    with the configured directory and [<subject><ext>], respectively
    [<subject>-<selected><ext>], trailing white space removed - not bare
    file names. *)
Theorem export_index_writes_paths :
  forall segver_directory active_index isdir writable output_csv_path full_path m,
    NoDup (Dict.keys (vols m)) ->
    let dir_ok := isdir (Py.dirname full_path) in
    let csv_ok := Py.endswith (Py.lower (Py.basename full_path)) ".csv" in
    let rows := path_rows segver_directory m in
    (dir_ok = false \/ csv_ok = false \/ rows = [] ->
     exists message,
       KomsService.export_index segver_directory active_index isdir writable
         output_csv_path full_path m
       = Raise (SegVerException message)) /\
    (dir_ok = true -> csv_ok = true -> rows <> [] -> writable = true ->
     KomsService.export_index segver_directory active_index isdir writable
       output_csv_path full_path m
     = Ok ([Exporting (List.length rows) active_index; ExportedTo output_csv_path],
           csv_header :: rows)) /\
    List.length rows
    = List.length (filter (fun p => Py.truthy (selected_version (snd p))) (vols m)).
Proof.
  intros root active isdir writable out full m Hnd dir_ok csv_ok rows.
  pose proof (export_rows_of_tuples root m Hnd) as Hrows. fold rows in Hrows.
  split; [|split; [|apply path_rows_count]].
  - intros Hfail. unfold KomsService.export_index, Commons.validate_csv_path.
    fold dir_ok csv_ok.
    destruct dir_ok; simpl; [|eauto].
    destruct csv_ok; simpl; [|eauto].
    destruct Hfail as [H|[H|H]]; try discriminate.
    rewrite H in Hrows.
    destruct (Manifest.get_volume_seg_tuples m root); [eauto|discriminate].
  - intros Hd Hc Hne Hw. unfold KomsService.export_index, Commons.validate_csv_path.
    fold dir_ok csv_ok. rewrite Hd, Hc, Hw. simpl.
    destruct (Manifest.get_volume_seg_tuples m root) as [|t ts] eqn:Ht.
    + simpl in Hrows. now destruct Hne.
    + rewrite <- Hrows. f_equal. f_equal. f_equal. now rewrite length_map.
Qed.

Lemma export_index_writes_paths_witness :
  KomsService.export_index "/data" "index" (fun d => d == "/out") true
    "/out/pairs.csv" "/out/pairs.csv" two_versions
  = Ok ([Exporting 1 "index"; ExportedTo "/out/pairs.csv"],
        [csv_header;
         "/data/volumes/A.nii,/data/labels/A-v2.nii" +++ Commons.newline]).
Proof.
  assert (Hnd : NoDup (Dict.keys (vols two_versions))).
  { simpl. constructor; [intros []|constructor]. }
  apply (proj1 (proj2 (export_index_writes_paths "/data" "index"
                         (fun d => d == "/out") true
                         "/out/pairs.csv" "/out/pairs.csv" two_versions Hnd)));
    try reflexivity.
  discriminate.
Defined.

(** The rows written for a manifest below /data are not the bare file
    names. *)
Lemma export_index_rows_are_not_bare :
  exists log lines,
    KomsService.export_index "/data" "index" (fun d => d == "/out") true
      "/out/pairs.csv" "/out/pairs.csv" two_versions
    = Ok (log, lines)
    /\ bare_filename_rows two_versions = ["A.nii,A-v2.nii" +++ Commons.newline]
    /\ lines <> csv_header :: bare_filename_rows two_versions.
Proof.
  do 2 eexists. split; [vm_compute; reflexivity|].
  split; [reflexivity|]. vm_compute. discriminate.
Qed.

(** ** Reconciliation on canonically named records *)

Lemma with_versions_same e : with_versions e (versions e) = e.
Proof. now destruct e. Qed.

Lemma keys_set_existing k e d :
  Dict.has k d = true -> Dict.keys (Dict.set k e d) = Dict.keys d.
Proof.
  unfold Dict.has, Dict.keys. induction d as [|[k' e'] d IH]; simpl; [discriminate|].
  destruct (k == k') eqn:E; simpl; [reflexivity|].
  intros H. now rewrite IH.
Qed.

Lemma set_same k e d : Dict.lookup k d = Some e -> Dict.set k e d = d.
Proof.
  induction d as [|[k' e'] d IH]; simpl; [discriminate|].
  destruct (k == k') eqn:E.
  - now intros [= ->].
  - intros H. now rewrite IH.
Qed.

Lemma in_seg_ids seg_id m :
  In seg_id (Commons.seg_ids m)
  <-> exists k e r,
        Dict.lookup k (vols m) = Some e /\ In r (versions e) /\ r_id r = seg_id.
Proof.
  unfold Commons.seg_ids, Manifest.get_all_versions. rewrite in_flat_map. split.
  - intros [k [Hk Hin]]. apply in_keys_iff in Hk. destruct Hk as [e He].
    rewrite He in Hin. apply in_map_iff in Hin. destruct Hin as [r [Hr Hin]].
    exists k, e, r. auto.
  - intros [k [e [r [He [Hr Hid]]]]]. exists k. split.
    + apply in_keys_iff. eauto.
    + rewrite He. apply in_map_iff. eauto.
Qed.

Lemma nothing_in_nil {A} (l : list A) : (forall x, ~ In x l) -> l = [].
Proof. destruct l as [|x l]; [reflexivity|]. intros H. destruct (H x). now left. Qed.

Lemma get_all_version_strings_lookup m k e :
  Dict.lookup k (vols m) = Some e -> Manifest.get_all_version_strings m k = tokens e.
Proof.
  intros H. unfold Manifest.get_all_version_strings, Manifest.get_all_versions,
    Dict.has. now rewrite H.
Qed.

Section Reconciliation.
Variable set_order : list string -> list string.
Hypothesis set_order_enumerates :
  forall l, Permutation (set_order l) (nodup string_dec l).

Lemma set_order_empty a b :
  (forall x, In x a -> In x b) -> set_order (Py.set_diff a b) = [].
Proof.
  intros H. apply nothing_in_nil. intros x Hx.
  apply -> (in_set_order set_order set_order_enumerates) in Hx.
  apply in_set_diff in Hx. destruct Hx as [Ha Hb]. auto.
Qed.

(** When the manifest already agrees with the index, [update_index] changes
    nothing and logs nothing. *)
Lemma update_index_noop m new_manifest :
  agrees m new_manifest ->
  Commons.update_index set_order m new_manifest = Ok ([], [], [], m).
Proof.
  intros [Hkeys [Htokens Hids]]. unfold Commons.update_index.
  assert (Hmerge : Commons.merge_loop m new_manifest [] = (m, [])).
  { unfold Commons.merge_loop.
    assert (Hgen : forall items,
               (forall p, In p items -> In p (vols new_manifest)) ->
               fold_left Commons.merge_step items (m, []) = (m, [])).
    { induction items as [|[k nd] items IH]; intros Hsub; [reflexivity|].
      cbn [fold_left].
      assert (Hstep : Commons.merge_step (m, []) (k, nd) = (m, [])).
      { unfold Commons.merge_step.
        assert (Hhas : Dict.has k (vols m) = true).
        { apply has_true_iff, in_keys_iff, Hkeys. unfold Dict.keys.
          apply in_map_iff. exists (k, nd). split; [reflexivity|].
          apply Hsub. now left. }
        rewrite Hhas. simpl negb. cbv iota.
        assert (Hin : forall r, In r (versions nd) ->
                  Py.mem (r_version r) (Manifest.get_all_version_strings m k) = true).
        { intros r Hr. apply mem_true_iff. eapply Htokens; eauto.
          apply Hsub. now left. }
        revert Hin. generalize (Manifest.get_all_version_strings m k).
        induction (versions nd) as [|v vs IHv]; intros ex Hin; [reflexivity|].
        simpl. rewrite (Hin v) by now left. simpl. apply IHv.
        intros r Hr. apply Hin. now right. }
      rewrite Hstep. apply IH. intros p Hp. apply Hsub. now right. }
    apply Hgen. auto. }
  rewrite Hmerge.
  rewrite set_order_empty by (intros k Hk; now apply Hkeys).
  simpl.
  rewrite set_order_empty by exact Hids.
  reflexivity.
Qed.

End Reconciliation.

Lemma lookup_not_in_keys k d : ~ In k (Dict.keys d) -> Dict.lookup k d = None.
Proof.
  intros H. destruct (Dict.lookup k d) as [e|] eqn:E; [|reflexivity].
  exfalso. apply H. apply in_keys_iff. eauto.
Qed.

Lemma append_version_lookup m k v e :
  Dict.lookup k (vols m) = Some e ->
  Dict.lookup k (vols (Commons.append_version m k v))
  = Some (with_versions e (versions e ++ [v]))
  /\ forall k', k' <> k ->
       Dict.lookup k' (vols (Commons.append_version m k v)) = Dict.lookup k' (vols m).
Proof.
  intros H. unfold Commons.append_version. rewrite H. simpl. split.
  - apply lookup_set_same.
  - intros k' Hne. now apply lookup_set_other.
Qed.

Lemma merge_inner_lookup k ex vs :
  forall m log e,
    Dict.lookup k (vols m) = Some e ->
    let st :=
      fold_left
        (fun (st' : manifest * list msg) version =>
           if negb (Py.mem (r_version version) ex)
           then (Commons.append_version (fst st') k version,
                 snd st' ++ [AddedVersion (r_version version) k])
           else st')
        vs (m, log) in
    Dict.lookup k (vols (fst st))
    = Some (with_versions e
              (versions e ++ filter (fun v => negb (Py.mem (r_version v) ex)) vs))
    /\ forall k', k' <> k ->
         Dict.lookup k' (vols (fst st)) = Dict.lookup k' (vols m).
Proof.
  induction vs as [|v vs IH]; intros m log e He; simpl.
  - rewrite app_nil_r, with_versions_same. auto.
  - destruct (negb (Py.mem (r_version v) ex)); simpl.
    + destruct (append_version_lookup m k v e He) as [Hk Hother].
      destruct (IH _ (log ++ [AddedVersion (r_version v) k]) _ Hk) as [Hk' Hother'].
      split.
      * rewrite Hk'. simpl. now rewrite <- app_assoc.
      * intros k' Hne. rewrite Hother' by auto. now apply Hother.
    + now apply IH.
Qed.

Lemma merge_step_lookup st k0 nd0 k :
  Dict.lookup k (vols (fst (Commons.merge_step st (k0, nd0))))
  = if k == k0
    then merged_entry (Dict.lookup k0 (vols (fst st))) (Some nd0)
    else Dict.lookup k (vols (fst st)).
Proof.
  destruct st as [m log]. unfold Commons.merge_step. cbn [fst].
  destruct (Dict.lookup k0 (vols m)) as [e|] eqn:He.
  - assert (Hhas : Dict.has k0 (vols m) = true) by (apply has_true_iff; eauto).
    rewrite Hhas. cbn [negb].
    rewrite (get_all_version_strings_lookup m k0 e He).
    destruct (merge_inner_lookup k0 (tokens e) (versions nd0) m log e He)
      as [Hk Hother].
    destruct (String.eqb_spec k k0) as [->|Hne].
    + exact Hk.
    + now apply Hother.
  - assert (Hhas : Dict.has k0 (vols m) = false) by now apply has_false_iff.
    rewrite Hhas. cbn [negb fst vols with_vols].
    destruct (String.eqb_spec k k0) as [->|Hne].
    + apply lookup_set_same.
    + now apply lookup_set_other.
Qed.

Lemma merge_loop_lookup m new_manifest log k :
  NoDup (Dict.keys (vols new_manifest)) ->
  Dict.lookup k (vols (fst (Commons.merge_loop m new_manifest log)))
  = merged_entry (Dict.lookup k (vols m)) (Dict.lookup k (vols new_manifest)).
Proof.
  unfold Commons.merge_loop.
  change (vols m) with (vols (fst (m, log))). generalize (m, log).
  induction (vols new_manifest) as [|[k0 nd0] items IH]; intros st Hnd.
  - simpl. now destruct (Dict.lookup k (vols (fst st))).
  - inversion Hnd as [|? ? Hnotin Hnd']; subst.
    cbn [fold_left]. rewrite IH by exact Hnd'.
    rewrite merge_step_lookup. simpl Dict.lookup.
    destruct (String.eqb_spec k k0) as [->|Hne]; [|reflexivity].
    rewrite (lookup_not_in_keys k0 items Hnotin).
    destruct (Dict.lookup k0 (vols (fst st))); reflexivity.
Qed.

Lemma remove_volume_lookup m k0 k :
  Dict.lookup k (vols (Manifest.remove_volume m k0))
  = if k == k0 then None else Dict.lookup k (vols m).
Proof.
  unfold Manifest.remove_volume. destruct (Dict.has k0 (vols m)) eqn:Hhas; simpl.
  - destruct (String.eqb_spec k k0) as [->|Hne].
    + apply lookup_del_same.
    + now apply lookup_del_other.
  - destruct (String.eqb_spec k k0) as [->|Hne]; [|reflexivity].
    now apply has_false_iff.
Qed.

Lemma remove_volumes_loop_lookup removed m log k :
  Dict.lookup k (vols (fst (Commons.remove_volumes_loop removed m log)))
  = if Py.mem k removed then None else Dict.lookup k (vols m).
Proof.
  unfold Commons.remove_volumes_loop.
  change (vols m) with (vols (fst (m, log))). generalize (m, log).
  induction removed as [|k0 removed IH]; intros st; [reflexivity|].
  cbn [fold_left]. rewrite IH. cbn [fst]. rewrite remove_volume_lookup.
  unfold Py.mem. simpl existsb.
  destruct (k == k0); simpl; [|reflexivity].
  now destruct (existsb (String.eqb k) removed).
Qed.

(** *** Names decompose in one way *)

Lemma last_char_append a b : b <> "" -> last_char (a +++ b) = last_char b.
Proof.
  intros Hb. induction a as [|c a IH]; [reflexivity|].
  simpl. destruct (a +++ b) eqn:E; [|exact IH].
  destruct a; [|discriminate]. simpl in E. now destruct Hb.
Qed.

Lemma last_char_all f s c :
  Py.all_chars f s = true -> last_char s = Some c -> f c = true.
Proof.
  induction s as [|x s IH]; simpl; [discriminate|].
  intros H Hl. apply andb_true_iff in H. destruct H as [Hx Hs].
  destruct s; [now injection Hl as <-|auto].
Qed.

Lemma substring_split s a :
  a <= String.length s ->
  s = substring 0 a s +++ substring a (String.length s - a) s.
Proof.
  revert a. induction s as [|c s IH]; intros a Ha; simpl in *.
  - destruct a; [reflexivity|lia].
  - destruct a as [|a]; simpl.
    + now rewrite substring_0_length.
    + f_equal. apply IH. lia.
Qed.

Lemma endswith_iff s p : Py.endswith s p = true <-> exists q, s = q +++ p.
Proof.
  unfold Py.endswith. split.
  - intros H. apply andb_true_iff in H. destruct H as [Hle Heq].
    apply Nat.leb_le in Hle. apply String.eqb_eq in Heq.
    exists (substring 0 (String.length s - String.length p) s).
    rewrite (substring_split s (String.length s - String.length p)) at 1 by lia.
    f_equal. rewrite <- Heq at 3. f_equal. lia.
  - intros [q ->]. rewrite length_append. apply andb_true_iff. split.
    + apply Nat.leb_le. lia.
    + apply String.eqb_eq.
      replace (String.length q + String.length p - String.length p)
        with (String.length q) by lia.
      rewrite substring_skip. apply substring_0_length.
Qed.

Lemma all_chars_str_nat n : Py.all_chars Py.is_digit (Py.str_nat n) = true.
Proof. apply all_digits_string_of_uint. Qed.

Lemma str_nat_not_empty n : Py.str_nat n <> "".
Proof.
  pose proof (isdigit_str_nat n) as H. unfold Py.isdigit in H.
  intros E. rewrite E in H. discriminate.
Qed.

(** A canonical id does not end with a line feed, nor does any of its
    suffixes that is not empty. *)
Lemma canonical_suffix_no_line_feed p rest k0 n0 :
  p +++ rest = k0 +++ "-v" +++ Py.str_nat n0 ->
  Py.endswith rest Commons.newline = false.
Proof.
  intros Heq. destruct (Py.endswith rest Commons.newline) eqn:E; [|reflexivity].
  apply endswith_iff in E. destruct E as [q ->].
  assert (Hl : last_char (p +++ q +++ Commons.newline) = Some (ascii_of_nat 10)).
  { rewrite <- append_assoc. now rewrite last_char_append by discriminate. }
  rewrite Heq in Hl. rewrite <- append_assoc in Hl.
  rewrite last_char_append in Hl by apply str_nat_not_empty.
  apply (last_char_all _ _ _ (all_chars_str_nat n0)) in Hl.
  discriminate.
Qed.

Lemma name_decomposition k k0 d d0 :
  Py.all_chars Py.is_digit d = true ->
  Py.all_chars Py.is_digit d0 = true ->
  k +++ "-v" +++ d = k0 +++ "-v" +++ d0 ->
  k = k0 /\ d = d0.
Proof.
  intros Hd Hd0. revert k0.
  assert (Hno : forall x y s,
             Py.all_chars Py.is_digit s = true -> s <> x +++ "-v" +++ y).
  { intros x y s Hs ->. rewrite all_chars_append in Hs.
    apply andb_true_iff in Hs. destruct Hs as [_ Hs]. discriminate. }
  induction k as [|c k IH]; intros k0 Heq.
  - destruct k0 as [|c0 k0]; simpl in Heq.
    + injection Heq as ->. auto.
    + injection Heq as <- Heq. destruct k0 as [|c1 k0]; simpl in Heq.
      * discriminate.
      * injection Heq as <- Heq. exfalso. exact (Hno _ _ _ Hd Heq).
  - destruct k0 as [|c0 k0]; simpl in Heq.
    + injection Heq as -> Heq. destruct k as [|c1 k]; simpl in Heq.
      * discriminate.
      * injection Heq as -> Heq. exfalso. symmetry in Heq.
        exact (Hno _ _ _ Hd0 Heq).
    + injection Heq as -> Heq. destruct (IH k0 Heq) as [-> ->]. auto.
Qed.

Lemma extract_canonical k n :
  Commons.extract_version_number (k +++ "-v" +++ Py.str_nat n) k = Some n.
Proof.
  unfold Commons.extract_version_number.
  rewrite <- append_assoc. unfold Py.startswith. rewrite prefix_append.
  rewrite substring_after_prefix.
  rewrite (canonical_suffix_no_line_feed (k +++ "-v") (Py.str_nat n) k n)
    by apply append_assoc.
  rewrite isdigit_str_nat. apply int_str_nat.
Qed.

Lemma extract_canonical_inv k k0 n n0 :
  Commons.extract_version_number (k0 +++ "-v" +++ Py.str_nat n0) k = Some n ->
  k = k0 /\ n = n0.
Proof.
  unfold Commons.extract_version_number.
  destruct (Py.startswith _ (k +++ "-v")) eqn:Hpre; [|discriminate].
  apply startswith_iff in Hpre. destruct Hpre as [rest Hrest].
  rewrite Hrest. rewrite substring_after_prefix.
  rewrite (canonical_suffix_no_line_feed (k +++ "-v") rest k0 n0) by now symmetry.
  destruct (Py.isdigit rest) eqn:Hd; [|discriminate].
  intros Hint. rewrite append_assoc in Hrest. symmetry in Hrest.
  unfold Py.isdigit in Hd. apply andb_true_iff in Hd. destruct Hd as [_ Hd].
  destruct (name_decomposition k k0 rest (Py.str_nat n0) Hd (all_chars_str_nat n0)
              Hrest) as [-> ->].
  rewrite int_str_nat in Hint. split; congruence.
Qed.

Lemma canonical_is_not_vNone n : "v" +++ Py.str_nat n <> "vNone".
Proof.
  intros H. injection H as H. pose proof (all_chars_str_nat n) as Hd.
  rewrite H in Hd. discriminate.
Qed.

(** Removing by the token read from a canonical id removes, in an entry
    with canonical names, exactly the records with that id. *)
Lemma token_test_is_id_test k r k0 n0 :
  record_named k r ->
  (r_version r
   == Manifest.fmt_version
        (Commons.extract_version_number (k0 +++ "-v" +++ Py.str_nat n0) k))
  = (r_id r == k0 +++ "-v" +++ Py.str_nat n0).
Proof.
  intros [[n Hv] Hid]. rewrite Hid, Hv.
  change (k +++ "-" +++ "v" +++ Py.str_nat n) with (k +++ "-v" +++ Py.str_nat n).
  destruct (Commons.extract_version_number (k0 +++ "-v" +++ Py.str_nat n0) k)
    as [n'|] eqn:He.
  - apply extract_canonical_inv in He. destruct He as [-> ->].
    unfold Manifest.fmt_version.
    destruct (Nat.eq_dec n n0) as [->|Hne].
    + now rewrite !String.eqb_refl.
    + transitivity false; [|symmetry]; apply String.eqb_neq; intros H.
      * apply (append_inv_head "v") in H. apply str_nat_inj in H. contradiction.
      * apply append_inv_head in H. apply (append_inv_head "-v") in H.
        apply str_nat_inj in H. contradiction.
  - transitivity false; [|symmetry]; apply String.eqb_neq; intros H.
    + now apply canonical_is_not_vNone in H.
    + rewrite <- H in He. rewrite extract_canonical in He. discriminate.
Qed.

(** *** The removed-segmentations pass *)

Lemma keys_set_selected m k v :
  Dict.keys (vols (Manifest.set_selected_version m k v)) = Dict.keys (vols m).
Proof.
  unfold Manifest.set_selected_version.
  destruct (Dict.lookup k (vols m)) as [e|] eqn:He; [|reflexivity].
  simpl. apply keys_set_existing. apply has_true_iff. eauto.
Qed.

(** Unless it deletes the entry, [remove_volume_version] leaves the keys of
    the dictionary, and their order, as they were. *)
Lemma remove_volume_version_keys m k t log m' :
  Manifest.remove_volume_version m k t = Ok (log, m') ->
  (exists e', Dict.lookup k (vols m') = Some e') ->
  Dict.keys (vols m') = Dict.keys (vols m).
Proof.
  unfold Manifest.remove_volume_version.
  destruct (Dict.lookup k (vols m)) as [e|] eqn:He; [|now intros [= _ <-]].
  set (kept := filter (fun v => negb (r_version v == t)) (versions e)).
  set (m1 := with_vols m (Dict.set k (with_versions e kept) (vols m))).
  assert (Hk1 : Dict.keys (vols m1) = Dict.keys (vols m)).
  { unfold m1. simpl. apply keys_set_existing. apply has_true_iff. eauto. }
  assert (Hfinal : forall l m2,
             Dict.keys (vols m2) = Dict.keys (vols m) ->
             match Manifest.get_all_versions m2 k with
             | [] => Ok (l, with_vols m2 (Dict.del k (vols m2)))
             | _ :: _ => Ok (l, m2)
             end = Ok (log, m') ->
             (exists e', Dict.lookup k (vols m') = Some e') ->
             Dict.keys (vols m') = Dict.keys (vols m)).
  { intros l m2 Hk2. destruct (Manifest.get_all_versions m2 k).
    - intros [= _ <-] [e' He']. simpl in He'. rewrite lookup_del_same in He'.
      discriminate.
    - intros [= _ <-] _. exact Hk2. }
  destruct (match Manifest.get_selected_version m1 k with
            | Some s => s == t
            | None => false
            end).
  - destruct (versions e) as [|v0 vs0].
    + simpl bind. apply Hfinal. now rewrite keys_set_selected.
    + destruct (Manifest.get_latest_version m1 k) as [latest|]; [|discriminate].
      simpl bind. apply Hfinal. now rewrite keys_set_selected.
  - simpl bind. apply Hfinal. exact Hk1.
Qed.

Lemma filter_filter_mem (ids : list string) seg_id (vs : list VersionRecord) :
  filter (fun r => negb (Py.mem (r_id r) ids))
         (filter (fun r => negb (r_id r == seg_id)) vs)
  = filter (fun r => negb (Py.mem (r_id r) (seg_id :: ids))) vs.
Proof.
  induction vs as [|v vs IH]; [reflexivity|]. simpl.
  unfold Py.mem at 2. simpl existsb. fold (Py.mem (r_id v) ids).
  destruct (r_id v == seg_id); simpl; [exact IH|].
  destruct (Py.mem (r_id v) ids); simpl; [exact IH|now rewrite IH].
Qed.

Lemma named_entry_filter k e e' f :
  named_entry k e -> versions e' = filter f (versions e) -> named_entry k e'.
Proof.
  unfold named_entry. intros H ->. apply Forall_forall. intros r Hr.
  apply filter_In in Hr. rewrite Forall_forall in H. apply H. tauto.
Qed.

Section RemovedSegmentations.
Variables (k0 : string) (n0 : nat).

Let seg_id := k0 +++ "-v" +++ Py.str_nat n0.

(** The inner loop for one canonical id, on subjects whose entries keep at
    least one record: it completes, keeps the keys, and filters the records
    with that id out of every subject it visits. *)
Lemma remove_seg_inner_spec subjects :
  forall m log,
    NoDup subjects ->
    (forall k, In k subjects ->
       exists e, Dict.lookup k (vols m) = Some e /\ entry_ok e /\ named_entry k e /\
                 exists r, In r (versions e) /\ r_id r <> seg_id) ->
    exists m' log',
      Commons.remove_seg_inner seg_id subjects m log = Ok (m', log') /\
      Dict.keys (vols m') = Dict.keys (vols m) /\
      (forall k, ~ In k subjects ->
         Dict.lookup k (vols m') = Dict.lookup k (vols m)) /\
      (forall k e, In k subjects -> Dict.lookup k (vols m) = Some e ->
         exists e', Dict.lookup k (vols m') = Some e' /\
                    versions e'
                    = filter (fun r => negb (r_id r == seg_id)) (versions e)).
Proof.
  induction subjects as [|k rest IH]; intros m log Hnd Hsub.
  - exists m, log. simpl. repeat split; auto. intros k e [].
  - inversion Hnd as [|? ? Hnotin Hnd']; subst.
    destruct (Hsub k (or_introl eq_refl)) as [e [He [Hok [Hnamed [r [Hr Hrid]]]]]].
    set (t := Manifest.fmt_version (Commons.extract_version_number seg_id k)).
    assert (Hfilter : filter (fun v => negb (r_version v == t)) (versions e)
                      = filter (fun v => negb (r_id v == seg_id)) (versions e)).
    { apply filter_ext_in. intros v Hv. f_equal.
      unfold named_entry in Hnamed. rewrite Forall_forall in Hnamed.
      apply token_test_is_id_test. now apply Hnamed. }
    destruct (remove_volume_version_entry m k e t He (proj2 Hok))
      as [l [m1 [Hrm [Hother [_ Hsome]]]]].
    rewrite Hfilter in Hsome.
    assert (Hkept : filter (fun v => negb (r_id v == seg_id)) (versions e) <> []).
    { intros Hnil.
      assert (Hin : In r (filter (fun v => negb (r_id v == seg_id)) (versions e))).
      { apply filter_In. split; [exact Hr|].
        apply negb_true_iff. now apply String.eqb_neq. }
      rewrite Hnil in Hin. destruct Hin. }
    destruct (Hsome Hkept) as [e1 [He1 [Hv1 _]]].
    assert (Hkeys1 : Dict.keys (vols m1) = Dict.keys (vols m)).
    { eapply remove_volume_version_keys; eauto. }
    assert (Hlen : (List.length (vols m1) =? List.length (vols m)) = true).
    { apply Nat.eqb_eq. unfold Dict.keys in Hkeys1.
      rewrite <- (length_map fst (vols m1)), <- (length_map fst (vols m)).
      now rewrite Hkeys1. }
    destruct (IH m1 (log ++ [RemovedVersion seg_id k]
                         ++ match l with Some line => [line] | None => [] end) Hnd')
      as [m' [log' [Hrun [Hkeys [Hout Hin]]]]].
    { intros k' Hk'. destruct (Hsub k' (or_intror Hk')) as [e' He'].
      exists e'. rewrite Hother; [exact He'|]. intros ->. contradiction. }
    exists m', log'. split; [|split; [|split]].
    + simpl. fold t. rewrite Hrm. simpl. rewrite Hlen. exact Hrun.
    + congruence.
    + intros k' Hk'. rewrite Hout by (intros H; apply Hk'; now right).
      apply Hother. intros ->. apply Hk'. now left.
    + intros k' e' [Heq|Hk'] He'.
      * subst k'. rewrite He in He'. injection He' as <-.
        exists e1. split; [|exact Hv1]. now rewrite Hout.
      * apply Hin; [exact Hk'|]. rewrite Hother; [exact He'|].
        intros ->. contradiction.
Qed.

End RemovedSegmentations.

Lemma manifest_named_ok m : manifest_named m -> manifest_ok m.
Proof. intros H k e He. now apply (H k e). Qed.

(** The whole pass for canonical ids, on a manifest where every entry keeps
    at least one record: it completes, and every entry is left with the
    records whose id is not removed. *)
Lemma remove_segs_loop_spec removed :
  forall m log,
    NoDup (Dict.keys (vols m)) ->
    (forall seg_id, In seg_id removed ->
       exists k0 n0, seg_id = k0 +++ "-v" +++ Py.str_nat n0) ->
    manifest_named m ->
    (forall k e, Dict.lookup k (vols m) = Some e ->
       exists r, In r (versions e) /\ ~ In (r_id r) removed) ->
    exists m' log',
      Commons.remove_segs_loop removed m log = Ok (m', log') /\
      Dict.keys (vols m') = Dict.keys (vols m) /\
      manifest_named m' /\
      (forall k e, Dict.lookup k (vols m) = Some e ->
         exists e', Dict.lookup k (vols m') = Some e' /\
                    versions e'
                    = filter (fun r => negb (Py.mem (r_id r) removed)) (versions e)).
Proof.
  induction removed as [|seg_id rest IH]; intros m log Hnd Hcan Hnamed Hkeep.
  - exists m, log. split; [reflexivity|]. split; [reflexivity|].
    split; [exact Hnamed|].
    intros k e He. exists e. split; [exact He|].
    induction (versions e) as [|v vs IHv]; [reflexivity|]. simpl. f_equal. exact IHv.
  - destruct (Hcan seg_id (or_introl eq_refl)) as [k0 [n0 ->]].
    destruct (remove_seg_inner_spec k0 n0 (Dict.keys (vols m)) m log Hnd)
      as [m1 [log1 [Hinner [Hkeys1 [_ Hin1]]]]].
    { intros k Hk. apply in_keys_iff in Hk. destruct Hk as [e He].
      destruct (Hnamed k e He) as [Hok Hname].
      destruct (Hkeep k e He) as [r [Hr Hrid]].
      exists e. split; [exact He|]. split; [exact Hok|]. split; [exact Hname|].
      exists r. split; [exact Hr|].
      intros Heq. apply Hrid. now left. }
    assert (Hlook1 : forall k e1, Dict.lookup k (vols m1) = Some e1 ->
              exists e, Dict.lookup k (vols m) = Some e /\
                        versions e1
                        = filter (fun r => negb (r_id r == k0 +++ "-v" +++ Py.str_nat n0))
                                 (versions e)).
    { intros k e1 He1.
      assert (Hk : In k (Dict.keys (vols m))).
      { rewrite <- Hkeys1. apply in_keys_iff. eauto. }
      pose proof Hk as Hk'. apply in_keys_iff in Hk'. destruct Hk' as [e He].
      destruct (Hin1 k e Hk He) as [e1' [He1' Hv]].
      exists e. split; [exact He|]. congruence. }
    assert (Hnamed1 : manifest_named m1).
    { intros k e1 He1. split.
      - eapply manifest_ok_remove_seg_inner; eauto. now apply manifest_named_ok.
      - destruct (Hlook1 k e1 He1) as [e [He Hv]].
        eapply named_entry_filter; [|exact Hv]. now apply (Hnamed k e). }
    destruct (IH m1 log1) as [m' [log' [Hrun [Hkeys [Hnamed' Hin]]]]].
    + now rewrite Hkeys1.
    + intros s Hs. apply Hcan. now right.
    + exact Hnamed1.
    + intros k e1 He1. destruct (Hlook1 k e1 He1) as [e [He Hv]].
      destruct (Hkeep k e He) as [r [Hr Hrid]].
      exists r. split.
      * rewrite Hv. apply filter_In. split; [exact Hr|].
        apply negb_true_iff, String.eqb_neq. intros Heq. apply Hrid. now left.
      * intros Hrest. apply Hrid. now right.
    + exists m', log'. split; [|split; [|split]].
      * cbn [Commons.remove_segs_loop]. rewrite Hinner. cbn [bind]. exact Hrun.
      * congruence.
      * exact Hnamed'.
      * intros k e He.
        assert (Hk : In k (Dict.keys (vols m))) by (apply in_keys_iff; eauto).
        destruct (Hin1 k e Hk He) as [e1 [He1 Hv1]].
        destruct (Hin k e1 He1) as [e' [He' Hv']].
        exists e'. split; [exact He'|].
        rewrite Hv', Hv1. apply filter_filter_mem.
Qed.

(** *** Keys stay distinct *)

Lemma keys_set_new k e d :
  Dict.has k d = false -> Dict.keys (Dict.set k e d) = Dict.keys d ++ [k].
Proof.
  unfold Dict.has, Dict.keys. induction d as [|[k' e'] d IH]; simpl; [reflexivity|].
  destruct (k == k') eqn:E; simpl; [discriminate|].
  intros H. now rewrite IH.
Qed.

Lemma keys_append_version m k v :
  Dict.keys (vols (Commons.append_version m k v)) = Dict.keys (vols m).
Proof.
  unfold Commons.append_version.
  destruct (Dict.lookup k (vols m)) as [e|] eqn:He; [|reflexivity].
  simpl. apply keys_set_existing. apply has_true_iff. eauto.
Qed.

Lemma NoDup_keys_merge_step st item :
  NoDup (Dict.keys (vols (fst st))) ->
  NoDup (Dict.keys (vols (fst (Commons.merge_step st item)))).
Proof.
  destruct st as [m log]. destruct item as [k nd]. unfold Commons.merge_step.
  cbn [fst]. intros Hnd. destruct (Dict.has k (vols m)) eqn:Hhas; cbn [negb].
  - assert (Hgen : forall vs st0,
               Dict.keys (vols (fst st0)) = Dict.keys (vols m) ->
               Dict.keys
                 (vols (fst (fold_left
                    (fun (st' : manifest * list msg) version =>
                       if negb (Py.mem (r_version version)
                                  (Manifest.get_all_version_strings m k))
                       then (Commons.append_version (fst st') k version,
                             snd st' ++ [AddedVersion (r_version version) k])
                       else st')
                    vs st0)))
               = Dict.keys (vols m)).
    { induction vs as [|v vs IH]; intros st0 H0; [exact H0|].
      cbn [fold_left]. apply IH.
      destruct (negb (Py.mem (r_version v) (Manifest.get_all_version_strings m k)));
        [|exact H0].
      cbn [fst]. now rewrite keys_append_version. }
    now rewrite Hgen.
  - cbn [fst vols with_vols]. rewrite keys_set_new by exact Hhas.
    apply NoDup_app; [exact Hnd|repeat constructor; intros []|].
    intros k' Hk' [Heq|[]]. subst k'. apply has_false_iff in Hhas.
    apply in_keys_iff in Hk'. destruct Hk' as [e He]. congruence.
Qed.

Lemma NoDup_keys_merge_loop m new_manifest log :
  NoDup (Dict.keys (vols m)) ->
  NoDup (Dict.keys (vols (fst (Commons.merge_loop m new_manifest log)))).
Proof.
  unfold Commons.merge_loop.
  change (vols m) with (vols (fst (m, log))). generalize (m, log).
  induction (vols new_manifest) as [|it items IH]; intros st H; [exact H|].
  cbn [fold_left]. apply IH. now apply NoDup_keys_merge_step.
Qed.

Lemma NoDup_keys_remove_volumes_loop removed m log :
  NoDup (Dict.keys (vols m)) ->
  NoDup (Dict.keys (vols (fst (Commons.remove_volumes_loop removed m log)))).
Proof.
  unfold Commons.remove_volumes_loop.
  change (vols m) with (vols (fst (m, log))). generalize (m, log).
  induction removed as [|k0 removed IH]; intros st H; [exact H|].
  cbn [fold_left]. apply IH. cbn [fst].
  unfold Manifest.remove_volume. destruct (Dict.has k0 (vols (fst st))); [|exact H].
  cbn [vols with_vols]. unfold Dict.del, Dict.keys in *.
  clear -H. induction (vols (fst st)) as [|[k e] d IHd]; [constructor|].
  simpl in *. inversion H as [|? ? Hnotin Hd]; subst.
  destruct (negb (k0 == k)); [|now apply IHd].
  simpl. constructor; [|now apply IHd].
  intros Hin. apply Hnotin. apply in_map_iff in Hin.
  destruct Hin as [p [Hp Hin]]. apply filter_In in Hin.
  apply in_map_iff. exists p. tauto.
Qed.

(** *** The outcome of [update_index] on canonical names *)

Section ReconcileCanonical.
Variable set_order : list string -> list string.
Hypothesis set_order_enumerates :
  forall l, Permutation (set_order l) (nodup string_dec l).
Variables m new_manifest : manifest.
Hypothesis m_keys : NoDup (Dict.keys (vols m)).
Hypothesis m_named : manifest_named m.
Hypothesis new_named : index_named new_manifest.

Let removed_volumes :=
  set_order (Py.set_diff (Dict.keys (vols m)) (Dict.keys (vols new_manifest))).
Let removed_segs :=
  set_order (Py.set_diff (Commons.seg_ids m) (Commons.seg_ids new_manifest)).
Let m_a := fst (Commons.merge_loop m new_manifest []).
Let m_b := fst (Commons.remove_volumes_loop removed_volumes m_a
                  (snd (Commons.merge_loop m new_manifest []))).

Lemma new_lookup k nd :
  Dict.lookup k (vols new_manifest) = Some nd ->
  versions nd <> [] /\ entry_ok nd /\ named_entry k nd.
Proof. intros H. apply (proj2 new_named). now apply lookup_In. Qed.

Lemma new_entries_ok : Forall (fun p => entry_ok (snd p)) (vols new_manifest).
Proof.
  apply Forall_forall. intros [k e] Hin. simpl.
  now apply (proj2 new_named k e Hin).
Qed.

Lemma m_b_lookup k :
  Dict.lookup k (vols m_b)
  = match Dict.lookup k (vols new_manifest) with
    | Some nd => merged_entry (Dict.lookup k (vols m)) (Some nd)
    | None => None
    end.
Proof.
  unfold m_b. rewrite remove_volumes_loop_lookup. fold m_a. unfold m_a.
  rewrite merge_loop_lookup by apply (proj1 new_named).
  destruct (Py.mem k removed_volumes) eqn:Hmem.
  - apply mem_true_iff in Hmem. unfold removed_volumes in Hmem.
    apply -> (in_set_order set_order set_order_enumerates) in Hmem.
    apply in_set_diff in Hmem. destruct Hmem as [_ Hnot].
    now rewrite (lookup_not_in_keys _ _ Hnot).
  - apply mem_false_iff in Hmem.
    destruct (Dict.lookup k (vols new_manifest)) as [nd|] eqn:Hnew; [reflexivity|].
    destruct (Dict.lookup k (vols m)) as [e|] eqn:Hm; [|reflexivity].
    exfalso. apply Hmem. unfold removed_volumes.
    apply (in_set_order set_order set_order_enumerates). apply in_set_diff. split.
    + apply in_keys_iff. eauto.
    + intros Hin. apply in_keys_iff in Hin. destruct Hin as [nd Hnd]. congruence.
Qed.

Lemma m_b_named : manifest_named m_b.
Proof.
  intros k e_b He_b. split.
  - assert (Hok : manifest_ok m_b).
    { unfold m_b. apply manifest_ok_remove_volumes_loop. unfold m_a.
      apply manifest_ok_merge_loop; [now apply manifest_named_ok|].
      apply new_entries_ok. }
    now apply (Hok k).
  - rewrite m_b_lookup in He_b.
    destruct (Dict.lookup k (vols new_manifest)) as [nd|] eqn:Hnew; [|discriminate].
    destruct (new_lookup k nd Hnew) as [_ [_ Hnd]].
    destruct (Dict.lookup k (vols m)) as [e|] eqn:Hm; simpl in He_b.
    + injection He_b as <-. unfold named_entry. simpl.
      apply Forall_app. split; [now apply (m_named k e)|].
      apply Forall_forall. intros r Hr. apply filter_In in Hr.
      unfold named_entry in Hnd. rewrite Forall_forall in Hnd. apply Hnd. tauto.
    + now injection He_b as <-.
Qed.

Lemma m_b_keys : NoDup (Dict.keys (vols m_b)).
Proof.
  unfold m_b. apply NoDup_keys_remove_volumes_loop. unfold m_a.
  now apply NoDup_keys_merge_loop.
Qed.

Lemma new_record_id k nd r :
  Dict.lookup k (vols new_manifest) = Some nd -> In r (versions nd) ->
  In (r_id r) (Commons.seg_ids new_manifest).
Proof. intros Hnd Hr. apply in_seg_ids. exists k, nd, r. auto. Qed.

(** Every record of the index has, after the merge, a record of the same
    subject with its token and its id. *)
Lemma m_b_holds_index k nd r0 :
  Dict.lookup k (vols new_manifest) = Some nd -> In r0 (versions nd) ->
  exists e_b r,
    Dict.lookup k (vols m_b) = Some e_b /\ In r (versions e_b) /\
    r_version r = r_version r0 /\ r_id r = r_id r0.
Proof.
  intros Hnd Hr0. rewrite m_b_lookup, Hnd.
  destruct (Dict.lookup k (vols m)) as [e|] eqn:Hm; simpl.
  - destruct (Py.mem (r_version r0) (tokens e)) eqn:Hmem.
    + apply mem_true_iff in Hmem. unfold tokens in Hmem.
      apply in_map_iff in Hmem. destruct Hmem as [r [Hv Hr]].
      eexists _, r. split; [reflexivity|]. simpl. split; [|split].
      * apply in_or_app. now left.
      * exact Hv.
      * destruct (m_named k e Hm) as [_ Hne].
        destruct (new_lookup k nd Hnd) as [_ [_ Hnn]].
        unfold named_entry in *. rewrite Forall_forall in Hne, Hnn.
        destruct (Hne r Hr) as [_ Hid]. destruct (Hnn r0 Hr0) as [_ Hid0].
        now rewrite Hid, Hid0, Hv.
    + eexists _, r0. split; [reflexivity|]. simpl. split; [|auto].
      apply in_or_app. right. apply filter_In. split; [exact Hr0|].
      now rewrite Hmem.
  - eexists _, r0. split; [reflexivity|]. auto.
Qed.

Lemma in_removed_segs seg_id :
  In seg_id removed_segs
  <-> In seg_id (Commons.seg_ids m) /\ ~ In seg_id (Commons.seg_ids new_manifest).
Proof.
  unfold removed_segs.
  rewrite (in_set_order set_order set_order_enumerates). apply in_set_diff.
Qed.

Lemma removed_segs_canonical seg_id :
  In seg_id removed_segs -> exists k0 n0, seg_id = k0 +++ "-v" +++ Py.str_nat n0.
Proof.
  intros H. apply in_removed_segs in H. destruct H as [H _].
  apply in_seg_ids in H. destruct H as [k [e [r [He [Hr Hid]]]]].
  destruct (m_named k e He) as [_ Hn]. unfold named_entry in Hn.
  rewrite Forall_forall in Hn. destruct (Hn r Hr) as [[n Hv] Hid'].
  exists k, n. rewrite <- Hid, Hid', Hv. reflexivity.
Qed.

(** Of the merged records of a subject of the index, the removed ones are
    exactly those whose id is not in the index. *)
Lemma m_b_removed_test k e_b r :
  Dict.lookup k (vols m_b) = Some e_b -> In r (versions e_b) ->
  negb (Py.mem (r_id r) removed_segs)
  = Py.mem (r_id r) (Commons.seg_ids new_manifest).
Proof.
  intros He_b Hr. rewrite m_b_lookup in He_b.
  destruct (Dict.lookup k (vols new_manifest)) as [nd|] eqn:Hnew; [|discriminate].
  destruct (Py.mem (r_id r) (Commons.seg_ids new_manifest)) eqn:Hin.
  - apply negb_true_iff, mem_false_iff. intros Hrem.
    apply in_removed_segs in Hrem. apply mem_true_iff in Hin. tauto.
  - apply negb_false_iff, mem_true_iff, in_removed_segs.
    apply mem_false_iff in Hin. split; [|exact Hin].
    destruct (Dict.lookup k (vols m)) as [e|] eqn:Hm; simpl in He_b.
    + injection He_b as <-. simpl in Hr. apply in_app_or in Hr.
      destruct Hr as [Hr|Hr].
      * apply in_seg_ids. exists k, e, r. auto.
      * apply filter_In in Hr. destruct Hr as [Hr _].
        exfalso. apply Hin. eapply new_record_id; eauto.
    + injection He_b as <-. exfalso. apply Hin. eapply new_record_id; eauto.
Qed.

Lemma m_b_keeps_a_record k e_b :
  Dict.lookup k (vols m_b) = Some e_b ->
  exists r, In r (versions e_b) /\ ~ In (r_id r) removed_segs.
Proof.
  intros He_b. pose proof He_b as Hlook. rewrite m_b_lookup in Hlook.
  destruct (Dict.lookup k (vols new_manifest)) as [nd|] eqn:Hnew; [|discriminate].
  destruct (new_lookup k nd Hnew) as [Hne _].
  destruct (versions nd) as [|r0 rs] eqn:Hvs; [now destruct Hne|].
  destruct (m_b_holds_index k nd r0 Hnew) as [e_b' [r [He_b' [Hr [_ Hid]]]]].
  { rewrite Hvs. now left. }
  rewrite He_b in He_b'. injection He_b' as <-.
  exists r. split; [exact Hr|]. intros Hrem. apply in_removed_segs in Hrem.
  destruct Hrem as [_ Hnot]. apply Hnot. rewrite Hid.
  apply (new_record_id k nd r0 Hnew). rewrite Hvs. now left.
Qed.

(** Reconciliation on canonical names completes; the manifest it returns
    holds exactly the subjects of the index, each with its merged records
    whose id is in the index; and a second reconciliation against the same
    index changes nothing and logs nothing. *)
Lemma update_index_reconciles :
  exists log m1,
    Commons.update_index set_order m new_manifest = Ok (log, [], [], m1) /\
    (forall k, Dict.lookup k (vols new_manifest) = None ->
               Dict.lookup k (vols m1) = None) /\
    (forall k nd, Dict.lookup k (vols new_manifest) = Some nd ->
       exists e1, Dict.lookup k (vols m1) = Some e1 /\
                  versions e1 = reconciled_versions m new_manifest k) /\
    manifest_named m1 /\ NoDup (Dict.keys (vols m1)) /\
    agrees m1 new_manifest /\
    Commons.update_index set_order m1 new_manifest = Ok ([], [], [], m1).
Proof.
  destruct (remove_segs_loop_spec removed_segs m_b
              (snd (Commons.remove_volumes_loop removed_volumes m_a
                      (snd (Commons.merge_loop m new_manifest []))))
              m_b_keys removed_segs_canonical m_b_named m_b_keeps_a_record)
    as [m1 [log1 [Hrun [Hkeys [Hnamed Hvers]]]]].
  assert (Hfirst : Commons.update_index set_order m new_manifest
                   = Ok (log1, [], [], m1)).
  { unfold Commons.update_index.
    pose proof Hrun as Hrun'.
    unfold m_b, m_a, removed_volumes, removed_segs in Hrun'. revert Hrun'.
    destruct (Commons.merge_loop m new_manifest []) as [ma la]. cbn [fst snd].
    destruct (Commons.remove_volumes_loop _ ma la) as [mb lb]. cbn [fst snd].
    intros ->. reflexivity. }
  assert (Hnone : forall k, Dict.lookup k (vols new_manifest) = None ->
                            Dict.lookup k (vols m1) = None).
  { intros k Hk. apply lookup_not_in_keys. rewrite Hkeys. intros Hin.
    apply in_keys_iff in Hin. destruct Hin as [e He].
    rewrite m_b_lookup, Hk in He. discriminate. }
  assert (Hsome : forall k nd, Dict.lookup k (vols new_manifest) = Some nd ->
            exists e1, Dict.lookup k (vols m1) = Some e1 /\
                       versions e1 = reconciled_versions m new_manifest k).
  { intros k nd Hnd.
    destruct (Dict.lookup k (vols m_b)) as [e_b|] eqn:He_b.
    - destruct (Hvers k e_b He_b) as [e1 [He1 Hv1]].
      exists e1. split; [exact He1|]. rewrite Hv1.
      unfold reconciled_versions, merged_versions.
      pose proof He_b as Hlook. rewrite m_b_lookup, Hnd in Hlook.
      rewrite Hnd, Hlook. apply filter_ext_in. intros r Hr.
      eapply m_b_removed_test; eauto.
    - rewrite m_b_lookup, Hnd in He_b.
      destruct (Dict.lookup k (vols m)); discriminate. }
  exists log1, m1. split; [exact Hfirst|]. split; [exact Hnone|].
  split; [exact Hsome|]. split; [exact Hnamed|].
  split; [rewrite Hkeys; apply m_b_keys|].
  assert (Hagree : agrees m1 new_manifest);
    [|split; [exact Hagree|
              now apply (update_index_noop set_order set_order_enumerates)]].
  split; [|split].
  - intros k. rewrite !in_keys_iff. split.
    + intros [nd Hnd]. destruct (Hsome k nd Hnd) as [e1 [He1 _]]. eauto.
    + intros [e1 He1].
      destruct (Dict.lookup k (vols new_manifest)) as [nd|] eqn:Hnd; [eauto|].
      rewrite (Hnone k Hnd) in He1. discriminate.
  - intros k nd r0 Hin Hr0.
    assert (Hnd : Dict.lookup k (vols new_manifest) = Some nd).
    { apply lookup_of_In; [apply (proj1 new_named)|exact Hin]. }
    destruct (m_b_holds_index k nd r0 Hnd Hr0) as [e_b [r [He_b [Hr [Hv Hid]]]]].
    destruct (Hvers k e_b He_b) as [e1 [He1 Hv1]].
    rewrite (get_all_version_strings_lookup m1 k e1 He1).
    unfold tokens. rewrite <- Hv. apply in_map. rewrite Hv1.
    apply filter_In. split; [exact Hr|].
    rewrite (m_b_removed_test k e_b r He_b Hr). apply mem_true_iff.
    rewrite Hid. eapply new_record_id; eauto.
  - intros seg_id Hin. apply in_seg_ids in Hin.
    destruct Hin as [k [e1 [r [He1 [Hr Hid]]]]].
    destruct (Dict.lookup k (vols new_manifest)) as [nd|] eqn:Hnd.
    + destruct (Hsome k nd Hnd) as [e1' [He1' Hv1]].
      rewrite He1 in He1'. injection He1' as <-.
      rewrite Hv1 in Hr. unfold reconciled_versions in Hr.
      apply filter_In in Hr. destruct Hr as [_ Hmem].
      apply mem_true_iff in Hmem. now rewrite <- Hid.
    + rewrite (Hnone k Hnd) in He1. discriminate.
Qed.

End ReconcileCanonical.

(** *** From the files on disk *)

Section FromDisk.
Variable set_order : list string -> list string.
Hypothesis set_order_enumerates :
  forall l, Permutation (set_order l) (nodup string_dec l).
Variable hash_image : string -> string.
Variables (volumes_path vext segmentations_path sext : string).
Variables (vol_dir seg_dir : directory).

Let ref_fnames := names_found vol_dir vext.
Let tar_fnames := names_found seg_dir sext.

Hypothesis tar_without_line_feed :
  Forall (fun s => no_line_feed s = true) tar_fnames.
Hypothesis tar_numbered : canonically_numbered tar_fnames.

(** What the matcher's index is, at any time of the clock. *)
Lemma matcher_index now :
  exists log warnings errors index,
    Commons.verify_volseg_match now hash_image set_order
      volumes_path vext segmentations_path sext vol_dir seg_dir
    = Ok (log, warnings, errors, index) /\
    index_named (Commons.only_volumes index) /\
    (forall X, In X (Dict.keys index)
               <-> In X ref_fnames
                   /\ exists seg, In seg tar_fnames /\ names_version seg X) /\
    (forall X e, Dict.lookup X index = Some e ->
       forall seg, In seg (map r_id (versions e))
                   <-> In seg tar_fnames /\ names_version seg X).
Proof.
  destruct (verify_volseg_match_result now hash_image set_order set_order_enumerates
              volumes_path vext segmentations_path sext vol_dir seg_dir
              tar_without_line_feed)
    as [log [warnings [errors [index [Hrun [Hnd [Hkeys [Hent _]]]]]]]].
  fold ref_fnames tar_fnames in Hkeys, Hent.
  exists log, warnings, errors, index. split; [exact Hrun|].
  split; [|split; [exact Hkeys|]].
  - split; [exact Hnd|]. intros k e Hin. simpl in Hin.
    assert (He : Dict.lookup k index = Some e) by now apply lookup_of_In.
    specialize (Hent k e He).
    destruct (matched_entry_records now hash_image segmentations_path sext seg_dir
                tar_without_line_feed k e Hent) as [Hids Hrecs].
    destruct (matched_entry_order now hash_image segmentations_path sext seg_dir
                k e Hent) as [_ [r [n [Hr [Hsel _]]]]].
    split; [exact (proj1 Hent)|]. split; [split|].
    + unfold I2. rewrite Hsel. unfold tokens. now apply in_map.
    + apply Forall_forall. intros r' Hr'.
      destruct (Hrecs r' Hr') as [digits [k' [_ [_ [_ [Hv _]]]]]]. now exists k'.
    + apply Forall_forall. intros r' Hr'.
      destruct (Hrecs r' Hr') as [digits [n' [Hid [Hdig [Hint [Hv _]]]]]].
      split; [now exists n'|].
      assert (Hseg : In (r_id r') tar_fnames).
      { apply (Hids (r_id r')). now apply in_map. }
      destruct (tar_numbered (r_id r') k digits Hseg Hid Hdig) as [n'' ->].
      rewrite int_str_nat in Hint. injection Hint as ->.
      now rewrite Hid, Hv.
  - intros X e He.
    exact (proj1 (matched_entry_records now hash_image segmentations_path sext
                    seg_dir tar_without_line_feed X e (Hent X e He))).
Qed.


End FromDisk.


(* ================================================================== *)
(** * Further properties of the code *)

(** ** manifest.py: adding and removing *)

Lemma del_set_absent k e d :
  Dict.lookup k d = None -> Dict.del k (Dict.set k e d) = d.
Proof.
  unfold Dict.del. induction d as [|[k' e'] d IH]; simpl; intros H.
  - now rewrite String.eqb_refl.
  - destruct (k == k') eqn:E; [discriminate|]. simpl. rewrite E. simpl.
    now rewrite IH.
Qed.

Lemma with_vols_with_vols m a b : with_vols (with_vols m a) b = with_vols m b.
Proof. reflexivity. Qed.

Lemma with_versions_with_versions e a b :
  with_versions (with_versions e a) b = with_versions e b.
Proof. reflexivity. Qed.

Lemma with_vols_id m : with_vols m (vols m) = m.
Proof. now destruct m. Qed.

Lemma filter_absent_token version (vs : list VersionRecord) :
  ~ In version (map r_version vs) ->
  filter (fun v => negb (r_version v == version)) vs = vs.
Proof.
  induction vs as [|v vs IH]; simpl; intros H; [reflexivity|].
  destruct (String.eqb_spec (r_version v) version) as [Heq|Hne].
  - exfalso. apply H. now left.
  - simpl. rewrite IH; [reflexivity|]. intros Hin. apply H. now right.
Qed.

Lemma remove_only_version m k e r version :
  Dict.lookup k (vols m) = Some e ->
  versions e = [r] -> r_version r = version ->
  selected_version e = Some version ->
  Manifest.remove_volume_version m k version
  = Ok (Some (SelectionUpdated k "vNone"), with_vols m (Dict.del k (vols m))).
Proof.
  intros He Hv Hr Hs. unfold Manifest.remove_volume_version. rewrite He.
  cbv zeta. rewrite Hv. cbn [filter]. rewrite Hr, String.eqb_refl. cbn [negb].
  set (m1 := with_vols m (Dict.set k (with_versions e []) (vols m))).
  assert (Hl1 : Dict.lookup k (vols m1) = Some (with_versions e [])).
  { unfold m1. cbn [vols with_vols]. apply lookup_set_same. }
  unfold Manifest.get_selected_version. rewrite Hl1.
  cbn [selected_version with_versions]. rewrite Hs, String.eqb_refl.
  unfold Manifest.get_latest_version. rewrite Hl1.
  cbn [versions with_versions Manifest.latest_loop]. simpl bind.
  unfold Manifest.set_selected_version. rewrite Hl1.
  unfold Manifest.get_all_versions. cbn [vols with_vols].
  rewrite lookup_set_same. cbn [versions with_selected with_versions].
  unfold m1. cbn [vols with_vols]. rewrite set_set.
  f_equal. f_equal. unfold with_vols. cbn.
  f_equal. unfold Dict.del.
  clear. induction (vols m) as [|[k' e'] d IH]; simpl.
  - now rewrite String.eqb_refl.
  - destruct (k == k') eqn:E; simpl; rewrite E; simpl; [reflexivity|].
    now rewrite IH.
Qed.

(** X3. Removing a version the subject does not carry changes nothing
    and logs nothing, for a subject that is not in the manifest as well as
    for one that holds other versions (its selection being one of them or
    absent). *)
Theorem remove_absent_version_changes_nothing :
  forall m subject_key version,
    (forall e, Dict.lookup subject_key (vols m) = Some e ->
       ~ In version (tokens e) /\ selected_version e <> Some version /\
       versions e <> []) ->
    Manifest.remove_volume_version m subject_key version = Ok (None, m).
Proof.
  intros m subject_key version H. unfold Manifest.remove_volume_version.
  destruct (Dict.lookup subject_key (vols m)) as [e|] eqn:He; [|reflexivity].
  destruct (H e eq_refl) as [Hnot [Hsel Hne]].
  cbv zeta. rewrite (filter_absent_token version (versions e) Hnot).
  rewrite with_versions_same, (set_same _ _ _ He), with_vols_id.
  unfold Manifest.get_selected_version. rewrite He.
  assert (Htest : match selected_version e with
                  | Some s => s == version
                  | None => false
                  end = false).
  { destruct (selected_version e) as [s|]; [|reflexivity].
    apply String.eqb_neq. intros ->. now apply Hsel. }
  rewrite Htest. simpl bind. unfold Manifest.get_all_versions. rewrite He.
  destruct (versions e); [now destruct Hne|reflexivity].
Qed.


(** X2. Adding a version a subject does not carry yet and removing it
    again gives the manifest back, whether the subject was new (its entry
    is created and then deleted) or already held other versions. *)
Theorem add_then_remove_version_restores :
  forall now hash_string m subject_key version author notes tags ts last_updated,
    (forall e, Dict.lookup subject_key (vols m) = Some e ->
       ~ In version (tokens e) /\ selected_version e <> Some version /\
       versions e <> []) ->
    exists log,
      Manifest.remove_volume_version
        (snd (Manifest.add_volume_version now hash_string m subject_key version
                author notes tags ts last_updated))
        subject_key version
      = Ok (log, m).
Proof.
  intros now hash_string m k version author notes tags ts lu H.
  destruct (Dict.lookup k (vols m)) as [e|] eqn:He.
  - destruct (H e eq_refl) as [Hnot [Hsel Hne]].
    rewrite (add_on_existing now hash_string m k version author notes tags ts lu e He).
    assert (Hex : existsb (fun v => r_version v == version) (versions e) = false).
    { apply not_true_is_false. intros Hx. apply existsb_token in Hx. now apply Hnot. }
    rewrite Hex. cbn [snd].
    exists None. unfold Manifest.remove_volume_version.
    cbn [vols with_vols]. rewrite lookup_set_same. cbv zeta.
    cbn [versions with_versions selected_version].
    rewrite filter_app, (filter_absent_token version (versions e) Hnot).
    cbn [filter r_version]. rewrite String.eqb_refl. cbn [negb].
    rewrite app_nil_r, set_set.
    rewrite with_versions_with_versions, with_vols_with_vols.
    rewrite with_versions_same, (set_same _ _ _ He).
    unfold Manifest.get_selected_version. cbn [vols with_vols]. rewrite He.
    assert (Htest : match selected_version e with
                    | Some s => s == version
                    | None => false
                    end = false).
    { destruct (selected_version e) as [s|]; [|reflexivity].
      apply String.eqb_neq. intros ->. now apply Hsel. }
    rewrite Htest. simpl bind. unfold Manifest.get_all_versions.
    cbn [vols with_vols]. rewrite He.
    destruct (versions e); [now destruct Hne|].
    now rewrite with_vols_id.
  - rewrite (add_on_new now hash_string m k version author notes tags ts lu He).
    cbn [snd]. rewrite set_set.
    exists (Some (SelectionUpdated k "vNone")).
    match goal with
    | |- context [Dict.set k ?e1 (vols m)] =>
        rewrite (remove_only_version (with_vols m (Dict.set k e1 (vols m))) k e1 _
                   version (lookup_set_same _ _ _) eq_refl eq_refl eq_refl)
    end.
    cbn [vols with_vols]. rewrite with_vols_with_vols.
    rewrite (del_set_absent _ _ _ He). now rewrite with_vols_id.
Qed.

Lemma latest_loop_numbered vs :
  Forall (fun r => version_number r <> None) vs ->
  forall acc, exists res,
    Manifest.latest_loop vs acc = Ok res /\
    (res = None <-> vs = [] /\ acc = None) /\
    (forall n, res = Some n ->
       (acc = Some n \/ exists r, In r vs /\ version_number r = Some n) /\
       (forall a, acc = Some a -> a <= n) /\
       (forall r k, In r vs -> version_number r = Some k -> k <= n)).
Proof.
  induction 1 as [|v vs Hv Hvs IH]; intros acc.
  - exists acc. simpl. split; [reflexivity|]. split; [tauto|].
    intros n ->. split; [now left|]. split.
    + intros a [= ->]. lia.
    + intros r k [].
  - simpl. fold (version_number v).
    destruct (version_number v) as [n0|] eqn:Hn0; [|now destruct Hv].
    set (acc' := match acc with
                 | None => Some n0
                 | Some l => if l <? n0 then Some n0 else Some l
                 end).
    destruct (IH acc') as [res [Hres [Hnone Hsome]]].
    exists res. split; [exact Hres|]. split.
    + split.
      * intros Hr. apply Hnone in Hr. destruct Hr as [_ Hacc].
        unfold acc' in Hacc. destruct acc as [l|]; [destruct (l <? n0)|]; discriminate.
      * intros [Habs _]. discriminate.
    + intros n Hn. destruct (Hsome n Hn) as [Hwhere [Hge Hmax]].
      assert (Hn0le : n0 <= n).
      { unfold acc' in Hge. destruct acc as [l|].
        - destruct (l <? n0) eqn:E.
          + now apply Hge.
          + apply Nat.ltb_ge in E. specialize (Hge l eq_refl). lia.
        - now apply Hge. }
      split; [|split].
      * destruct Hwhere as [Hacc|[r [Hr Hrn]]].
        -- unfold acc' in Hacc. destruct acc as [l|].
           ++ destruct (l <? n0) eqn:E.
              ** injection Hacc as <-. right. exists v. split; [now left|exact Hn0].
              ** left. exact Hacc.
           ++ injection Hacc as <-. right. exists v. split; [now left|exact Hn0].
        -- right. exists r. split; [now right|exact Hrn].
      * intros a ->. unfold acc' in Hge. destruct (a <? n0) eqn:E.
        -- apply Nat.ltb_lt in E. lia.
        -- now apply Hge.
      * intros r k [<-|Hr] Hk.
        -- rewrite Hn0 in Hk. injection Hk as <-. exact Hn0le.
        -- now apply (Hmax r k).
Qed.

(** X5. [get_latest_version] on tokens whose tail is a number: it
    returns; the result is [None] exactly when the subject has no version
    (or is not in the manifest), and otherwise it is the number of one of
    the subject's versions and no version has a higher one. *)
Theorem get_latest_version_is_maximum :
  forall m subject_key,
    Forall (fun r => version_number r <> None)
           (Manifest.get_all_versions m subject_key) ->
    exists latest,
      Manifest.get_latest_version m subject_key = Ok latest /\
      (latest = None <-> Manifest.get_all_versions m subject_key = []) /\
      (forall n, latest = Some n ->
         (exists r, In r (Manifest.get_all_versions m subject_key)
                    /\ version_number r = Some n) /\
         (forall r k, In r (Manifest.get_all_versions m subject_key) ->
                      version_number r = Some k -> k <= n)).
Proof.
  intros m k Hnum.
  unfold Manifest.get_latest_version, Manifest.get_all_versions in *.
  destruct (Dict.lookup k (vols m)) as [e|].
  - destruct (latest_loop_numbered (versions e) Hnum None)
      as [res [Hres [Hnone Hsome]]].
    exists res. split; [exact Hres|]. split.
    + rewrite Hnone. tauto.
    + intros n Hn. destruct (Hsome n Hn) as [[Habs|Hr] [_ Hmax]];
        [discriminate|]. split; [exact Hr|exact Hmax].
  - exists None. split; [reflexivity|]. split; [tauto|]. discriminate.
Qed.

Lemma get_latest_version_is_maximum_witness :
  exists r,
    In r (Manifest.get_all_versions three_versions "A") /\
    version_number r = Some 3.
Proof.
  destruct (get_latest_version_is_maximum three_versions "A") as [latest [Hrun [_ Hmax]]].
  - repeat constructor; discriminate.
  - vm_compute in Hrun. injection Hrun as <-.
    exact (proj1 (Hmax 3 eq_refl)).
Defined.

(** X1. [add_volume_version] returns [True] exactly when the subject did
    not carry the token; the subject's records are then the former ones
    followed by the new record, whose id is the subject, a dash and the
    token and whose two times default to the clock; otherwise they are
    unchanged.  No other subject is touched. *)
Theorem add_volume_version_appends_last :
  forall now hash_string m subject_key version author notes tags ts last_updated,
    let present :=
      Py.mem version (Manifest.get_all_version_strings m subject_key) in
    let record :=
      mkVersion (subject_key +++ "-" +++ version)
        (hash_string ((subject_key +++ "-" +++ version) +++ Py.or_else ts now))
        (Py.or_else ts now) author notes
        (match tags with Some t => t | None => [] end)
        version (Py.or_else last_updated now) in
    let result :=
      Manifest.add_volume_version now hash_string m subject_key version
        author notes tags ts last_updated in
    fst result = negb present /\
    Manifest.get_all_versions (snd result) subject_key
    = Manifest.get_all_versions m subject_key
      ++ (if present then [] else [record]) /\
    (forall k, k <> subject_key ->
       Dict.lookup k (vols (snd result)) = Dict.lookup k (vols m)).
Proof.
  intros now hash_string m k version author notes tags ts lu present record result.
  subst present result.
  unfold Manifest.get_all_version_strings, Manifest.get_all_versions, Dict.has.
  destruct (Dict.lookup k (vols m)) as [e|] eqn:He.
  - rewrite (add_on_existing now hash_string m k version author notes tags ts lu e He).
    fold record. unfold Py.mem.
    assert (Hex : existsb (fun v => r_version v == version) (versions e)
                  = existsb (String.eqb version) (map r_version (versions e))).
    { induction (versions e) as [|v vs IH]; simpl; [reflexivity|].
      now rewrite IH, (String.eqb_sym (r_version v)). }
    rewrite <- Hex.
    destruct (existsb (fun v => r_version v == version) (versions e)).
    + cbn [fst snd negb]. rewrite He, app_nil_r. auto.
    + cbn [fst snd negb vols with_vols]. rewrite lookup_set_same.
      split; [reflexivity|]. split; [reflexivity|].
      intros k' Hk'. now apply lookup_set_other.
  - rewrite (add_on_new now hash_string m k version author notes tags ts lu He).
    fold record. cbn [fst snd negb vols with_vols Py.mem existsb].
    rewrite lookup_set_same. split; [reflexivity|]. split; [reflexivity|].
    intros k' Hk'. now rewrite !lookup_set_other by exact Hk'.
Qed.

(** X4. After [remove_volume] the subject has no version and no
    selection, every other subject is as before, and removing it again (or
    removing a subject that is not there) changes nothing. *)
Theorem remove_volume_forgets_subject :
  forall m subject_key,
    Manifest.get_all_versions (Manifest.remove_volume m subject_key) subject_key = []
    /\ Manifest.get_selected_version (Manifest.remove_volume m subject_key) subject_key
       = None
    /\ (forall k, k <> subject_key ->
          Dict.lookup k (vols (Manifest.remove_volume m subject_key))
          = Dict.lookup k (vols m))
    /\ Manifest.remove_volume (Manifest.remove_volume m subject_key) subject_key
       = Manifest.remove_volume m subject_key.
Proof.
  intros m k.
  assert (Hk : Dict.lookup k (vols (Manifest.remove_volume m k)) = None).
  { rewrite remove_volume_lookup. now rewrite String.eqb_refl. }
  unfold Manifest.get_all_versions, Manifest.get_selected_version. rewrite Hk.
  split; [reflexivity|]. split; [reflexivity|]. split.
  - intros k' Hk'. rewrite remove_volume_lookup.
    apply String.eqb_neq in Hk'. now rewrite Hk'.
  - unfold Manifest.remove_volume at 1.
    apply has_false_iff in Hk. now rewrite Hk.
Qed.

(** ** commons.py: the walk and the matcher *)

Lemma substring_zero_length n s : substring n 0 s = "".
Proof.
  revert n. induction s as [|c s IH]; intros [|n]; simpl; auto.
Qed.

Lemma substring_0_prefix q p : substring 0 (String.length q) (q +++ p) = q.
Proof.
  induction q as [|c q IH]; simpl.
  - destruct p; reflexivity.
  - now rewrite IH.
Qed.

Lemma endswith_empty s : Py.endswith s "" = true.
Proof.
  unfold Py.endswith. simpl. now rewrite substring_zero_length.
Qed.

Lemma slice_to_neg_suffix q p :
  p <> "" -> Py.slice_to_neg (String.length p) (q +++ p) = q.
Proof.
  intros Hp. unfold Py.slice_to_neg.
  destruct (String.length p =? 0) eqn:E.
  - apply Nat.eqb_eq in E. destruct p; [now destruct Hp|discriminate].
  - rewrite length_append.
    replace (String.length q + String.length p - String.length p)
      with (String.length q) by lia.
    apply substring_0_prefix.
Qed.

(** X6. The names [search_files_in] returns: with the extension put back they
    are the walked file names that end with it; with an empty extension
    every file is kept and every name is empty. *)
Theorem search_files_in_names :
  forall d extension,
    let names := fst (Commons.search_files_in d extension) in
    snd (Commons.search_files_in d extension) = List.length names /\
    (extension <> "" ->
       map (fun oname => oname +++ extension) names
       = filter (fun fname => Py.endswith fname extension) (walk d)) /\
    (extension = "" -> names = map (fun _ => "") (walk d)).
Proof.
  intros d extension. unfold Commons.search_files_in. cbn [fst snd].
  split; [reflexivity|]. split.
  - intros Hext. rewrite map_map.
    induction (walk d) as [|f fs IH]; simpl; [reflexivity|].
    destruct (Py.endswith f extension) eqn:E; [|exact IH].
    simpl. rewrite IH. f_equal.
    apply endswith_iff in E. destruct E as [q ->].
    now rewrite slice_to_neg_suffix.
  - intros ->. induction (walk d) as [|f fs IH]; [reflexivity|].
    cbn [filter]. rewrite endswith_empty. cbn [map]. now rewrite IH.
Qed.

Lemma match_loop_total now hash_image segmentations_path sext tar_fnames vol_names :
  forall index, exists index',
    Commons.match_loop now hash_image segmentations_path sext tar_fnames
      vol_names index = Ok index'.
Proof.
  induction vol_names as [|X rest IH]; intros index; simpl; [eauto|].
  destruct (Commons.candidates now hash_image segmentations_path sext X tar_fnames)
    as [|c cs] eqn:Hc; [apply IH|].
  assert (Hcan : Forall (fun r => canonical (r_version r)) (c :: cs)).
  { rewrite <- Hc. apply candidates_canonical. }
  destruct (sort_versions_spec (c :: cs) Hcan) as [sorted [nums [Hsort _]]].
  rewrite Hsort. simpl bind. apply IH.
Qed.

(** X7. Once the fingerprints of the matched files are computed (the
    function [hash_image]), the matcher never raises, whatever the
    directories hold and in whatever order the set of volume names is
    iterated: the sort key [int(x["version"][1:])] is always a number on
    the tokens it builds.  It reports no error exactly when both
    directories exist and hold a file with the extension, and it gives no
    warning beside an error. *)
Theorem verify_volseg_match_never_raises :
  forall now hash_image set_order volumes_path vext segmentations_path sext
         vol_dir seg_dir,
    exists log warnings errors index,
      Commons.verify_volseg_match now hash_image set_order
        volumes_path vext segmentations_path sext vol_dir seg_dir
      = Ok (log, warnings, errors, index) /\
      (errors = [] <->
       names_found vol_dir vext <> [] /\ names_found seg_dir sext <> []) /\
      (errors <> [] -> warnings = []).
Proof.
  intros now hash_image set_order volumes_path vext segmentations_path sext
         vol_dir seg_dir.
  destruct (verify_volseg_match_shape now hash_image set_order
              volumes_path vext segmentations_path sext vol_dir seg_dir)
    as [log [errors [Herr Hshape]]].
  destruct (match_loop_total now hash_image segmentations_path sext
              (names_found seg_dir sext) (set_order (names_found vol_dir vext)) [])
    as [index Hrun].
  rewrite Hrun in Hshape. simpl bind in Hshape.
  eexists log, _, errors, index. split; [exact Hshape|]. split; [exact Herr|].
  intros Hne.
  destruct (names_found vol_dir vext) as [|r rs] eqn:Hr; [reflexivity|].
  destruct (names_found seg_dir sext) as [|t ts] eqn:Ht;
    [simpl; reflexivity|].
  exfalso. apply Hne. apply Herr. split; discriminate.
Qed.

Lemma isdigit_all_chars d : Py.isdigit d = true -> Py.all_chars Py.is_digit d = true.
Proof. unfold Py.isdigit. intros H. apply andb_true_iff in H. tauto. Qed.

(** X8. No segmentation is indexed under two volumes: an id that appears
    in the entries of two keys of the matcher's index appears under one
    and the same key. *)
Theorem segmentation_indexed_under_one_volume :
  forall now hash_image set_order volumes_path vext segmentations_path sext
         vol_dir seg_dir log warnings errors index,
    (forall l, Permutation (set_order l) (nodup string_dec l)) ->
    Forall (fun s => no_line_feed s = true) (names_found seg_dir sext) ->
    Commons.verify_volseg_match now hash_image set_order
      volumes_path vext segmentations_path sext vol_dir seg_dir
    = Ok (log, warnings, errors, index) ->
    forall X Y ex ey seg,
      Dict.lookup X index = Some ex -> Dict.lookup Y index = Some ey ->
      In seg (map r_id (versions ex)) -> In seg (map r_id (versions ey)) ->
      X = Y.
Proof.
  intros now hash_image set_order volumes_path vext segmentations_path sext
         vol_dir seg_dir log warnings errors index Hso Hnl Hrun X Y ex ey seg
         HX HY Hsx Hsy.
  destruct (verify_volseg_match_result now hash_image set_order Hso
              volumes_path vext segmentations_path sext vol_dir seg_dir Hnl)
    as [log' [warnings' [errors' [index' [Hrun' [_ [_ [Hent _]]]]]]]].
  rewrite Hrun in Hrun'. injection Hrun' as <- <- <- <-.
  apply (matched_entry_records now hash_image segmentations_path sext seg_dir Hnl
           X ex (Hent X ex HX)) in Hsx.
  apply (matched_entry_records now hash_image segmentations_path sext seg_dir Hnl
           Y ey (Hent Y ey HY)) in Hsy.
  destruct Hsx as [_ [dx [Hdx Hx]]]. destruct Hsy as [_ [dy [Hdy Hy]]].
  rewrite Hx in Hy.
  exact (proj1 (name_decomposition X Y dx dy (isdigit_all_chars _ Hdx)
                  (isdigit_all_chars _ Hdy) Hy)).
Qed.

(** ** commons.py: reconciliation *)

(** X9. Reconciliation of a canonically named manifest against a
    canonically named index completes, and the manifest it returns mirrors
    the index: the same subjects, the same segmentation ids, no entry
    without version, I2 on every entry; a second reconciliation against the
    same index changes nothing and logs nothing. *)
Theorem update_index_mirrors_index :
  forall set_order m new_manifest,
    (forall l, Permutation (set_order l) (nodup string_dec l)) ->
    NoDup (Dict.keys (vols m)) -> manifest_named m -> index_named new_manifest ->
    exists log m1,
      Commons.update_index set_order m new_manifest = Ok (log, [], [], m1) /\
      (forall k, In k (Dict.keys (vols m1)) <-> In k (Dict.keys (vols new_manifest))) /\
      (forall seg_id, In seg_id (Commons.seg_ids m1)
                      <-> In seg_id (Commons.seg_ids new_manifest)) /\
      (forall k e, Dict.lookup k (vols m1) = Some e -> I2 e /\ versions e <> []) /\
      Commons.update_index set_order m1 new_manifest = Ok ([], [], [], m1).
Proof.
  intros set_order m new_manifest Hso Hkeys Hnamed Hnew.
  destruct (update_index_reconciles set_order Hso m new_manifest Hkeys Hnamed Hnew)
    as [log [m1 [Hrun [Hnone [Hsome [Hnamed1 [Hkeys1 [[Ha [Hb Hc]] Hagain]]]]]]]].
  exists log, m1. split; [exact Hrun|].
  assert (Hids : forall seg_id, In seg_id (Commons.seg_ids new_manifest) ->
                                In seg_id (Commons.seg_ids m1)).
  { intros seg_id Hin. apply in_seg_ids in Hin.
    destruct Hin as [k [nd [r [Hnd [Hr Hid]]]]].
    pose proof (Hb k nd r (lookup_In _ _ _ Hnd) Hr) as Htok.
    destruct (Hsome k nd Hnd) as [e1 [He1 _]].
    rewrite (get_all_version_strings_lookup m1 k e1 He1) in Htok.
    unfold tokens in Htok. apply in_map_iff in Htok.
    destruct Htok as [r1 [Hv Hr1]].
    apply in_seg_ids. exists k, e1, r1. split; [exact He1|]. split; [exact Hr1|].
    destruct (Hnamed1 k e1 He1) as [_ Hn1].
    destruct (proj2 Hnew k nd (lookup_In _ _ _ Hnd)) as [_ [_ Hn]].
    unfold named_entry in Hn1, Hn. rewrite Forall_forall in Hn1, Hn.
    destruct (Hn1 r1 Hr1) as [_ Hid1]. destruct (Hn r Hr) as [_ Hid0].
    now rewrite Hid1, Hv, <- Hid0. }
  split; [|split; [|split; [|exact Hagain]]].
  - intros k. symmetry. apply Ha.
  - intros seg_id. split; [apply Hc|apply Hids].
  - intros k e He. split; [apply (Hnamed1 k e He)|].
    destruct (Dict.lookup k (vols new_manifest)) as [nd|] eqn:Hnd.
    + destruct (proj2 Hnew k nd (lookup_In _ _ _ Hnd)) as [Hne _].
      destruct (versions nd) as [|r rs] eqn:Hv; [now destruct Hne|].
      pose proof (Hb k nd r (lookup_In _ _ _ Hnd)) as Htok.
      rewrite Hv in Htok. specialize (Htok (or_introl eq_refl)).
      rewrite (get_all_version_strings_lookup m1 k e He) in Htok.
      unfold tokens in Htok. intros Hnil. rewrite Hnil in Htok. destruct Htok.
    + rewrite (Hnone k Hnd) in He. discriminate.
Qed.

Lemma set_fresh k e d :
  ~ In k (Dict.keys d) -> Dict.set k e d = d ++ [(k, e)].
Proof.
  induction d as [|[k' e'] d IH]; simpl; intros Hd; [reflexivity|].
  destruct (String.eqb_spec k k') as [->|Hne]; [tauto|].
  rewrite IH; tauto.
Qed.

Lemma merge_loop_fresh (new_vols : volumes) :
  forall m log,
    NoDup (Dict.keys new_vols) ->
    (forall k, In k (Dict.keys new_vols) -> ~ In k (Dict.keys (vols m))) ->
    fold_left Commons.merge_step new_vols (m, log)
    = (with_vols m (vols m ++ new_vols),
       log ++ flat_map
                (fun p => AddedVolume (fst p)
                          :: map (fun v => AddedVersion (r_version v) (fst p))
                                 (versions (snd p)))
                new_vols).
Proof.
  induction new_vols as [|[k nd] rest IH]; intros m log Hnd Hfresh.
  - simpl. now rewrite !app_nil_r, with_vols_id.
  - simpl in Hnd. inversion Hnd as [|? ? Hnotin Hnd']; subst.
    cbn [fold_left]. unfold Commons.merge_step at 2.
    assert (Hk : ~ In k (Dict.keys (vols m))) by (apply Hfresh; now left).
    assert (Hhas : Dict.has k (vols m) = false).
    { apply has_false_iff. now apply lookup_not_in_keys. }
    rewrite Hhas. cbn [negb]. rewrite (set_fresh k nd (vols m) Hk).
    rewrite IH; [|exact Hnd'|].
    + cbn [vols with_vols fst snd flat_map]. rewrite <- !app_assoc. reflexivity.
    + intros k' Hk' Hin. cbn [vols with_vols] in Hin.
      unfold Dict.keys in Hin. rewrite map_app in Hin. apply in_app_or in Hin.
      destruct Hin as [Hin|[<-|[]]].
      * apply (Hfresh k'); [now right|exact Hin].
      * contradiction.
Qed.

(** X11. Reconciliation of a manifest without volumes installs the index
    as it is, in its order, and logs every volume followed by its
    versions. *)
Theorem update_index_installs_index_on_empty :
  forall set_order m new_manifest,
    (forall l, Permutation (set_order l) (nodup string_dec l)) ->
    vols m = [] ->
    NoDup (Dict.keys (vols new_manifest)) ->
    Commons.update_index set_order m new_manifest
    = Ok (flat_map
            (fun p => AddedVolume (fst p)
                      :: map (fun v => AddedVersion (r_version v) (fst p))
                             (versions (snd p)))
            (vols new_manifest),
          [], [], with_vols m (vols new_manifest)).
Proof.
  intros set_order m new_manifest Hso Hempty Hnd.
  assert (Hnil : set_order [] = []).
  { apply Permutation_nil. symmetry. apply (Hso []). }
  unfold Commons.update_index, Commons.merge_loop.
  rewrite (merge_loop_fresh (vols new_manifest) m [] Hnd);
    [|intros k _; rewrite Hempty; intros []].
  rewrite Hempty. cbn [app].
  unfold Commons.seg_ids at 1. rewrite Hempty.
  cbn [Dict.keys map flat_map Py.set_diff filter nodup].
  rewrite Hnil. reflexivity.
Qed.

(** *** The selection through the removal pass *)

Lemma selected_token_differs k e s k0 n0 :
  entry_ok e -> named_entry k e ->
  selected_version e = Some s ->
  k +++ "-" +++ s <> k0 +++ "-v" +++ Py.str_nat n0 ->
  selected_version e
  <> Some (Manifest.fmt_version
             (Commons.extract_version_number (k0 +++ "-v" +++ Py.str_nat n0) k)).
Proof.
  intros [HI2 _] Hnamed Hsel Hid Heq.
  unfold I2 in HI2. rewrite Hsel in HI2. unfold tokens in HI2.
  apply in_map_iff in HI2. destruct HI2 as [r [Hv Hr]].
  unfold named_entry in Hnamed. rewrite Forall_forall in Hnamed.
  pose proof (Hnamed r Hr) as Hrn.
  pose proof (token_test_is_id_test k r k0 n0 Hrn) as Htest.
  set (t := Manifest.fmt_version _) in *.
  rewrite Hsel in Heq. injection Heq as Heq.
  rewrite Hv, <- Heq, String.eqb_refl in Htest.
  symmetry in Htest. apply String.eqb_eq in Htest.
  apply Hid. rewrite <- Htest, <- Hv. symmetry. exact (proj2 Hrn).
Qed.

Lemma remove_seg_inner_selection k0 n0 subjects :
  forall m log m' log',
    NoDup subjects ->
    (forall k, In k subjects ->
       exists e, Dict.lookup k (vols m) = Some e /\ entry_ok e /\ named_entry k e /\
                 exists r, In r (versions e)
                           /\ r_id r <> k0 +++ "-v" +++ Py.str_nat n0) ->
    Commons.remove_seg_inner (k0 +++ "-v" +++ Py.str_nat n0) subjects m log
    = Ok (m', log') ->
    forall k e s,
      Dict.lookup k (vols m) = Some e -> selected_version e = Some s ->
      k +++ "-" +++ s <> k0 +++ "-v" +++ Py.str_nat n0 ->
      exists e', Dict.lookup k (vols m') = Some e' /\ selected_version e' = Some s.
Proof.
  induction subjects as [|k1 rest IH]; intros m log m' log' Hnd Hsub Hrun k e s He Hs Hid.
  - simpl in Hrun. injection Hrun as <- <-. eauto.
  - inversion Hnd as [|? ? Hnotin Hnd']; subst.
    destruct (Hsub k1 (or_introl eq_refl)) as [e1 [He1 [Hok [Hnamed [r [Hr Hrid]]]]]].
    set (seg_id := k0 +++ "-v" +++ Py.str_nat n0) in *.
    set (t := Manifest.fmt_version (Commons.extract_version_number seg_id k1)).
    assert (Hfilter : filter (fun v => negb (r_version v == t)) (versions e1)
                      = filter (fun v => negb (r_id v == seg_id)) (versions e1)).
    { apply filter_ext_in. intros v Hv. f_equal.
      unfold named_entry in Hnamed. rewrite Forall_forall in Hnamed.
      apply token_test_is_id_test. now apply Hnamed. }
    destruct (remove_volume_version_entry m k1 e1 t He1 (proj2 Hok))
      as [l [m1 [Hrm [Hother [_ Hsome]]]]].
    rewrite Hfilter in Hsome.
    assert (Hkept : filter (fun v => negb (r_id v == seg_id)) (versions e1) <> []).
    { intros Hnil.
      assert (Hin : In r (filter (fun v => negb (r_id v == seg_id)) (versions e1))).
      { apply filter_In. split; [exact Hr|].
        apply negb_true_iff. now apply String.eqb_neq. }
      rewrite Hnil in Hin. destruct Hin. }
    destruct (Hsome Hkept) as [e1' [He1' [Hv1 [Hkeep _]]]].
    assert (Hkeys1 : Dict.keys (vols m1) = Dict.keys (vols m)).
    { eapply remove_volume_version_keys; eauto. }
    assert (Hlen : (List.length (vols m1) =? List.length (vols m)) = true).
    { apply Nat.eqb_eq. unfold Dict.keys in Hkeys1.
      rewrite <- (length_map fst (vols m1)), <- (length_map fst (vols m)).
      now rewrite Hkeys1. }
    simpl in Hrun. fold seg_id t in Hrun. rewrite Hrm in Hrun. simpl in Hrun.
    rewrite Hlen in Hrun.
    assert (Hsub' : forall k', In k' rest ->
              exists e', Dict.lookup k' (vols m1) = Some e' /\ entry_ok e' /\
                         named_entry k' e' /\
                         exists r', In r' (versions e') /\ r_id r' <> seg_id).
    { intros k' Hk'. destruct (Hsub k' (or_intror Hk')) as [e' He'].
      exists e'. rewrite Hother; [exact He'|]. intros ->. contradiction. }
    destruct (String.eqb_spec k k1) as [->|Hne].
    + rewrite He1 in He. injection He as <-.
      destruct (Hkeep (selected_token_differs k1 e1 s k0 n0 Hok Hnamed Hs Hid))
        as [Hsel1 _].
      apply (IH m1 _ m' log' Hnd' Hsub' Hrun k1 e1' s He1'); [congruence|exact Hid].
    + apply (IH m1 _ m' log' Hnd' Hsub' Hrun k e s); auto.
      rewrite Hother by exact Hne. exact He.
Qed.

Lemma remove_segs_loop_selection set_removed :
  forall m log m' log',
    NoDup (Dict.keys (vols m)) ->
    (forall seg_id, In seg_id set_removed ->
       exists k0 n0, seg_id = k0 +++ "-v" +++ Py.str_nat n0) ->
    manifest_named m ->
    (forall k e, Dict.lookup k (vols m) = Some e ->
       exists r, In r (versions e) /\ ~ In (r_id r) set_removed) ->
    Commons.remove_segs_loop set_removed m log = Ok (m', log') ->
    forall k e s,
      Dict.lookup k (vols m) = Some e -> selected_version e = Some s ->
      ~ In (k +++ "-" +++ s) set_removed ->
      exists e', Dict.lookup k (vols m') = Some e' /\ selected_version e' = Some s.
Proof.
  induction set_removed as [|seg_id rest IH];
    intros m log m' log' Hnd Hcan Hnamed Hkeep Hrun k e s He Hs Hnot.
  - simpl in Hrun. injection Hrun as <- <-. eauto.
  - destruct (Hcan seg_id (or_introl eq_refl)) as [k0 [n0 ->]].
    assert (Hsub : forall k', In k' (Dict.keys (vols m)) ->
              exists e', Dict.lookup k' (vols m) = Some e' /\ entry_ok e' /\
                         named_entry k' e' /\
                         exists r, In r (versions e')
                                   /\ r_id r <> k0 +++ "-v" +++ Py.str_nat n0).
    { intros k' Hk'. apply in_keys_iff in Hk'. destruct Hk' as [e' He'].
      destruct (Hnamed k' e' He') as [Hok Hname].
      destruct (Hkeep k' e' He') as [r [Hr Hrid]].
      exists e'. split; [exact He'|]. split; [exact Hok|]. split; [exact Hname|].
      exists r. split; [exact Hr|]. intros Heq. apply Hrid. now left. }
    destruct (remove_seg_inner_spec k0 n0 (Dict.keys (vols m)) m log Hnd Hsub)
      as [m1 [log1 [Hinner [Hkeys1 [_ Hin1]]]]].
    cbn [Commons.remove_segs_loop] in Hrun. rewrite Hinner in Hrun.
    cbn [bind] in Hrun.
    assert (Hlook1 : forall k' e1, Dict.lookup k' (vols m1) = Some e1 ->
              exists e', Dict.lookup k' (vols m) = Some e' /\
                versions e1
                = filter (fun r => negb (r_id r == k0 +++ "-v" +++ Py.str_nat n0))
                         (versions e')).
    { intros k' e1 He1.
      assert (Hk : In k' (Dict.keys (vols m))).
      { rewrite <- Hkeys1. apply in_keys_iff. eauto. }
      pose proof Hk as Hk'. apply in_keys_iff in Hk'. destruct Hk' as [e' He'].
      destruct (Hin1 k' e' Hk He') as [e1' [He1' Hv]].
      exists e'. split; [exact He'|]. congruence. }
    assert (Hnamed1 : manifest_named m1).
    { intros k' e1 He1. split.
      - eapply manifest_ok_remove_seg_inner; eauto. now apply manifest_named_ok.
      - destruct (Hlook1 k' e1 He1) as [e' [He' Hv]].
        eapply named_entry_filter; [|exact Hv]. now apply (Hnamed k' e'). }
    destruct (remove_seg_inner_selection k0 n0 (Dict.keys (vols m)) m log m1 log1
                Hnd Hsub Hinner k e s He Hs)
      as [e1 [He1 Hs1]].
    { intros Heq. apply Hnot. now left. }
    assert (Hnd1 : NoDup (Dict.keys (vols m1))) by now rewrite Hkeys1.
    assert (Hcan1 : forall x, In x rest ->
              exists k0 n0, x = k0 +++ "-v" +++ Py.str_nat n0).
    { intros x Hx. apply Hcan. now right. }
    assert (Hkeep1 : forall k' e1', Dict.lookup k' (vols m1) = Some e1' ->
              exists r, In r (versions e1') /\ ~ In (r_id r) rest).
    { intros k' e1' He1'. destruct (Hlook1 k' e1' He1') as [e' [He' Hv]].
      destruct (Hkeep k' e' He') as [r [Hr Hrid]].
      exists r. split.
      * rewrite Hv. apply filter_In. split; [exact Hr|].
        apply negb_true_iff, String.eqb_neq. intros Heq. apply Hrid. now left.
      * intros Hrest. apply Hrid. now right. }
    apply (IH m1 log1 m' log' Hnd1 Hcan1 Hnamed1 Hkeep1 Hrun k e1 s He1 Hs1).
    intros Hin. apply Hnot. now right.
Qed.

(** X10. Reconciliation keeps the selection of a subject as long as the
    selected segmentation is still in the index, whatever else is added or
    removed (a higher version found on disk does not take the selection
    over). *)
Theorem update_index_keeps_selection :
  forall set_order m new_manifest log warnings errors m1,
    (forall l, Permutation (set_order l) (nodup string_dec l)) ->
    NoDup (Dict.keys (vols m)) -> manifest_named m -> index_named new_manifest ->
    Commons.update_index set_order m new_manifest = Ok (log, warnings, errors, m1) ->
    forall k e s,
      Dict.lookup k (vols m) = Some e -> selected_version e = Some s ->
      In (k +++ "-" +++ s) (Commons.seg_ids new_manifest) ->
      Manifest.get_selected_version m1 k = Some s.
Proof.
  intros set_order m new_manifest log warnings errors m1 Hso Hkeys Hnamed Hnew Hrun
         k e s He Hs Hfound.
  set (removed_segs :=
         set_order (Py.set_diff (Commons.seg_ids m) (Commons.seg_ids new_manifest))).
  set (m_b := fst (Commons.remove_volumes_loop
                     (set_order (Py.set_diff (Dict.keys (vols m))
                                             (Dict.keys (vols new_manifest))))
                     (fst (Commons.merge_loop m new_manifest []))
                     (snd (Commons.merge_loop m new_manifest [])))).
  (* the subject of the selected segmentation is in the index *)
  assert (Hk : exists nd, Dict.lookup k (vols new_manifest) = Some nd).
  { apply in_seg_ids in Hfound. destruct Hfound as [k' [nd [r [Hnd [Hr Hid]]]]].
    destruct (proj2 Hnew k' nd (lookup_In _ _ _ Hnd)) as [_ [_ Hn]].
    unfold named_entry in Hn. rewrite Forall_forall in Hn.
    destruct (Hn r Hr) as [[n Hv] Hrid].
    destruct (Hnamed k e He) as [[HI2 Hcan] _].
    unfold I2 in HI2. rewrite Hs in HI2. unfold tokens in HI2.
    apply in_map_iff in HI2. destruct HI2 as [r0 [Hv0 Hr0]].
    unfold canonical_entry in Hcan. rewrite Forall_forall in Hcan.
    destruct (Hcan r0 Hr0) as [n0 Hn0]. rewrite Hv0 in Hn0.
    rewrite Hrid, Hv, Hn0 in Hid.
    change (k' +++ "-" +++ "v" +++ Py.str_nat n) with (k' +++ "-v" +++ Py.str_nat n)
      in Hid.
    change (k +++ "-" +++ "v" +++ Py.str_nat n0) with (k +++ "-v" +++ Py.str_nat n0)
      in Hid.
    apply name_decomposition in Hid; try apply all_chars_str_nat.
    destruct Hid as [-> _]. eauto. }
  destruct Hk as [nd Hnd].
  assert (Hb : exists e_b, Dict.lookup k (vols m_b) = Some e_b
                           /\ selected_version e_b = Some s).
  { unfold m_b. rewrite (m_b_lookup set_order Hso m new_manifest Hnew k), Hnd, He.
    simpl. eexists. split; [reflexivity|]. exact Hs. }
  destruct Hb as [e_b [He_b Hs_b]].
  pose proof (m_b_keys set_order m new_manifest Hkeys) as Hbk.
  pose proof (m_b_named set_order Hso m new_manifest Hnamed Hnew) as Hbn.
  pose proof (m_b_keeps_a_record set_order Hso m new_manifest Hnamed Hnew) as Hbr.
  pose proof (removed_segs_canonical set_order Hso m new_manifest Hnamed) as Hrc.
  fold m_b in Hbk, Hbn, Hbr. fold removed_segs in Hbr, Hrc.
  unfold Commons.update_index in Hrun. fold removed_segs in Hrun.
  revert He_b Hbk Hbn Hbr Hrun. unfold m_b.
  destruct (Commons.merge_loop m new_manifest []) as [ma la]. cbn [fst snd].
  destruct (Commons.remove_volumes_loop _ ma la) as [mb lb]. cbn [fst snd].
  intros He_b Hbk Hbn Hbr Hrun.
  destruct (Commons.remove_segs_loop removed_segs mb lb) as [[m3 log3]|] eqn:Hrs;
    [|discriminate].
  simpl in Hrun. injection Hrun as <- <- <- <-.
  destruct (remove_segs_loop_selection removed_segs mb lb m3 log3 Hbk Hrc Hbn Hbr Hrs
              k e_b s He_b Hs_b) as [e' [He' Hs']].
  { unfold removed_segs. rewrite (in_set_order set_order Hso), in_set_diff. tauto. }
  unfold Manifest.get_selected_version. now rewrite He'.
Qed.

(** *** An index that has just been created *)

Lemma candidates_retimed now1 now2 hash_image segmentations_path sext X tar_fnames :
  map r_id (Commons.candidates now1 hash_image segmentations_path sext X tar_fnames)
  = map r_id (Commons.candidates now2 hash_image segmentations_path sext X tar_fnames)
  /\
  map r_version
      (Commons.candidates now1 hash_image segmentations_path sext X tar_fnames)
  = map r_version
      (Commons.candidates now2 hash_image segmentations_path sext X tar_fnames).
Proof.
  unfold Commons.candidates.
  induction tar_fnames as [|seg rest [IHid IHv]]; [split; reflexivity|].
  cbn [flat_map]. rewrite !map_app, IHid, IHv.
  destruct (negb (Py.startswith seg (X +++ "-v"))); [split; reflexivity|].
  destruct (Commons.extract_version_number seg X); split; reflexivity.
Qed.

Lemma map_nil_iff {A B} (f : A -> B) l : map f l = [] <-> l = [].
Proof. destruct l; simpl; split; intros H; auto; discriminate. Qed.

Section JustCreated.
Variables (now1 now2 : string) (hash_image : string -> string).
Variable set_order : list string -> list string.
Hypothesis set_order_enumerates :
  forall l, Permutation (set_order l) (nodup string_dec l).
Variables (segmentations_path sext : string).
Variables (ref_fnames tar_fnames : list string).
Variables index1 index2 : volumes.

Hypothesis run1 :
  Commons.match_loop now1 hash_image segmentations_path sext tar_fnames
    (set_order ref_fnames) [] = Ok index1.
Hypothesis run2 :
  Commons.match_loop now2 hash_image segmentations_path sext tar_fnames
    (set_order ref_fnames) [] = Ok index2.

Let cands now X :=
  Commons.candidates now hash_image segmentations_path sext X tar_fnames.

Lemma matched_index now index :
  Commons.match_loop now hash_image segmentations_path sext tar_fnames
    (set_order ref_fnames) [] = Ok index ->
  (forall X, (exists e, Dict.lookup X index = Some e)
             <-> In X (set_order ref_fnames) /\ cands now X <> []) /\
  (forall X e, Dict.lookup X index = Some e ->
     Permutation (versions e) (cands now X)).
Proof.
  intros Hrun.
  destruct (match_loop_spec now hash_image segmentations_path sext tar_fnames
              (set_order ref_fnames) (NoDup_set_order set_order set_order_enumerates _)
              [] (fun _ _ => eq_refl))
    as [index' [Hrun' [Hout [Hnone [Hsome Hin]]]]].
  rewrite Hrun in Hrun'. injection Hrun' as <-. split.
  - intros X. split.
    + intros [e He].
      destruct (in_dec string_dec X (set_order ref_fnames)) as [HX|HX].
      * split; [exact HX|]. intros Hc. rewrite (Hnone X HX Hc) in He. discriminate.
      * rewrite (Hout X HX) in He. discriminate.
    + intros [HX Hc]. destruct (Hsome X HX Hc) as [e [He _]]. eauto.
  - intros X e He. apply lookup_In in He. destruct (Hin _ He) as [[]|[_ H]].
    exact (proj1 (proj2 H)).
Qed.

Lemma created_index_agrees m :
  vols m = index1 -> agrees m (Commons.only_volumes index2).
Proof.
  intros Hm.
  destruct (matched_index now1 index1 run1) as [Hk1 Hp1].
  destruct (matched_index now2 index2 run2) as [Hk2 Hp2].
  assert (Hsame : forall X, cands now1 X <> [] <-> cands now2 X <> []).
  { intros X. unfold cands.
    destruct (candidates_retimed now1 now2 hash_image segmentations_path sext X
                tar_fnames) as [Hid _].
    rewrite <- (map_nil_iff r_id (Commons.candidates now1 _ _ _ _ _)).
    rewrite <- (map_nil_iff r_id (Commons.candidates now2 _ _ _ _ _)).
    now rewrite Hid. }
  split; [|split].
  - intros k. rewrite Hm. cbn [vols Commons.only_volumes].
    rewrite !in_keys_iff, Hk1, Hk2, Hsame. tauto.
  - intros k nd r Hin Hr. cbn [vols Commons.only_volumes] in Hin.
    assert (Hnd2 : NoDup (Dict.keys index2)).
    { destruct (match_loop_spec now2 hash_image segmentations_path sext tar_fnames
                  (set_order ref_fnames)
                  (NoDup_set_order set_order set_order_enumerates _)
                  [] (fun _ _ => eq_refl))
        as [index' [Hrun' [_ [_ [_ Hin']]]]].
      rewrite run2 in Hrun'. injection Hrun' as <-.
      clear -Hin' run2 set_order_enumerates.
      pose proof (NoDup_set_order set_order set_order_enumerates ref_fnames) as Hnd.
      revert run2 Hnd. generalize (set_order ref_fnames).
      assert (Hgen : forall names idx idx',
                 NoDup names -> NoDup (Dict.keys idx) ->
                 (forall X, In X names -> ~ In X (Dict.keys idx)) ->
                 Commons.match_loop now2 hash_image segmentations_path sext tar_fnames
                   names idx = Ok idx' ->
                 NoDup (Dict.keys idx')).
      { induction names as [|X rest IH]; intros idx idx' Hnd Hidx Hfresh Hrun;
          simpl in Hrun.
        - now injection Hrun as <-.
        - inversion Hnd as [|? ? Hnotin Hrest]; subst.
          destruct (Commons.candidates _ _ _ _ X tar_fnames) as [|c cs].
          + apply (IH idx idx'); auto. intros Y HY. apply Hfresh. now right.
          + destruct (Commons.sort_versions (c :: cs)) as [sorted|]; [|discriminate].
            simpl in Hrun. apply (IH _ idx' Hrest) in Hrun; auto.
            * rewrite set_fresh by (apply Hfresh; now left).
              unfold Dict.keys. rewrite map_app. simpl.
              apply NoDup_app; [exact Hidx|repeat constructor; intros []|].
              intros k Hk [Heq|[]]. subst k. apply (Hfresh X); [now left|exact Hk].
            * intros Y HY HYk. apply in_keys_iff in HYk. destruct HYk as [e He].
              destruct (String.eqb_spec Y X) as [->|Hne]; [contradiction|].
              rewrite lookup_set_other in He by auto.
              apply (Hfresh Y); [now right|]. apply in_keys_iff. eauto. }
      intros names Hrun Hnd. eapply Hgen; eauto; [constructor|]. intros X _ []. }
    assert (He2 : Dict.lookup k index2 = Some nd) by now apply lookup_of_In.
    assert (Hex1 : exists e1, Dict.lookup k index1 = Some e1).
    { apply Hk1. rewrite Hsame. apply Hk2. eauto. }
    destruct Hex1 as [e1 He1].
    rewrite (get_all_version_strings_lookup m k e1) by now rewrite Hm.
    unfold tokens.
    apply (Permutation_in _ (Permutation_map r_version (Permutation_sym (Hp1 k e1 He1)))).
    fold (cands now1 k). unfold cands.
    rewrite (proj2 (candidates_retimed now1 now2 hash_image segmentations_path sext k
                      tar_fnames)).
    apply in_map. apply (Permutation_in _ (Hp2 k nd He2)). exact Hr.
  - intros seg_id Hin. apply in_seg_ids in Hin.
    destruct Hin as [k [e1 [r [He1 [Hr Hid]]]]]. rewrite Hm in He1.
    assert (Hex2 : exists e2, Dict.lookup k index2 = Some e2).
    { apply Hk2. rewrite <- Hsame. apply Hk1. eauto. }
    destruct Hex2 as [e2 He2].
    assert (Hin2 : In seg_id (map r_id (versions e2))).
    { apply (Permutation_in _ (Permutation_map r_id (Permutation_sym (Hp2 k e2 He2)))).
      fold (cands now2 k). unfold cands.
      rewrite <- (proj1 (candidates_retimed now1 now2 hash_image segmentations_path
                           sext k tar_fnames)).
      rewrite <- Hid. apply in_map.
      apply (Permutation_in _ (Hp1 k e1 He1)). exact Hr. }
    apply in_map_iff in Hin2. destruct Hin2 as [r2 [Hid2 Hr2]].
    apply in_seg_ids. exists k, e2, r2. auto.
Qed.

End JustCreated.

(** X13. An index that has just been created is up to date: an update run
    against the same files, at any later time, changes nothing and logs
    nothing. *)
Theorem update_after_create_changes_nothing :
  forall now1 now2 hash_image set_order segver_directory
         index_name volumes vext segmentations sext vol_dir seg_dir,
    (forall l, Permutation (set_order l) (nodup string_dec l)) ->
    exists log1 w1 e1 matches1 log2 w2 e2 matches2,
      KomsService.match_new_index now1 hash_image set_order segver_directory
        vol_dir seg_dir volumes vext segmentations sext
      = Ok (log1, w1, e1, matches1) /\
      KomsService.get_volseg_matches now2 hash_image set_order segver_directory
        vol_dir seg_dir
        (KomsService.new_index_manifest index_name volumes vext segmentations sext
           matches1)
      = Ok (log2, w2, e2, matches2) /\
      KomsService.update_index set_order
        (KomsService.new_index_manifest index_name volumes vext segmentations sext
           matches1)
        (Commons.only_volumes matches2)
      = Ok ([], [], [],
            KomsService.new_index_manifest index_name volumes vext segmentations sext
              matches1).
Proof.
  intros now1 now2 hash_image set_order segver_directory
         index_name volumes vext segmentations sext vol_dir seg_dir Hso.
  unfold KomsService.match_new_index, KomsService.get_volseg_matches,
    KomsService.get_paths_and_exts, KomsService.update_index.
  cbn [KomsService.new_index_manifest Manifest.build_empty_manifest with_vols
       volume_path volume_extension label_path label_extension].
  set (vp := Py.join2 segver_directory volumes).
  set (sp := Py.join2 segver_directory segmentations).
  destruct (verify_volseg_match_shape now1 hash_image set_order
              vp vext sp sext vol_dir seg_dir) as [log1 [errors1 [_ Hshape1]]].
  destruct (verify_volseg_match_shape now2 hash_image set_order
              vp vext sp sext vol_dir seg_dir) as [log2 [errors2 [_ Hshape2]]].
  destruct (match_loop_total now1 hash_image sp sext (names_found seg_dir sext)
              (set_order (names_found vol_dir vext)) []) as [index1 Hrun1].
  destruct (match_loop_total now2 hash_image sp sext (names_found seg_dir sext)
              (set_order (names_found vol_dir vext)) []) as [index2 Hrun2].
  rewrite Hrun1 in Hshape1. rewrite Hrun2 in Hshape2. simpl bind in Hshape1, Hshape2.
  eexists log1, _, errors1, index1, log2, _, errors2, index2.
  split; [exact Hshape1|]. split; [exact Hshape2|].
  apply (update_index_noop set_order Hso).
  apply (created_index_agrees now1 now2 hash_image set_order Hso sp sext
           (names_found vol_dir vext) (names_found seg_dir sext) index1 index2
           Hrun1 Hrun2).
  reflexivity.
Qed.

(** ** The service operations *)

Lemma get_all_version_strings_map m k :
  Manifest.get_all_version_strings m k = map r_version (Manifest.get_all_versions m k).
Proof.
  unfold Manifest.get_all_version_strings, Manifest.get_all_versions, Dict.has.
  now destruct (Dict.lookup k (vols m)).
Qed.

(** X15. The number [link_segmentation] gives to a segmentation whose
    name carries none is at least 1 and not in use for the volume. *)
Theorem derive_version_is_fresh :
  forall m seg_base vol_base,
    Forall (fun r => canonical (r_version r)) (Manifest.get_all_versions m vol_base) ->
    Commons.extract_version_number seg_base vol_base = None ->
    exists version,
      KomsService.derive_version m seg_base vol_base = Ok version /\
      1 <= version /\
      ~ In ("v" +++ Py.str_nat version)
           (Manifest.get_all_version_strings m vol_base).
Proof.
  intros m seg_base vol_base Hcan Hnone.
  unfold KomsService.derive_version. rewrite Hnone.
  rewrite get_all_version_strings_map.
  unfold Manifest.get_latest_version, Manifest.get_all_versions in *.
  destruct (Dict.lookup vol_base (vols m)) as [e|].
  - assert (Hnum : Forall (fun r => version_number r <> None) (versions e)).
    { rewrite Forall_forall in *. intros r Hr.
      destruct (canonical_number r (Hcan r Hr)) as [n [Hn _]]. congruence. }
    destruct (latest_loop_numbered (versions e) Hnum None)
      as [res [Hres [_ Hsome]]].
    rewrite Hres. simpl bind. eexists. split; [reflexivity|].
    destruct res as [l|].
    + split; [lia|]. intros Hin. apply in_map_iff in Hin.
      destruct Hin as [r [Hv Hr]].
      destruct (Hsome l eq_refl) as [_ [_ Hmax]].
      pose proof (Hmax r (l + 1) Hr (version_number_canonical r (l + 1) Hv)). lia.
    + split; [lia|]. intros Hin. apply in_map_iff in Hin.
      destruct Hin as [r [Hv Hr]].
      destruct (latest_loop_numbered (versions e) Hnum None)
        as [res' [Hres' [Hnone' _]]].
      rewrite Hres in Hres'. injection Hres' as <-.
      destruct (proj1 Hnone' eq_refl) as [Hnil _]. rewrite Hnil in Hr. destruct Hr.
  - simpl. exists 1. split; [reflexivity|]. split; [lia|]. intros [].
Qed.

(** X16. The name [link_segmentation] gives a file, the volume, [-v] and
    the number, is read back as that number: by the matcher, and by
    [link_segmentation] itself whatever the manifest holds, so that a file
    it has renamed keeps its version. *)
Theorem derive_version_reads_canonical_name :
  forall m vol_base version,
    Commons.extract_version_number (vol_base +++ "-v" +++ Py.str_nat version) vol_base
    = Some version /\
    KomsService.derive_version m (vol_base +++ "-v" +++ Py.str_nat version) vol_base
    = Ok version.
Proof.
  intros m vol_base version. unfold KomsService.derive_version.
  rewrite extract_canonical. split; reflexivity.
Qed.

(** *** select_segmentation *)

Lemma set_selected_lookup m k v k' :
  Dict.lookup k' (vols (Manifest.set_selected_version m k v))
  = if k' == k
    then option_map (fun e => with_selected e v) (Dict.lookup k (vols m))
    else Dict.lookup k' (vols m).
Proof.
  unfold Manifest.set_selected_version.
  destruct (String.eqb_spec k' k) as [->|Hne].
  - destruct (Dict.lookup k (vols m)) as [e|] eqn:He; simpl.
    + apply lookup_set_same.
    + exact He.
  - destruct (Dict.lookup k (vols m)) as [e|] eqn:He; simpl; [|reflexivity].
    now apply lookup_set_other.
Qed.

(** X18. When [select_segmentation] reports no error, the requested version is
    the selection, it is one of the volume's versions, both files exist,
    and nothing else has changed. *)
Theorem select_segmentation_success :
  forall segver_directory isfile m volume_fname seg_version log warnings m',
    KomsService.select_segmentation segver_directory isfile m volume_fname seg_version
    = Ok (log, warnings, [], m') ->
    let vol_base :=
      Py.slice_to_neg (String.length (volume_extension m)) volume_fname in
    let token := Py.strip seg_version in
    Manifest.get_selected_version m' vol_base = Some token /\
    In token (Manifest.get_all_version_strings m' vol_base) /\
    (forall k, Manifest.get_all_versions m' k = Manifest.get_all_versions m k) /\
    (forall k, k <> vol_base ->
       Manifest.get_selected_version m' k = Manifest.get_selected_version m k) /\
    isfile (Py.join2 (Py.join2 segver_directory (volume_path m)) volume_fname) = true /\
    isfile (Py.join2 (Py.join2 segver_directory (label_path m))
              (vol_base +++ "-" +++ token +++ label_extension m)) = true.
Proof.
  intros segver_directory isfile m volume_fname seg_version log warnings m' Hrun
         vol_base token.
  unfold KomsService.select_segmentation, KomsService.get_paths_and_exts in Hrun.
  fold token in Hrun. cbv zeta in Hrun.
  destruct (negb (Py.startswith token "v")
            || negb (Py.isdigit (Py.slice_from_1 token))); [discriminate|].
  destruct (negb (Py.endswith volume_fname (volume_extension m))); [discriminate|].
  fold vol_base in Hrun.
  destruct (negb (Dict.has vol_base (vols m))) eqn:Hhas; [discriminate|].
  destruct (isfile (Py.join2 (Py.join2 segver_directory (volume_path m)) volume_fname))
    eqn:Hvol; [|discriminate]. cbn [negb] in Hrun.
  destruct (negb (Py.mem token (Manifest.get_all_version_strings m vol_base)))
    eqn:Hmem; [discriminate|].
  destruct (isfile (Py.join2 (Py.join2 segver_directory (label_path m))
                      (vol_base +++ "-" +++ token +++ label_extension m)))
    eqn:Hseg; cbn [negb] in Hrun.
  2:{ destruct (Manifest.remove_volume_version m vol_base token) as [[l mr]|];
        [|discriminate]. simpl in Hrun.
      destruct (match Manifest.get_selected_version m vol_base with
                | Some s => s == token
                | None => false
                end).
      - destruct (Manifest.get_latest_version mr vol_base); discriminate.
      - discriminate. }
  assert (Hm' : m' = Manifest.set_selected_version m vol_base (Some token)).
  { destruct (match Manifest.get_selected_version m vol_base with
              | Some s => s == token
              | None => false
              end); now injection Hrun as _ _ <-. }
  apply negb_false_iff in Hhas. apply has_true_iff in Hhas. destruct Hhas as [e He].
  apply negb_false_iff, mem_true_iff in Hmem.
  assert (Hvers : forall k, Manifest.get_all_versions m' k
                            = Manifest.get_all_versions m k).
  { intros k. subst m'. unfold Manifest.get_all_versions.
    rewrite set_selected_lookup.
    destruct (String.eqb_spec k vol_base) as [->|_]; [|reflexivity].
    now rewrite He. }
  split; [|split; [|split; [|split; [|split]]]].
  - subst m'. unfold Manifest.get_selected_version.
    rewrite set_selected_lookup, String.eqb_refl, He. reflexivity.
  - rewrite get_all_version_strings_map, Hvers, <- get_all_version_strings_map.
    exact Hmem.
  - exact Hvers.
  - intros k Hk. subst m'. unfold Manifest.get_selected_version.
    rewrite set_selected_lookup. apply String.eqb_neq in Hk. now rewrite Hk.
  - reflexivity.
  - reflexivity.
Qed.

(** X19. With every file in place, a call of [select_segmentation] that
    reports an error leaves the manifest as it was. *)
Theorem select_segmentation_error_keeps_manifest :
  forall segver_directory isfile m volume_fname seg_version log warnings errors m',
    (forall path, isfile path = true) ->
    KomsService.select_segmentation segver_directory isfile m volume_fname seg_version
    = Ok (log, warnings, errors, m') ->
    errors <> [] ->
    m' = m.
Proof.
  intros segver_directory isfile m volume_fname seg_version log warnings errors m'
         Hfiles Hrun Herr.
  unfold KomsService.select_segmentation, KomsService.get_paths_and_exts in Hrun.
  cbv zeta in Hrun. rewrite !Hfiles in Hrun. cbn [negb] in Hrun.
  repeat match type of Hrun with
         | (if ?c then _ else _) = _ => destruct c
         end;
    injection Hrun as <- <- <- <-; try reflexivity; now destruct Herr.
Qed.

(** X20. Selecting a version for a volume whose file is gone removes the
    volume from the manifest, with all its versions. *)
Theorem select_segmentation_drops_volume_without_file :
  forall segver_directory isfile m volume_fname seg_version,
    let vol_base :=
      Py.slice_to_neg (String.length (volume_extension m)) volume_fname in
    let token := Py.strip seg_version in
    let volume_file :=
      Py.join2 (Py.join2 segver_directory (volume_path m)) volume_fname in
    Py.startswith token "v" = true ->
    Py.isdigit (Py.slice_from_1 token) = true ->
    Py.endswith volume_fname (volume_extension m) = true ->
    Dict.has vol_base (vols m) = true ->
    isfile volume_file = false ->
    exists m',
      KomsService.select_segmentation segver_directory isfile m volume_fname seg_version
      = Ok ([], [], [VolumeFileMissing volume_file; VolumeRemoved vol_base], m') /\
      Manifest.get_all_versions m' vol_base = [] /\
      Manifest.get_selected_version m' vol_base = None /\
      (forall k, k <> vol_base -> Dict.lookup k (vols m') = Dict.lookup k (vols m)).
Proof.
  intros segver_directory isfile m volume_fname seg_version vol_base token volume_file
         Hv Hd Hext Hhas Hfile.
  exists (Manifest.remove_volume m vol_base). split.
  - unfold KomsService.select_segmentation, KomsService.get_paths_and_exts.
    cbv zeta. fold token. rewrite Hv, Hd, Hext. cbn [negb orb].
    fold vol_base. rewrite Hhas. cbn [negb]. fold volume_file. rewrite Hfile.
    reflexivity.
  - assert (Hk : Dict.lookup vol_base (vols (Manifest.remove_volume m vol_base)) = None).
    { rewrite remove_volume_lookup. now rewrite String.eqb_refl. }
    unfold Manifest.get_all_versions, Manifest.get_selected_version. rewrite Hk.
    split; [reflexivity|]. split; [reflexivity|].
    intros k Hne. rewrite remove_volume_lookup.
    apply String.eqb_neq in Hne. now rewrite Hne.
Qed.

(** *** update_segmentation_metadata *)

Lemma update_record_keeps_identity now vol_base seg_version seg_author seg_notes
      seg_tags v :
  let v' := snd (KomsService.update_record now vol_base seg_version seg_author
                   seg_notes seg_tags v) in
  r_id v' = r_id v /\ r_hash v' = r_hash v /\ r_ts v' = r_ts v /\
  r_version v' = r_version v.
Proof.
  unfold KomsService.update_record.
  destruct (negb (seg_author == "") && negb (seg_author == r_author v));
    destruct (negb (seg_notes == "") && negb (seg_notes == r_notes v));
    destruct (negb (py_eq (PStr seg_tags) (PStr ""))
              && negb (py_eq (PStr seg_tags) (PList (r_tags v))));
    simpl; auto.
Qed.

Lemma update_first_keeps_identity now vol_base seg_version seg_author seg_notes
      seg_tags vs :
  forall log vs',
    KomsService.update_first now vol_base seg_version seg_author seg_notes seg_tags vs
    = Some (log, vs') ->
    map r_id vs' = map r_id vs /\ map r_hash vs' = map r_hash vs /\
    map r_ts vs' = map r_ts vs /\ map r_version vs' = map r_version vs.
Proof.
  induction vs as [|v vs IH]; intros log vs' H; simpl in H; [discriminate|].
  destruct (r_version v == seg_version).
  - pose proof (update_record_keeps_identity now vol_base seg_version seg_author
                  seg_notes seg_tags v) as Hid.
    destruct (KomsService.update_record now vol_base seg_version seg_author
                seg_notes seg_tags v) as [l v'].
    injection H as <- <-. simpl in *.
    destruct Hid as [-> [-> [-> ->]]]. auto.
  - destruct (KomsService.update_first now vol_base seg_version seg_author
                seg_notes seg_tags vs) as [[l vs'']|]; [|discriminate].
    injection H as <- <-. simpl.
    destruct (IH l vs'' eq_refl) as [-> [-> [-> ->]]]. auto.
Qed.

(** X23. A metadata update never touches what identifies a segmentation or
    what is selected: the subjects, every selection, and the id, hash,
    creation time and version token of every record stay as they were. *)
Theorem update_segmentation_metadata_keeps_structure :
  forall now m volume_fname seg_version seg_author seg_notes seg_tags,
    let m' :=
      snd (KomsService.update_segmentation_metadata now m volume_fname seg_version
             seg_author seg_notes seg_tags) in
    Dict.keys (vols m') = Dict.keys (vols m) /\
    forall k,
      Manifest.get_selected_version m' k = Manifest.get_selected_version m k /\
      map r_id (Manifest.get_all_versions m' k)
      = map r_id (Manifest.get_all_versions m k) /\
      map r_hash (Manifest.get_all_versions m' k)
      = map r_hash (Manifest.get_all_versions m k) /\
      map r_ts (Manifest.get_all_versions m' k)
      = map r_ts (Manifest.get_all_versions m k) /\
      map r_version (Manifest.get_all_versions m' k)
      = map r_version (Manifest.get_all_versions m k).
Proof.
  intros now m volume_fname seg_version seg_author seg_notes seg_tags.
  unfold KomsService.update_segmentation_metadata.
  set (vol_base := Py.slice_to_neg _ volume_fname).
  destruct (Dict.lookup vol_base (vols m)) as [e|] eqn:He; [|simpl; auto 10].
  destruct (KomsService.update_first now vol_base seg_version seg_author seg_notes
              seg_tags (versions e)) as [[log vs']|] eqn:Hup; [|simpl; auto 10].
  destruct (update_first_keeps_identity now vol_base seg_version seg_author seg_notes
              seg_tags (versions e) log vs' Hup) as [Hid [Hh [Hts Hv]]].
  cbn [snd vols with_vols]. split.
  - apply keys_set_existing. apply has_true_iff. eauto.
  - intros k. unfold Manifest.get_selected_version, Manifest.get_all_versions.
    cbn [vols with_vols].
    destruct (String.eqb_spec k vol_base) as [->|Hne].
    + rewrite lookup_set_same, He. cbn [selected_version versions with_versions]. auto.
    + rewrite lookup_set_other by exact Hne. auto.
Qed.

Lemma update_record_settles now1 now2 vol_base seg_version seg_author seg_notes v :
  let v1 := snd (KomsService.update_record now1 vol_base seg_version seg_author
                   seg_notes "" v) in
  KomsService.update_record now2 vol_base seg_version seg_author seg_notes "" v1
  = ([AuthorUnchanged (r_author v1); NotesUnchanged (r_notes v1);
      TagsUnchanged (r_tags v1); NoMetadataChange vol_base seg_version], v1).
Proof.
  unfold KomsService.update_record. cbn [py_eq]. rewrite String.eqb_refl.
  cbn [negb andb].
  destruct (String.eqb_spec seg_author "") as [Ha|Ha];
    destruct (String.eqb_spec seg_author (r_author v)) as [Hav|Hav];
    destruct (String.eqb_spec seg_notes "") as [Hn|Hn];
    destruct (String.eqb_spec seg_notes (r_notes v)) as [Hnv|Hnv];
    cbn [negb andb snd r_author r_notes r_tags r_id r_hash r_ts r_version
         r_last_updated app];
    rewrite ?String.eqb_refl;
    repeat match goal with
           | H : ?a = ?b |- context [?a == ?b] =>
               rewrite (proj2 (String.eqb_eq a b) H)
           | H : ?a <> ?b |- context [?a == ?b] =>
               rewrite (proj2 (String.eqb_neq a b) H)
           end;
    cbn [negb andb snd r_author r_notes r_tags r_id r_hash r_ts r_version
         r_last_updated app];
    try reflexivity; destruct v; reflexivity.
Qed.

Lemma update_first_settles now1 now2 vol_base seg_version seg_author seg_notes vs :
  forall log vs',
    KomsService.update_first now1 vol_base seg_version seg_author seg_notes "" vs
    = Some (log, vs') ->
    exists v1,
      In v1 vs' /\
      KomsService.update_first now2 vol_base seg_version seg_author seg_notes "" vs'
      = Some ([AuthorUnchanged (r_author v1); NotesUnchanged (r_notes v1);
               TagsUnchanged (r_tags v1); NoMetadataChange vol_base seg_version],
              vs').
Proof.
  induction vs as [|v vs IH]; intros log vs' H; simpl in H; [discriminate|].
  destruct (r_version v == seg_version) eqn:Hv.
  - pose proof (update_record_keeps_identity now1 vol_base seg_version seg_author
                  seg_notes "" v) as Hid.
    pose proof (update_record_settles now1 now2 vol_base seg_version seg_author
                  seg_notes v) as Hset.
    destruct (KomsService.update_record now1 vol_base seg_version seg_author
                seg_notes "" v) as [l v1].
    injection H as <- <-. cbn [snd] in Hid, Hset.
    exists v1. split; [now left|].
    cbn [KomsService.update_first].
    destruct Hid as [_ [_ [_ Hver]]]. rewrite Hver, Hv, Hset. reflexivity.
  - destruct (KomsService.update_first now1 vol_base seg_version seg_author
                seg_notes "" vs) as [[l vs'']|] eqn:Hrest; [|discriminate].
    injection H as <- <-.
    destruct (IH l vs'' eq_refl) as [v1 [Hin Hrun]].
    exists v1. split; [now right|].
    cbn [KomsService.update_first]. rewrite Hv, Hrun. reflexivity.
Qed.

(** X24. For author and notes the update is idempotent: repeating a call that
    gave no tags reports every field unchanged and leaves the manifest,
    last-updated included, as the first call left it. *)
Theorem update_metadata_author_notes_idempotent :
  forall now1 now2 m volume_fname seg_version seg_author seg_notes log1 m1,
    KomsService.update_segmentation_metadata now1 m volume_fname seg_version
      seg_author seg_notes ""
    = (log1, [], [], m1) ->
    let vol_base :=
      Py.slice_to_neg (String.length (volume_extension m)) volume_fname in
    exists author notes tags,
      KomsService.update_segmentation_metadata now2 m1 volume_fname seg_version
        seg_author seg_notes ""
      = ([AuthorUnchanged author; NotesUnchanged notes; TagsUnchanged tags;
          NoMetadataChange vol_base seg_version;
          BlankLine; MetadataUpdated vol_base seg_version],
         [], [], m1).
Proof.
  intros now1 now2 m volume_fname seg_version seg_author seg_notes log1 m1 Hrun
         vol_base.
  unfold KomsService.update_segmentation_metadata in Hrun. fold vol_base in Hrun.
  destruct (Dict.lookup vol_base (vols m)) as [e|] eqn:He; [|discriminate].
  destruct (KomsService.update_first now1 vol_base seg_version seg_author seg_notes
              "" (versions e)) as [[log vs']|] eqn:Hup; [|discriminate].
  injection Hrun as _ <-.
  destruct (update_first_settles now1 now2 vol_base seg_version seg_author seg_notes
              (versions e) log vs' Hup) as [v1 [_ Hagain]].
  exists (r_author v1), (r_notes v1), (r_tags v1).
  unfold KomsService.update_segmentation_metadata.
  cbn [volume_extension with_vols vols]. fold vol_base.
  rewrite lookup_set_same. cbn [versions with_versions]. rewrite Hagain.
  cbn [app]. rewrite set_set. reflexivity.
Qed.

(** ** The viewer's parser (kernel.py) *)

Lemma list_index_nat {A} (l : list A) i :
  i < List.length l -> Py.list_index l (Z.of_nat i) = nth_error l i.
Proof.
  intros Hi. unfold Py.list_index.
  assert (H1 : (0 <=? Z.of_nat i)%Z = true) by (apply Z.leb_le; lia).
  assert (H2 : (Z.of_nat i <? Z.of_nat (List.length l))%Z = true)
    by (apply Z.ltb_lt; lia).
  rewrite H1, H2. cbn [andb]. now rewrite Nat2Z.id.
Qed.

Lemma load_step_aligned ts :
  forall p,
    Kernel.cidx (Kernel.p_manager p)
    = Z.of_nat (List.length (Kernel.item (Kernel.p_manager p))) ->
    Kernel.p_volumes p = map Kernel.abs_vol_fpath (Kernel.item (Kernel.p_manager p)) ->
    Kernel.p_segmentations p
    = map Kernel.abs_seg_fpath (Kernel.item (Kernel.p_manager p)) ->
    (forall i t, nth_error (Kernel.item (Kernel.p_manager p)) i = Some t ->
                 Kernel.index t = Z.of_nat i) ->
    let p' := fold_left Kernel.load_step ts p in
    Kernel.cidx (Kernel.p_manager p')
    = Z.of_nat (List.length (Kernel.item (Kernel.p_manager p'))) /\
    Kernel.p_volumes p' = map Kernel.abs_vol_fpath (Kernel.item (Kernel.p_manager p')) /\
    Kernel.p_segmentations p'
    = map Kernel.abs_seg_fpath (Kernel.item (Kernel.p_manager p')) /\
    (forall i t, nth_error (Kernel.item (Kernel.p_manager p')) i = Some t ->
                 Kernel.index t = Z.of_nat i).
Proof.
  induction ts as [|[[k v] s] ts IH]; intros p Hc Hv Hs Hi; [simpl; auto|].
  cbn [fold_left]. apply IH.
  - cbn. rewrite length_app. cbn. rewrite Hc. lia.
  - cbn. rewrite map_app, Hv. reflexivity.
  - cbn. rewrite map_app, Hs. reflexivity.
  - cbn. intros i t Hnth.
    destruct (Nat.lt_ge_cases i (List.length (Kernel.item (Kernel.p_manager p))))
      as [Hlt|Hge].
    + rewrite nth_error_app1 in Hnth by exact Hlt. now apply Hi.
    + rewrite nth_error_app2 in Hnth by exact Hge.
      destruct (i - List.length (Kernel.item (Kernel.p_manager p))) as [|j] eqn:Hj.
      * simpl in Hnth. injection Hnth as <-. cbn. rewrite Hc.
        f_equal. lia.
      * simpl in Hnth. destruct j; discriminate.
Qed.

(** X27. Whatever the configuration and the manifest hold, and whether or not
    they can be read, the three lists of a parser are aligned: the i-th
    name, volume path and segmentation path belong together, and the i-th
    tuple of the list manager carries them with the index i. *)
Theorem parser_lists_are_aligned :
  forall path_exists load_config load_manifest inputDirectoryPath p,
    Kernel.new_parser path_exists load_config load_manifest inputDirectoryPath
    = Ok p ->
    List.length (Kernel.get_volumes p) = List.length (Kernel.get_name_list p) /\
    List.length (Kernel.get_segmentations p) = List.length (Kernel.get_name_list p) /\
    forall i,
      i < List.length (Kernel.get_name_list p) ->
      exists nm v s,
        nth_error (Kernel.get_name_list p) i = Some nm /\
        nth_error (Kernel.get_volumes p) i = Some v /\
        nth_error (Kernel.get_segmentations p) i = Some s /\
        Kernel.get_tuple (Kernel.get_SegVerTListManager p) (Z.of_nat i)
        = Some (Kernel.mkTuple (Z.of_nat i) nm v s).
Proof.
  intros path_exists load_config load_manifest dir p Hnew.
  assert (Hinv :
    Kernel.cidx (Kernel.p_manager p)
    = Z.of_nat (List.length (Kernel.item (Kernel.p_manager p))) /\
    Kernel.p_volumes p = map Kernel.abs_vol_fpath (Kernel.item (Kernel.p_manager p)) /\
    Kernel.p_segmentations p
    = map Kernel.abs_seg_fpath (Kernel.item (Kernel.p_manager p)) /\
    (forall i t, nth_error (Kernel.item (Kernel.p_manager p)) i = Some t ->
                 Kernel.index t = Z.of_nat i)).
  { unfold Kernel.new_parser in Hnew.
    destruct (negb (path_exists dir)); [discriminate|].
    destruct (negb (path_exists _)); [discriminate|].
    injection Hnew as <-. unfold Kernel.load.
    assert (Hempty : forall i (t : Kernel.SegVerTuple),
              nth_error (@nil Kernel.SegVerTuple) i = Some t ->
              Kernel.index t = Z.of_nat i)
      by (intros [|i] t H; discriminate).
    destruct (load_config _) as [cfg|]; [|cbn; auto].
    destruct (Kernel.index_active cfg) as [active|]; [|cbn; auto].
    destruct (load_manifest _ active) as [m|]; [|cbn; auto].
    destruct (Kernel.summary_name cfg) as [nm|]; [|cbn; auto].
    destruct (Kernel.summary_description cfg) as [d|]; [|cbn; auto].
    apply load_step_aligned; cbn; auto. }
  destruct Hinv as [Hc [Hv [Hs Hi]]].
  unfold Kernel.get_volumes, Kernel.get_segmentations, Kernel.get_name_list,
    Kernel.get_vol_name_list, Kernel.get_SegVerTListManager, Kernel.get_tuple.
  rewrite Hv, Hs, !length_map. split; [reflexivity|]. split; [reflexivity|].
  intros i Hlt.
  destruct (nth_error (Kernel.item (Kernel.p_manager p)) i) as [t|] eqn:Ht;
    [|apply nth_error_None in Ht; lia].
  exists (Kernel.name t), (Kernel.abs_vol_fpath t), (Kernel.abs_seg_fpath t).
  rewrite !nth_error_map, Ht. cbn [option_map].
  split; [reflexivity|]. split; [reflexivity|]. split; [reflexivity|].
  rewrite (list_index_nat _ i Hlt), Ht, <- (Hi i t Ht). now destruct t.
Qed.

Lemma load_step_lists ts :
  forall p,
    let p' := fold_left Kernel.load_step ts p in
    Kernel.p_volumes p' = Kernel.p_volumes p ++ map (fun t => snd (fst t)) ts /\
    Kernel.p_segmentations p' = Kernel.p_segmentations p ++ map snd ts /\
    Kernel.p_name p' = Kernel.p_name p /\
    Kernel.p_description p' = Kernel.p_description p.
Proof.
  induction ts as [|[[k v] s] ts IH]; intros p.
  - cbn. now rewrite !app_nil_r.
  - cbn [fold_left]. destruct (IH (Kernel.load_step p (k, v, s))) as [-> [-> [-> ->]]].
    cbn. rewrite <- !app_assoc. auto.
Qed.

(** X28. The viewer shows the pairs the export writes: for an instance whose
    configuration and manifest can be read, the rows [export_index] writes
    from that manifest are, in order, the volume and segmentation paths the
    parser hands to the viewer. *)
Theorem viewer_shows_the_exported_pairs :
  forall path_exists load_config load_manifest working_directory
         cfg active nm description m
         active_index isdir writable output_csv_path full_path log lines,
    let config_directory := Py.join2 working_directory ".segverhandler" in
    let config_file := Py.join2 config_directory "config" in
    path_exists working_directory = true ->
    path_exists config_file = true ->
    load_config config_file = Some cfg ->
    Kernel.index_active cfg = Some active ->
    Kernel.summary_name cfg = Some nm ->
    Kernel.summary_description cfg = Some description ->
    load_manifest config_directory active = Ok m ->
    KomsService.export_index working_directory active_index isdir writable
      output_csv_path full_path m
    = Ok (log, lines) ->
    exists p,
      Kernel.new_parser path_exists load_config load_manifest working_directory = Ok p /\
      lines
      = csv_header
        :: map (fun pair => Py.rstrip (fst pair) +++ "," +++ Py.rstrip (snd pair)
                              +++ Commons.newline)
               (combine (Kernel.get_volumes p) (Kernel.get_segmentations p)).
Proof.
  intros path_exists load_config load_manifest working_directory
         cfg active nm description m
         active_index isdir writable output_csv_path full_path log lines
         config_directory config_file Hdir Hfile Hcfg Hactive Hnm Hdesc Hm Hexport.
  eexists. split.
  - unfold Kernel.new_parser. fold config_directory. fold config_file.
    rewrite Hdir, Hfile. cbn [negb]. reflexivity.
  - unfold Kernel.load. rewrite Hcfg, Hactive, Hm, Hnm, Hdesc.
    unfold Kernel.get_volumes, Kernel.get_segmentations.
    match goal with
    | |- context [fold_left Kernel.load_step ?ts ?p0] =>
        destruct (load_step_lists ts p0) as [-> [-> _]]
    end.
    cbn [Kernel.p_volumes Kernel.p_segmentations app].
    unfold KomsService.export_index in Hexport.
    destruct (Commons.validate_csv_path isdir full_path); [|discriminate].
    destruct (Manifest.get_volume_seg_tuples m working_directory) as [|t ts] eqn:Ht;
      [discriminate|].
    destruct writable; [|discriminate].
    injection Hexport as _ <-. unfold csv_header. f_equal.
    assert (Hrows : forall l : list (string * string * string),
              map (fun pair => Py.rstrip (fst pair) +++ "," +++ Py.rstrip (snd pair)
                                 +++ Commons.newline)
                  (combine (map (fun t => snd (fst t)) l) (map snd l))
              = map (fun t : string * string * string =>
                       let '(_, vfname, sfname) := t in
                       Py.rstrip vfname +++ "," +++ Py.rstrip sfname
                         +++ Commons.newline) l).
    { induction l as [|[[k v] s] l IH]; [reflexivity|].
      cbn [map combine fst snd]. now rewrite IH. }
    rewrite Hrows. reflexivity.
Qed.

(** ** The notification centre (quickviewer.py) *)

Section Notifications.
Variables observer callback : Type.
Variable observer_eqb : observer -> observer -> bool.
Variable callback_eqb : callback -> callback -> bool.
Hypothesis observer_eqb_eq : forall a b, observer_eqb a b = true <-> a = b.
Hypothesis callback_eqb_eq : forall a b, callback_eqb a b = true <-> a = b.

Local Abbreviation observers := (NotificationCentre.observers observer callback).
Local Abbreviation get := (@NotificationCentre.get observer callback).
Local Abbreviation set := (@NotificationCentre.set observer callback).
Local Abbreviation addObserver :=
  (NotificationCentre.addObserver observer callback observer_eqb callback_eqb).
Local Abbreviation removeObserver :=
  (NotificationCentre.removeObserver observer callback observer_eqb).
Local Abbreviation postNotification :=
  (@NotificationCentre.postNotification observer callback).
Local Abbreviation without := (NotificationCentre.without observer callback observer_eqb).

Lemma get_set_same n l (d : observers) : get n (set n l d) = Some l.
Proof.
  induction d as [|[k l'] d IH]; simpl.
  - now rewrite String.eqb_refl.
  - destruct (n == k) eqn:E; simpl; rewrite E; auto.
Qed.

Lemma get_set_other n n' l (d : observers) :
  n' <> n -> get n' (set n l d) = get n' d.
Proof.
  intros Hne. induction d as [|[k l'] d IH]; simpl.
  - apply String.eqb_neq in Hne. now rewrite Hne.
  - destruct (n == k) eqn:E; simpl.
    + apply String.eqb_eq in E. subst k.
      apply String.eqb_neq in Hne. now rewrite Hne.
    + now rewrite IH.
Qed.

Lemma get_map_without obs n (d : observers) :
  get n (map (fun p => (fst p, without obs (snd p))) d)
  = option_map (without obs) (get n d).
Proof.
  induction d as [|[k l] d IH]; simpl; [reflexivity|].
  destruct (n == k); [reflexivity|exact IH].
Qed.

Lemma pair_registered obs cb l :
  existsb (NotificationCentre.pair_eqb observer callback observer_eqb callback_eqb
             (obs, cb)) l = true
  <-> In (obs, cb) l.
Proof.
  rewrite existsb_exists. unfold NotificationCentre.pair_eqb. split.
  - intros [[o c] [Hin H]]. simpl in H. apply andb_true_iff in H.
    destruct H as [Ho Hc]. apply observer_eqb_eq in Ho. apply callback_eqb_eq in Hc.
    now subst.
  - intros Hin. exists (obs, cb). split; [exact Hin|]. simpl.
    apply andb_true_iff. split; [now apply observer_eqb_eq|now apply callback_eqb_eq].
Qed.

Lemma post_after_add (d : observers) obs cb aName n :
  postNotification (addObserver d obs cb aName) n
  = if n == aName
    then if existsb (NotificationCentre.pair_eqb observer callback observer_eqb
                       callback_eqb (obs, cb)) (postNotification d aName)
         then postNotification d aName
         else postNotification d aName ++ [(obs, cb)]
    else postNotification d n.
Proof.
  unfold NotificationCentre.addObserver, NotificationCentre.postNotification.
  destruct (String.eqb_spec n aName) as [->|Hne].
  - destruct (get aName d) as [l|] eqn:Hl.
    + rewrite Hl. destruct (existsb _ l); [now rewrite Hl|].
      now rewrite get_set_same.
    + rewrite get_set_same. cbn [existsb]. rewrite get_set_same. reflexivity.
  - destruct (get aName d) as [l|] eqn:Hl.
    + rewrite Hl. destruct (existsb _ l); [reflexivity|].
      now rewrite get_set_other.
    + rewrite get_set_same. cbn [existsb].
      now rewrite !get_set_other by exact Hne.
Qed.

Lemma post_after_remove (d : observers) obs aName n :
  postNotification (removeObserver d obs aName) n
  = if negb (Py.truthy aName)
       || match aName with Some a => n == a | None => false end
    then without obs (postNotification d n)
    else postNotification d n.
Proof.
  unfold NotificationCentre.removeObserver, NotificationCentre.postNotification.
  destruct aName as [a|]; cbn [Py.truthy].
  - destruct (a == "") eqn:Ea; cbn [negb orb].
    + rewrite get_map_without. now destruct (get n d).
    + destruct (String.eqb_spec n a) as [->|Hne].
      * now rewrite get_set_same.
      * now rewrite get_set_other.
  - cbn [negb orb]. rewrite get_map_without. now destruct (get n d).
Qed.

Lemma NoDup_without obs l : NoDup l -> NoDup (without obs l).
Proof. apply NoDup_filter. Qed.

Lemma NoDup_snoc {A} (l : list A) x : NoDup l -> ~ In x l -> NoDup (l ++ [x]).
Proof.
  intros Hl Hx. apply NoDup_app; [exact Hl|repeat constructor; intros []|].
  intros y Hy [<-|[]]. contradiction.
Qed.

End Notifications.

(** X29. No callback is called twice for one notification: whatever calls have
    registered and removed observers since the centre was created, the
    pairs a notification reaches are distinct. *)
Theorem notification_reaches_each_pair_once :
  forall (observer callback : Type) observer_eqb callback_eqb
         (calls : list (NotificationCentre.call observer callback)) aName,
    (forall a b, observer_eqb a b = true <-> a = b) ->
    (forall a b, callback_eqb a b = true <-> a = b) ->
    NoDup (NotificationCentre.postNotification observer callback
             (NotificationCentre.after observer callback observer_eqb callback_eqb
                calls)
             aName).
Proof.
  intros observer callback observer_eqb callback_eqb calls aName Ho Hc.
  unfold NotificationCentre.after.
  assert (Hgen : forall calls d,
            (forall n,
               NoDup (NotificationCentre.postNotification observer callback d n)) ->
            forall n,
              NoDup (NotificationCentre.postNotification observer callback
                       (fold_left
                          (NotificationCentre.apply_call observer callback
                             observer_eqb callback_eqb) calls d) n)).
  { clear calls aName. induction calls as [|c calls IH]; intros d Hd n; [apply Hd|].
    cbn [fold_left]. apply IH. intros n'.
    destruct c as [obs cb a|obs a]; cbn [NotificationCentre.apply_call].
    - rewrite (post_after_add observer callback observer_eqb callback_eqb).
      destruct (n' == a); [|apply Hd].
      destruct (existsb _ _) eqn:E; [apply Hd|].
      apply NoDup_snoc; [apply Hd|].
      intros Hin.
      apply (pair_registered observer callback observer_eqb callback_eqb Ho Hc) in Hin.
      congruence.
    - rewrite (post_after_remove observer callback observer_eqb).
      destruct (_ || _); [apply NoDup_without|]; apply Hd. }
  apply Hgen. intros n. cbn. constructor.
Qed.

(** X30. After [removeObserver] without a name (or with an empty one) no
    notification reaches the observer any more, and the other pairs are
    reached as before, in the same order; with a name, only that
    notification is cleaned. *)
Theorem removed_observer_is_not_notified :
  forall (observer callback : Type) observer_eqb
         (d : NotificationCentre.observers observer callback) obs aName n,
    (forall a b, observer_eqb a b = true <-> a = b) ->
    let reached :=
      NotificationCentre.postNotification observer callback
        (NotificationCentre.removeObserver observer callback observer_eqb d obs aName)
        n in
    let before := NotificationCentre.postNotification observer callback d n in
    (Py.truthy aName = false \/ aName = Some n ->
       reached = NotificationCentre.without observer callback observer_eqb obs before
       /\ (forall cb, ~ In (obs, cb) reached)
       /\ (forall o cb, o <> obs -> (In (o, cb) reached <-> In (o, cb) before))) /\
    (Py.truthy aName = true -> aName <> Some n -> reached = before).
Proof.
  intros observer callback observer_eqb d obs aName n Ho reached before.
  subst reached before.
  rewrite (post_after_remove observer callback observer_eqb). split.
  - intros Hcase.
    assert (Htest : negb (Py.truthy aName)
                    || match aName with Some a => n == a | None => false end = true).
    { destruct Hcase as [Hf| ->].
      - now rewrite Hf.
      - rewrite String.eqb_refl. apply orb_true_r. }
    rewrite Htest. split; [reflexivity|]. split.
    + intros cb Hin. unfold NotificationCentre.without in Hin.
      apply filter_In in Hin. destruct Hin as [_ Hneq]. simpl in Hneq.
      apply negb_true_iff in Hneq.
      assert (Heq : observer_eqb obs obs = true) by now apply Ho.
      congruence.
    + intros o cb Hne. unfold NotificationCentre.without. rewrite filter_In.
      simpl. split; [tauto|]. intros Hin. split; [exact Hin|].
      apply negb_true_iff. destruct (observer_eqb o obs) eqn:E; [|reflexivity].
      apply Ho in E. contradiction.
  - intros Ht Hne. rewrite Ht. cbn [negb orb].
    destruct aName as [a|]; [|reflexivity].
    destruct (String.eqb_spec n a) as [->|_]; [now destruct Hne|reflexivity].
Qed.

(** X21. Selecting a version whose segmentation file is gone removes that
    version from the manifest: the call reports the two errors, the token
    is no longer among the volume's versions, nothing is added and no
    other subject is touched. *)
Theorem select_segmentation_drops_version_without_file :
  forall segver_directory isfile m volume_fname seg_version e,
    let vol_base :=
      Py.slice_to_neg (String.length (volume_extension m)) volume_fname in
    let token := Py.strip seg_version in
    let volume_file :=
      Py.join2 (Py.join2 segver_directory (volume_path m)) volume_fname in
    let expected_seg_fname := vol_base +++ "-" +++ token +++ label_extension m in
    let seg_file :=
      Py.join2 (Py.join2 segver_directory (label_path m)) expected_seg_fname in
    Py.startswith token "v" = true ->
    Py.isdigit (Py.slice_from_1 token) = true ->
    Py.endswith volume_fname (volume_extension m) = true ->
    Dict.lookup vol_base (vols m) = Some e ->
    canonical_entry e ->
    In token (tokens e) ->
    isfile volume_file = true ->
    isfile seg_file = false ->
    exists warnings m',
      KomsService.select_segmentation segver_directory isfile m volume_fname seg_version
      = Ok ([], warnings,
            [SegFileMissing expected_seg_fname; VersionRemoved token vol_base], m') /\
      ~ In token (Manifest.get_all_version_strings m' vol_base) /\
      (forall r, In r (Manifest.get_all_versions m' vol_base) ->
                 In r (versions e)) /\
      (forall k, k <> vol_base -> Dict.lookup k (vols m') = Dict.lookup k (vols m)).
Proof.
  intros segver_directory isfile m volume_fname seg_version e vol_base token
         volume_file expected_seg_fname seg_file Hv Hd Hext He Hcan Htok Hvol Hseg.
  destruct (remove_volume_version_entry m vol_base e token He Hcan)
    as [l [m' [Hrm [Hother [Hnil Hsome]]]]].
  assert (Hfacts :
    ~ In token (Manifest.get_all_version_strings m' vol_base) /\
    (forall r, In r (Manifest.get_all_versions m' vol_base) -> In r (versions e)) /\
    exists latest, Manifest.get_latest_version m' vol_base = Ok latest).
  { rewrite get_all_version_strings_map.
    unfold Manifest.get_all_versions, Manifest.get_latest_version.
    destruct (filter (fun v => negb (r_version v == token)) (versions e))
      as [|r0 rs] eqn:Hkept.
    - rewrite (Hnil eq_refl). split; [intros []|]. split; [intros r []|eauto].
    - destruct (Hsome ltac:(discriminate)) as [e' [He' [Hvers _]]].
      rewrite He', Hvers. split; [|split].
      + rewrite <- Hkept. intros Hin. apply in_map_iff in Hin.
        destruct Hin as [r [Hr Hin]]. apply filter_In in Hin.
        destruct Hin as [_ Hne]. rewrite Hr, String.eqb_refl in Hne. discriminate.
      + intros r Hr. rewrite <- Hkept in Hr. apply filter_In in Hr. tauto.
      + assert (Hk : Forall (fun r => canonical (r_version r)) (r0 :: rs)).
        { rewrite <- Hkept. now apply filter_canonical. }
        destruct (latest_loop_canonical (r0 :: rs) Hk None) as [res [Hres _]].
        eauto. }
  destruct Hfacts as [Hgone [Hsub [latest Hlatest]]].
  assert (Hrun : exists warnings,
    KomsService.select_segmentation segver_directory isfile m volume_fname seg_version
    = Ok ([], warnings,
          [SegFileMissing expected_seg_fname; VersionRemoved token vol_base], m')).
  { unfold KomsService.select_segmentation, KomsService.get_paths_and_exts.
    cbv zeta. fold token. rewrite Hv, Hd, Hext. cbn [negb orb].
    fold vol_base. rewrite (proj2 (has_true_iff vol_base (vols m)) (ex_intro _ e He)).
    cbn [negb]. fold volume_file. rewrite Hvol. cbn [negb].
    rewrite (get_all_version_strings_lookup m vol_base e He).
    rewrite (proj2 (mem_true_iff token (tokens e)) Htok). cbn [negb].
    fold expected_seg_fname. fold seg_file. rewrite Hseg. cbn [negb].
    rewrite Hrm. simpl bind.
    destruct (match Manifest.get_selected_version m vol_base with
              | Some s => s == token
              | None => false
              end).
    - rewrite Hlatest. simpl bind. eauto.
    - eauto. }
  destruct Hrun as [warnings Hrun].
  exists warnings, m'. split; [exact Hrun|]. split; [exact Hgone|].
  split; [exact Hsub|exact Hother].
Qed.

(** ** From the files to the export *)

Lemma names_found_in_walk d ext name :
  ext <> "" -> In name (names_found d ext) -> In (name +++ ext) (walk d).
Proof.
  intros Hext Hin. unfold names_found, Commons.search_files_in in Hin.
  destruct (is_dir d); [|destruct Hin]. cbn [fst] in Hin.
  apply in_map_iff in Hin. destruct Hin as [f [Hname Hf]].
  apply filter_In in Hf. destruct Hf as [Hwalk Hends].
  apply endswith_iff in Hends. destruct Hends as [q ->].
  rewrite slice_to_neg_suffix in Hname by exact Hext. now subst q.
Qed.

(** X14. The export of an index that has just been created names files the
    matcher found, when the file names are ASCII and the segmentation
    names are free of line feed and number their versions without leading
    zero: every row pairs the name of a file found under the volumes
    directory with the name of a file found under the segmentations
    directory, each below its directory. *)
Theorem exported_files_are_found_files :
  forall now hash_image set_order segver_directory index_name
         volumes vext segmentations sext vol_dir seg_dir
         log warnings errors matches,
    (forall l, Permutation (set_order l) (nodup string_dec l)) ->
    Forall (fun s => Py.isascii s = true) (walk vol_dir) ->
    Forall (fun s => Py.isascii s = true) (walk seg_dir) ->
    Forall (fun s => no_line_feed s = true) (names_found seg_dir sext) ->
    canonically_numbered (names_found seg_dir sext) ->
    vext <> "" -> sext <> "" ->
    KomsService.match_new_index now hash_image set_order segver_directory
      vol_dir seg_dir volumes vext segmentations sext
    = Ok (log, warnings, errors, matches) ->
    forall subject vol_file seg_file,
      In (subject, vol_file, seg_file)
         (Manifest.get_volume_seg_tuples
            (KomsService.new_index_manifest index_name volumes vext segmentations
               sext matches)
            segver_directory) ->
      exists vname sname,
        In vname (walk vol_dir) /\ In sname (walk seg_dir) /\
        vol_file = Py.path_join segver_directory [volumes; vname] /\
        seg_file = Py.path_join segver_directory [segmentations; sname].
Proof.
  intros now hash_image set_order segver_directory index_name
         volumes vext segmentations sext vol_dir seg_dir
         log warnings errors matches Hso _ _ Hnl Hnum Hvext Hsext Hrun
         subject vol_file seg_file Hin.
  unfold KomsService.match_new_index in Hrun.
  destruct (matcher_index set_order Hso hash_image
              (Py.join2 segver_directory volumes) vext
              (Py.join2 segver_directory segmentations) sext vol_dir seg_dir
              Hnl Hnum now)
    as [log' [w' [e' [index [Hrun' [Hnamed [Hkeys Hids]]]]]]].
  rewrite Hrun in Hrun'. injection Hrun' as <- <- <- <-.
  unfold Manifest.get_volume_seg_tuples in Hin. apply in_flat_map in Hin.
  destruct Hin as [k [Hk Htuple]].
  cbn [KomsService.new_index_manifest Manifest.build_empty_manifest with_vols vols
       volume_path volume_extension label_path label_extension] in Hk, Htuple.
  unfold Manifest.get_selected_version in Htuple. cbn [vols] in Htuple.
  pose proof Hk as Hk'. apply in_keys_iff in Hk'. destruct Hk' as [e He].
  change (vols (KomsService.new_index_manifest index_name volumes vext
                  segmentations sext matches)) with matches in Htuple.
  rewrite He in Htuple.
  destruct (selected_version e) as [sel|] eqn:Hsel; [|destruct Htuple].
  destruct (Py.truthy (Some sel)); [|destruct Htuple].
  destruct Htuple as [Heq|[]]. injection Heq as <- <- <-.
  destruct (proj2 Hnamed k e (lookup_In _ _ _ He)) as [_ [[HI2 _] Hn]].
  unfold I2 in HI2. rewrite Hsel in HI2. unfold tokens in HI2.
  apply in_map_iff in HI2. destruct HI2 as [r [Hv Hr]].
  unfold named_entry in Hn. rewrite Forall_forall in Hn.
  destruct (Hn r Hr) as [_ Hid].
  assert (Hseg : In (r_id r) (names_found seg_dir sext)).
  { apply (Hids k e He). now apply in_map. }
  exists (k +++ vext), (r_id r +++ sext).
  split; [|split; [|split]].
  - apply names_found_in_walk; [exact Hvext|]. now apply Hkeys.
  - apply names_found_in_walk; [exact Hsext|exact Hseg].
  - reflexivity.
  - rewrite Hid, Hv, !append_assoc. reflexivity.
Qed.

(** ** The properties on concrete states *)

Ltac entry_facts :=
  repeat match goal with
         | |- _ /\ _ => split
         | |- entry_ok _ => split
         | |- named_entry _ _ => unfold named_entry
         | |- canonical_entry _ => unfold canonical_entry
         | |- Forall _ _ => constructor
         | |- record_named _ _ => split
         | |- _ <> _ => discriminate
         | |- I2 _ => unfold I2; simpl; tauto
         | |- canonical "v1" => exists 1; reflexivity
         | |- canonical "v2" => exists 2; reflexivity
         | |- canonical "v3" => exists 3; reflexivity
         | |- canonical (r_version _) => simpl
         | |- _ = _ => reflexivity
         end.

Lemma selected_v1_named : manifest_named selected_v1.
Proof.
  intros k e He. simpl in He.
  destruct (k == "A") eqn:EA; [|discriminate].
  apply String.eqb_eq in EA. subst k. injection He as <-. entry_facts.
Qed.

Lemma two_subjects_named : manifest_named two_subjects.
Proof.
  intros k e He. simpl in He.
  destruct (k == "A") eqn:EA; [|destruct (k == "B") eqn:EB; [|discriminate]].
  - apply String.eqb_eq in EA. subst k. injection He as <-. entry_facts.
  - apply String.eqb_eq in EB. subst k. injection He as <-. entry_facts.
Qed.

Lemma found_v1_v2_index : index_named found_v1_v2.
Proof.
  split; [repeat constructor; simpl; tauto|].
  intros k e [Heq|[]]. injection Heq as <- <-. entry_facts.
Qed.

Lemma found_without_A_v2_index : index_named found_without_A_v2.
Proof.
  split; [repeat constructor; simpl; intuition discriminate|].
  intros k e [Heq|[Heq|[]]]; injection Heq as <- <-; entry_facts.
Qed.

Lemma nodup_enumerates :
  forall l : list string, Permutation (nodup string_dec l) (nodup string_dec l).
Proof. intros l. apply Permutation_refl. Qed.

Lemma add_then_remove_version_restores_witness :
  exists log,
    Manifest.remove_volume_version
      (snd (Manifest.add_volume_version "2025-06-01T00:00:00Z" (fun s => s)
              selected_v1 "A" "v2" "" "" None None None))
      "A" "v2"
    = Ok (log, selected_v1).
Proof.
  apply add_then_remove_version_restores.
  intros e He. vm_compute in He. injection He as <-.
  split; [simpl; intros [H|[]]; discriminate|]. split; discriminate.
Defined.

Lemma remove_absent_version_changes_nothing_witness :
  Manifest.remove_volume_version two_versions "A" "v9" = Ok (None, two_versions).
Proof.
  apply remove_absent_version_changes_nothing.
  intros e He. vm_compute in He. injection He as <-.
  split; [simpl; intros [H|[H|[]]]; discriminate|]. split; discriminate.
Defined.

Lemma segmentation_indexed_under_one_volume_witness :
  Commons.verify_volseg_match "now" (fun path => path) (nodup string_dec)
    "/data/volumes" ".nii" "/data/labels" ".nii" volumes_A_B labels_A_A_C
  = Ok ([VolumesFound 2 "/data/volumes"; SegmentationsFound 3 "/data/labels"],
        [VolumesWithoutSegmentation ["B"]; SegmentationsWithoutVolume ["C-v1"]],
        [],
        [("A", mkEntry (Some "v2")
                 [matched_record "now" "A-v1" "v1"; matched_record "now" "A-v2" "v2"])])
  /\ "A" = "A".
Proof.
  split; [reflexivity|].
  apply (segmentation_indexed_under_one_volume "now" (fun path => path)
           (nodup string_dec) "/data/volumes" ".nii" "/data/labels" ".nii"
           volumes_A_B labels_A_A_C _ _ _ _ nodup_enumerates
           ltac:(repeat constructor) eq_refl
           "A" "A" _ _ "A-v1" eq_refl eq_refl);
    simpl; now left.
Defined.

Lemma update_index_mirrors_index_witness :
  exists log m1,
    Commons.update_index (nodup string_dec) two_subjects found_without_A_v2
    = Ok (log, [], [], m1) /\
    (forall seg_id, In seg_id (Commons.seg_ids m1)
                    <-> In seg_id ["A-v1"; "B-v1"]).
Proof.
  destruct (update_index_mirrors_index (nodup string_dec) two_subjects
              found_without_A_v2 nodup_enumerates)
    as [log [m1 [Hrun [_ [Hids _]]]]].
  - repeat constructor; simpl; intuition discriminate.
  - exact two_subjects_named.
  - exact found_without_A_v2_index.
  - exists log, m1. split; [exact Hrun|exact Hids].
Defined.

Lemma update_index_installs_index_on_empty_witness :
  Commons.update_index (nodup string_dec) empty_index found_v1_v2
  = Ok ([AddedVolume "A"; AddedVersion "v1" "A"; AddedVersion "v2" "A"], [], [],
        mkManifest "index" "volumes" ".nii" "labels" ".nii"
          [("A", mkEntry (Some "v2") [plain_record "A" "v1"; plain_record "A" "v2"])]).
Proof.
  apply (update_index_installs_index_on_empty (nodup string_dec) empty_index
           found_v1_v2 nodup_enumerates eq_refl).
  repeat constructor; simpl; tauto.
Defined.

Lemma update_index_keeps_selection_witness :
  exists log m1,
    Commons.update_index (nodup string_dec) selected_v1 found_v1_v2
    = Ok (log, [], [], m1) /\
    Manifest.get_selected_version m1 "A" = Some "v1".
Proof.
  eexists _, _. split; [vm_compute; reflexivity|].
  apply (update_index_keeps_selection (nodup string_dec) selected_v1 found_v1_v2
           _ [] [] _ nodup_enumerates
           ltac:(repeat constructor; simpl; tauto)
           selected_v1_named found_v1_v2_index eq_refl
           "A" _ "v1" eq_refl eq_refl).
  simpl. now left.
Defined.

Lemma update_after_create_changes_nothing_witness :
  exists log1 w1 e1 matches1 log2 w2 e2 matches2,
    KomsService.match_new_index "2025-06-01T00:00:00Z" (fun path => path)
      (nodup string_dec) "/data" volumes_A_B labels_A_A_C
      "volumes" ".nii" "labels" ".nii"
    = Ok (log1, w1, e1, matches1) /\
    KomsService.get_volseg_matches "2025-06-02T00:00:00Z" (fun path => path)
      (nodup string_dec) "/data" volumes_A_B labels_A_A_C
      (KomsService.new_index_manifest "index" "volumes" ".nii" "labels" ".nii"
         matches1)
    = Ok (log2, w2, e2, matches2) /\
    KomsService.update_index (nodup string_dec)
      (KomsService.new_index_manifest "index" "volumes" ".nii" "labels" ".nii"
         matches1)
      (Commons.only_volumes matches2)
    = Ok ([], [], [],
          KomsService.new_index_manifest "index" "volumes" ".nii" "labels" ".nii"
            matches1).
Proof.
  apply (update_after_create_changes_nothing "2025-06-01T00:00:00Z"
           "2025-06-02T00:00:00Z" (fun path => path) (nodup string_dec) "/data"
           "index" "volumes" ".nii" "labels" ".nii" volumes_A_B labels_A_A_C
           nodup_enumerates).
Defined.

Lemma derive_version_is_fresh_witness :
  exists version,
    KomsService.derive_version two_versions "scan" "A" = Ok version /\
    1 <= version /\
    ~ In ("v" +++ Py.str_nat version)
         (Manifest.get_all_version_strings two_versions "A").
Proof.
  apply derive_version_is_fresh; [|reflexivity].
  repeat constructor; [exists 1|exists 2]; reflexivity.
Defined.

Lemma link_segmentation_adds_nothing_witness :
  KomsService.link_segmentation "2025-06-01T00:00:00Z" (fun s => s) (fun s => s)
    "/data" linkable_files (fun _ _ => true) true two_versions "A.nii" "scan.mha"
  = Ok ([], [], [SegExtMismatch ".nii" "scan.mha"], two_versions, linkable_files)
  /\ [SegExtMismatch ".nii" "scan.mha"] <> [].
Proof.
  split; [reflexivity|].
  exact (proj1 (proj2 (link_segmentation_adds_nothing "2025-06-01T00:00:00Z"
                         (fun s => s) (fun s => s) "/data" linkable_files
                         (fun _ _ => true) true two_versions "A.nii" "scan.mha"
                         [] [] [SegExtMismatch ".nii" "scan.mha"] two_versions
                         linkable_files eq_refl))).
Defined.

Lemma select_segmentation_success_witness :
  Manifest.get_selected_version
    (Manifest.set_selected_version two_versions "A" (Some "v1")) "A"
  = Some "v1".
Proof.
  exact (proj1 (select_segmentation_success "/data" (fun _ => true) two_versions
                  "A.nii" " v1 " [SelectionChanged "A" "v1"] []
                  (Manifest.set_selected_version two_versions "A" (Some "v1"))
                  eq_refl)).
Defined.

Lemma select_segmentation_error_keeps_manifest_witness :
  KomsService.select_segmentation "/data" (fun _ => true) two_versions "A.nii" "v7"
  = Ok ([], [NoChanges],
        [VersionNotInManifest "v7" "A"; PleaseSelectFrom ["v1"; "v2"]], two_versions)
  /\ two_versions = two_versions.
Proof.
  split; [reflexivity|].
  apply (select_segmentation_error_keeps_manifest "/data" (fun _ => true)
           two_versions "A.nii" "v7" [] [NoChanges]
           [VersionNotInManifest "v7" "A"; PleaseSelectFrom ["v1"; "v2"]]
           two_versions (fun _ => eq_refl) eq_refl).
  discriminate.
Defined.

Lemma select_segmentation_drops_volume_without_file_witness :
  exists m',
    KomsService.select_segmentation "/data" (fun _ => false) two_subjects
      "A.nii" "v1"
    = Ok ([], [],
          [VolumeFileMissing "/data/volumes/A.nii"; VolumeRemoved "A"], m') /\
    Manifest.get_all_versions m' "A" = [] /\
    Manifest.get_selected_version m' "A" = None /\
    (forall k, k <> "A" -> Dict.lookup k (vols m') = Dict.lookup k (vols two_subjects)).
Proof.
  apply (select_segmentation_drops_volume_without_file "/data" (fun _ => false)
           two_subjects "A.nii" "v1" eq_refl eq_refl eq_refl eq_refl eq_refl).
Defined.

Lemma select_segmentation_drops_version_without_file_witness :
  exists warnings m',
    KomsService.select_segmentation "/data"
      (fun p => negb (p == "/data/labels/A-v2.nii")) two_versions "A.nii" "v2"
    = Ok ([], warnings,
          [SegFileMissing "A-v2.nii"; VersionRemoved "v2" "A"], m') /\
    ~ In "v2" (Manifest.get_all_version_strings m' "A").
Proof.
  destruct (select_segmentation_drops_version_without_file "/data"
              (fun p => negb (p == "/data/labels/A-v2.nii")) two_versions
              "A.nii" "v2"
              (mkEntry (Some "v2") [plain_record "A" "v1"; plain_record "A" "v2"])
              eq_refl eq_refl eq_refl eq_refl)
    as [warnings [m' [Hrun [Hgone _]]]].
  - repeat constructor; [exists 1|exists 2]; reflexivity.
  - simpl. tauto.
  - reflexivity.
  - reflexivity.
  - exists warnings, m'. split; [exact Hrun|exact Hgone].
Defined.

Lemma update_metadata_author_notes_idempotent_witness :
  exists author notes tags,
    KomsService.update_segmentation_metadata "2025-07-01T00:00:00Z"
      (snd (KomsService.update_segmentation_metadata "2025-06-01T00:00:00Z" tagged
              "A.nii" "v1" "bob" "" ""))
      "A.nii" "v1" "bob" "" ""
    = ([AuthorUnchanged author; NotesUnchanged notes; TagsUnchanged tags;
        NoMetadataChange "A" "v1"; BlankLine; MetadataUpdated "A" "v1"],
       [], [],
       snd (KomsService.update_segmentation_metadata "2025-06-01T00:00:00Z" tagged
              "A.nii" "v1" "bob" "" "")).
Proof.
  apply (update_metadata_author_notes_idempotent "2025-06-01T00:00:00Z"
           "2025-07-01T00:00:00Z" tagged "A.nii" "v1" "bob" ""
           [OldAuthor "ann"; NewAuthor "bob"; NotesUnchanged "first pass";
            TagsUnchanged ["a"; "b"]; LastUpdated "2025-06-01T00:00:00Z";
            BlankLine; MetadataUpdated "A" "v1"]).
  reflexivity.
Defined.

Lemma update_record_tags_always_change_witness :
  r_last_updated
    (snd (KomsService.update_record "2025-06-01T00:00:00Z" "A" "v1" "" "" "a,b"
            (mkVersion "A-v1" "h" "2025-01-01T00:00:00Z" "ann" "first pass"
                       ["a"; "b"] "v1" "2025-01-01T00:00:00Z")))
  = "2025-06-01T00:00:00Z".
Proof.
  apply (update_record_tags_always_change "2025-06-01T00:00:00Z" "A" "v1" "" "" "a,b").
  discriminate.
Defined.

(** ** White space around the version argument *)

Lemma lstrip_list s :
  list_ascii_of_string (Py.lstrip s) = drop_spaces (list_ascii_of_string s).
Proof.
  induction s as [|c s IH]; simpl; [reflexivity|].
  destruct (Py.is_space c); [exact IH|reflexivity].
Qed.

Lemma strip_list s :
  list_ascii_of_string (Py.strip s)
  = List.rev (drop_spaces (List.rev (drop_spaces (list_ascii_of_string s)))).
Proof.
  unfold Py.strip, Py.rstrip, Py.rev_string.
  rewrite list_ascii_of_string_of_list_ascii, lstrip_list,
    list_ascii_of_string_of_list_ascii, lstrip_list.
  reflexivity.
Qed.

Lemma drop_spaces_idempotent l : drop_spaces (drop_spaces l) = drop_spaces l.
Proof.
  induction l as [|c l IH]; simpl; [reflexivity|].
  destruct (Py.is_space c) eqn:E; [exact IH|]. simpl. now rewrite E.
Qed.

Lemma drop_spaces_keeps_last l c :
  Py.is_space c = false -> exists l', drop_spaces (l ++ [c]) = l' ++ [c].
Proof.
  intros Hc. induction l as [|x l [l' IH]]; simpl.
  - rewrite Hc. now exists [].
  - destruct (Py.is_space x); [eauto|]. now exists (x :: l).
Qed.

Lemma drop_spaces_stripped l :
  drop_spaces (List.rev (drop_spaces (List.rev (drop_spaces l))))
  = List.rev (drop_spaces (List.rev (drop_spaces l))).
Proof.
  destruct (drop_spaces l) as [|c m] eqn:Hm; [reflexivity|].
  assert (Hc : Py.is_space c = false).
  { clear -Hm. induction l as [|x l IH]; simpl in Hm; [discriminate|].
    destruct (Py.is_space x) eqn:E; [now apply IH|]. now injection Hm as <- _. }
  simpl List.rev.
  destruct (drop_spaces_keeps_last (List.rev m) c Hc) as [l' ->].
  rewrite rev_app_distr. simpl. now rewrite Hc.
Qed.

Lemma strip_idempotent s : Py.strip (Py.strip s) = Py.strip s.
Proof.
  rewrite <- (string_of_list_ascii_of_string (Py.strip (Py.strip s))).
  rewrite <- (string_of_list_ascii_of_string (Py.strip s)) at 2.
  f_equal. rewrite (strip_list (Py.strip s)), (strip_list s).
  rewrite (drop_spaces_stripped (List.rev (drop_spaces (list_ascii_of_string s)))).
  rewrite rev_involutive. apply drop_spaces_stripped.
Qed.

(** X22. The version argument of [select_segmentation] is read up to the white
    space around it. *)
Theorem select_segmentation_ignores_surrounding_space :
  forall segver_directory isfile m volume_fname seg_version,
    KomsService.select_segmentation segver_directory isfile m volume_fname
      (Py.strip seg_version)
    = KomsService.select_segmentation segver_directory isfile m volume_fname
        seg_version.
Proof.
  intros. unfold KomsService.select_segmentation.
  now rewrite strip_idempotent.
Qed.

(** ** More concrete states *)

Lemma labels_A_A_C_numbered :
  canonically_numbered (names_found labels_A_A_C ".nii").
Proof.
  intros seg X digits Hin Heq Hd. unfold Py.isdigit in Hd.
  apply andb_true_iff in Hd. destruct Hd as [_ Hd].
  simpl in Hin. destruct Hin as [<-|[<-|[<-|[]]]].
  - destruct (name_decomposition "A" X "1" digits eq_refl Hd Heq) as [_ <-].
    now exists 1.
  - destruct (name_decomposition "A" X "2" digits eq_refl Hd Heq) as [_ <-].
    now exists 2.
  - destruct (name_decomposition "C" X "1" digits eq_refl Hd Heq) as [_ <-].
    now exists 1.
Qed.

Lemma exported_files_are_found_files_witness :
  exists vname sname,
    In vname (walk volumes_A_B) /\ In sname (walk labels_A_A_C) /\
    "/data/volumes/A.nii" = Py.path_join "/data" ["volumes"; vname] /\
    "/data/labels/A-v2.nii" = Py.path_join "/data" ["labels"; sname].
Proof.
  apply (exported_files_are_found_files "now" (fun path => path) (nodup string_dec)
           "/data" "index" "volumes" ".nii" "labels" ".nii" volumes_A_B labels_A_A_C
           _ _ _ _ nodup_enumerates ltac:(repeat constructor)
           ltac:(repeat constructor) ltac:(repeat constructor)
           labels_A_A_C_numbered
           ltac:(discriminate) ltac:(discriminate) eq_refl "A").
  simpl. now left.
Defined.

Lemma parser_lists_are_aligned_witness :
  Kernel.get_tuple
    (Kernel.get_SegVerTListManager
       (Kernel.load (fun _ => Some (Kernel.mkConfig (Some "index") (Some "demo")
                                      (Some "two subjects")))
          (fun _ _ => Ok two_subjects)
          "/data" "/data/.segverhandler" "/data/.segverhandler/config"
          (Kernel.mkParser "None" "None" [] [] Kernel.new_manager)))
    1
  = Some (Kernel.mkTuple 1 "B" "/data/volumes/B.nii" "/data/labels/B-v1.nii").
Proof.
  destruct (proj2 (proj2
              (parser_lists_are_aligned (fun _ => true)
                 (fun _ => Some (Kernel.mkConfig (Some "index") (Some "demo")
                                   (Some "two subjects")))
                 (fun _ _ => Ok two_subjects) "/data" _ eq_refl))
              1 ltac:(vm_compute; lia))
    as [nm [v [s [Hnm [Hv [Hs Ht]]]]]].
  vm_compute in Hnm, Hv, Hs. injection Hnm as <-. injection Hv as <-.
  injection Hs as <-. exact Ht.
Defined.

Lemma viewer_shows_the_exported_pairs_witness :
  exists p,
    Kernel.new_parser (fun _ => true)
      (fun _ => Some (Kernel.mkConfig (Some "index") (Some "demo")
                        (Some "two subjects")))
      (fun _ _ => Ok two_subjects) "/data"
    = Ok p /\
    [csv_header;
     "/data/volumes/A.nii,/data/labels/A-v2.nii" +++ Commons.newline;
     "/data/volumes/B.nii,/data/labels/B-v1.nii" +++ Commons.newline]
    = csv_header
      :: map (fun pair => Py.rstrip (fst pair) +++ "," +++ Py.rstrip (snd pair)
                            +++ Commons.newline)
             (combine (Kernel.get_volumes p) (Kernel.get_segmentations p)).
Proof.
  apply (viewer_shows_the_exported_pairs (fun _ => true)
           (fun _ => Some (Kernel.mkConfig (Some "index") (Some "demo")
                             (Some "two subjects")))
           (fun _ _ => Ok two_subjects) "/data"
           (Kernel.mkConfig (Some "index") (Some "demo") (Some "two subjects"))
           "index" "demo" "two subjects" two_subjects
           "index" (fun d => d == "/out") true "/out/pairs.csv" "/out/pairs.csv"
           [Exporting 2 "index"; ExportedTo "/out/pairs.csv"]);
    reflexivity.
Defined.

Lemma notification_reaches_each_pair_once_witness :
  NoDup
    (NotificationCentre.postNotification nat nat
       (NotificationCentre.after nat nat Nat.eqb Nat.eqb
          [NotificationCentre.AddObserver nat nat 1 10 "VOLUME_SELECTED";
           NotificationCentre.AddObserver nat nat 1 10 "VOLUME_SELECTED";
           NotificationCentre.AddObserver nat nat 2 20 "VOLUME_SELECTED";
           NotificationCentre.RemoveObserver nat nat 2 None])
       "VOLUME_SELECTED").
Proof.
  apply notification_reaches_each_pair_once; apply Nat.eqb_eq.
Defined.

Lemma removed_observer_is_not_notified_witness :
  NotificationCentre.postNotification nat nat
    (NotificationCentre.removeObserver nat nat Nat.eqb
       [("VOLUME_SELECTED", [(1, 10); (2, 20); (1, 11)])] 1 (Some ""))
    "VOLUME_SELECTED"
  = [(2, 20)].
Proof.
  exact (proj1 (proj1 (removed_observer_is_not_notified nat nat Nat.eqb
                         [("VOLUME_SELECTED", [(1, 10); (2, 20); (1, 11)])]
                         1 (Some "") "VOLUME_SELECTED" Nat.eqb_eq)
                  (or_introl eq_refl))).
Defined.
